(** * Tokko lead scraper: the lead-collection engine

    A shallow embedding of [src/scraper/leads.js], [src/scraper/index.js]
    and [src/api/routes/leads.js].

    Conventions of the embedding.
    - A JavaScript string is a [string] of bytes (UTF-8).  The literals of
      the source that are not ASCII ("año", "día") are byte sequences and
      are matched as such.  [\s] and [trim] are those of the ASCII range
      and [toLowerCase] folds the letters below U+0100; the theorems that
      depend on them are stated for the texts on which this is what
      JavaScript does ([asciiSpaced], [latin1]).
    - A JavaScript number that counts or indexes is a [Z]; [indexOf] keeps
      its [-1].
    - A property that may hold [undefined], [null] or a string is a [jsval].
    - The browser is an abstract world threaded through every awaited call. *)

From Stdlib Require Import ZArith List Bool Ascii String Lia.
Import ListNotations.

Open Scope string_scope.

(** ** JavaScript values and strings *)

Inductive jsval : Type :=
| Undefined
| Null
| Str (s : string).

Module JS.

Definition isEmpty (s : string) : bool :=
  match s with EmptyString => true | String _ _ => false end.

(** Truthiness of a value: [undefined], [null] and [''] are falsy. *)
Definition truthy (v : jsval) : bool :=
  match v with
  | Str s => negb (isEmpty s)
  | _ => false
  end.

(** [a || b] *)
Definition or (a b : jsval) : jsval := if truthy a then a else b.

(** [`${v || ''}`] *)
Definition orEmpty (v : jsval) : string :=
  match v with
  | Str s => s
  | _ => ""
  end.

Definition isDigit (c : ascii) : bool :=
  let n := nat_of_ascii c in (48 <=? n)%nat && (n <=? 57)%nat.

(** [\s] on the ASCII range: tab, line feed, vertical tab, form feed,
    carriage return, space. *)
Definition isSpace (c : ascii) : bool :=
  let n := nat_of_ascii c in ((9 <=? n)%nat && (n <=? 13)%nat) || (n =? 32)%nat.

Definition notChar (a : ascii) (c : ascii) : bool := negb (Ascii.eqb a c).

Fixpoint takeWhile (p : ascii -> bool) (s : string) : string :=
  match s with
  | EmptyString => EmptyString
  | String c r => if p c then String c (takeWhile p r) else EmptyString
  end.

Fixpoint dropWhile (p : ascii -> bool) (s : string) : string :=
  match s with
  | EmptyString => EmptyString
  | String c r => if p c then dropWhile p r else s
  end.

Fixpoint skip (n : nat) (s : string) : string :=
  match n, s with
  | O, _ => s
  | S _, EmptyString => EmptyString
  | S k, String _ r => skip k r
  end.

Fixpoint take (n : nat) (s : string) : string :=
  match n, s with
  | O, _ => EmptyString
  | S _, EmptyString => EmptyString
  | S k, String c r => String c (take k r)
  end.

Fixpoint trimEnd (s : string) : string :=
  match s with
  | EmptyString => EmptyString
  | String c r =>
      let r' := trimEnd r in
      if isSpace c && isEmpty r' then EmptyString else String c r'
  end.

(** [s.trim()] *)
Definition trim (s : string) : string := trimEnd (dropWhile isSpace s).

Fixpoint reverseOnto (acc s : string) : string :=
  match s with
  | EmptyString => acc
  | String c r => reverseOnto (String c acc) r
  end.

Definition reverse (s : string) : string := reverseOnto EmptyString s.

Definition lowerChar (c : ascii) : ascii :=
  let n := nat_of_ascii c in
  if (65 <=? n)%nat && (n <=? 90)%nat then ascii_of_nat (n + 32) else c.

(** The capital letters U+00C0 to U+00DE, the multiplication sign U+00D7
    apart, are the two bytes 195 and 128 to 158 (151 apart); the small
    letter is 32 further. *)
Definition isLatinLead (c : ascii) : bool := (nat_of_ascii c =? 195)%nat.

Definition lowerLatin (c : ascii) : ascii :=
  let n := nat_of_ascii c in
  if (128 <=? n)%nat && (n <=? 158)%nat && negb (n =? 151)%nat
  then ascii_of_nat (n + 32) else c.

(** [afterLead] tells that the byte before was 195. *)
Fixpoint lowerFrom (afterLead : bool) (s : string) : string :=
  match s with
  | EmptyString => EmptyString
  | String c r =>
      String (if afterLead then lowerLatin c else lowerChar c)
             (lowerFrom (isLatinLead c) r)
  end.

(** [s.toLowerCase()] on the characters below U+0100: the letters A to Z
    and the accented capital letters of Latin-1 (Ñ, Í, É and the like). *)
Definition toLowerCase (s : string) : string := lowerFrom false s.

(** [s.replace(/\s+/g, ' ')]: [inRun] records that the previous character
    was white space, already replaced. *)
Fixpoint collapseFrom (inRun : bool) (s : string) : string :=
  match s with
  | EmptyString => EmptyString
  | String c r =>
      if isSpace c
      then (if inRun then collapseFrom true r else String " " (collapseFrom true r))
      else String c (collapseFrom false r)
  end.

Definition collapseSpaces (s : string) : string := collapseFrom false s.

(** [s.includes(needle)] *)
Fixpoint includes (needle s : string) : bool :=
  prefix needle s ||
  match s with
  | EmptyString => false
  | String _ r => includes needle r
  end.

Fixpoint indexFrom (needle s : string) (i : Z) : Z :=
  if prefix needle s then i
  else match s with
       | EmptyString => (-1)%Z
       | String _ r => indexFrom needle r (i + 1)%Z
       end.

(** [s.indexOf(needle)] *)
Definition indexOf (needle s : string) : Z := indexFrom needle s 0%Z.

(** [s.substring(a, b)]: both ends are clamped to the string and swapped
    when out of order. *)
Definition substring (a b : Z) (s : string) : string :=
  let len := Z.of_nat (String.length s) in
  let a' := Z.max 0 (Z.min a len) in
  let b' := Z.max 0 (Z.min b len) in
  let lo := Z.min a' b' in
  let hi := Z.max a' b' in
  take (Z.to_nat (hi - lo)) (skip (Z.to_nat lo) s).

(** [parseInt(digits, 10)] on a run of decimal digits. *)
Fixpoint parseDigits (acc : Z) (s : string) : Z :=
  match s with
  | EmptyString => acc
  | String c r =>
      if isDigit c
      then parseDigits (10 * acc + Z.of_nat (nat_of_ascii c - 48))%Z r
      else acc
  end.

Definition parseInt (s : string) : Z := parseDigits 0%Z s.

End JS.

(** ** Regular expressions of the source, as matchers

    A matcher consumes a prefix of its input and returns the rest.  None of
    the expressions of the source needs backtracking beyond what is written
    here: every greedy class is followed by a character outside the class. *)

Module Re.

Definition matcher : Type := string -> option string.

Definition andThen (m1 m2 : matcher) : matcher :=
  fun s => match m1 s with Some r => m2 r | None => None end.

Infix ">>" := andThen (at level 60, right associativity).

(** A literal character. *)
Definition chr (a : ascii) : matcher :=
  fun s => match s with
           | String c r => if Ascii.eqb a c then Some r else None
           | EmptyString => None
           end.

(** A literal string. *)
Fixpoint lit (w : string) : matcher :=
  fun s => match w with
           | EmptyString => Some s
           | String a w' =>
               match s with
               | String c r => if Ascii.eqb a c then lit w' r else None
               | EmptyString => None
               end
           end.

(** [\d{n}] *)
Fixpoint digitsN (n : nat) : matcher :=
  fun s => match n with
           | O => Some s
           | S k =>
               match s with
               | String c r => if JS.isDigit c then digitsN k r else None
               | EmptyString => None
               end
           end.

(** [\d+] *)
Definition digits1 : matcher :=
  fun s => match s with
           | String c r => if JS.isDigit c then Some (JS.dropWhile JS.isDigit r) else None
           | EmptyString => None
           end.

(** [\s*] *)
Definition spaces0 : matcher := fun s => Some (JS.dropWhile JS.isSpace s).

(** [\s+] *)
Definition spaces1 : matcher :=
  fun s => match s with
           | String c r => if JS.isSpace c then Some (JS.dropWhile JS.isSpace r) else None
           | EmptyString => None
           end.

(** [\d{1,2}] followed by [/]: two digits when a slash follows them, one
    digit when the slash follows at once. *)
Definition digits12Slash : matcher :=
  fun s => match (digitsN 2 >> chr "/") s with
           | Some r => Some r
           | None => (digitsN 1 >> chr "/") s
           end.

(** The text a matcher consumed. *)
Definition consumed (s rest : string) : string :=
  JS.take (String.length s - String.length rest) s.

(** Leftmost match: the first offset at which [m] succeeds, with the
    suffix starting there and the rest after the match. *)
Fixpoint search (m : matcher) (s : string) : option (string * string) :=
  match m s with
  | Some rest => Some (s, rest)
  | None =>
      match s with
      | EmptyString => None
      | String _ r => search m r
      end
  end.

(** [re.test(s)] *)
Definition test (m : matcher) (s : string) : bool :=
  match search m s with Some _ => true | None => false end.

End Re.

Import Re.

(** ** Row fragments

    The object built per row.  [parseLeadFromText] sets the first five
    properties; [propertyName] and [vigencia] are the properties that
    [extractLeadData] sets and [getLeadKey] reads; [propertyId] and
    [propertyAgent] are added by [extractPropertyDetails].  A property that
    an object does not have reads as [Undefined]. *)

Record RawLead : Type := mkRawLead {
  contactName : jsval;
  propertyAddress : jsval;
  lastUpdated : jsval;
  status : jsval;
  _agentName : jsval;
  propertyName : jsval;
  vigencia : jsval;
  propertyId : jsval;
  propertyAgent : jsval
}.

(** [/(\d{2}\/\d{2}\/\d{4}\s+\d{2}:\d{2})/] *)
Definition dateTimeRe : matcher :=
  digitsN 2 >> chr "/" >> digitsN 2 >> chr "/" >> digitsN 4 >>
  spaces1 >> digitsN 2 >> chr ":" >> digitsN 2.

(** [cleanText.match(dateTimeRe)]: the matched text, [dateMatch[1]]. *)
Definition dateMatch (cleanText : string) : option string :=
  match search dateTimeRe cleanText with
  | Some (from, rest) => Some (consumed from rest)
  | None => None
  end.

(** [cleanText.match(/^([^(]+)\s*\(([^)]+)\)/)]: groups 1 and 2.  The greedy
    [[^(]+] runs to the first opening parenthesis, so [\s*] is empty; the
    greedy [[^)]+] runs to the first closing parenthesis after it. *)
Definition contactMatch (cleanText : string) : option (string * string) :=
  let g1 := JS.takeWhile (JS.notChar "(") cleanText in
  if JS.isEmpty g1 then None
  else
    match JS.dropWhile (JS.notChar "(") cleanText with
    | String _ afterOpen =>
        let g2 := JS.takeWhile (JS.notChar ")") afterOpen in
        if JS.isEmpty g2 then None
        else
          match JS.dropWhile (JS.notChar ")") afterOpen with
          | String _ _ => Some (g1, g2)
          | EmptyString => None
          end
    | EmptyString => None
    end.

Definition isSpaceOrAt (c : ascii) : bool := JS.isSpace c || Ascii.eqb c "@".

(** [cleanText] of [parseLeadFromText] *)
Definition cleanRow (text : string) : string := JS.trim (JS.collapseSpaces text).

(** The address of [parseLeadFromText]: the text between the first closing
    parenthesis and the time stamp. *)
Definition addressBetween (cleanText dateText : string) : jsval :=
  let afterAgent := (JS.indexOf ")" cleanText + 1)%Z in
  let beforeDate := JS.indexOf dateText cleanText in
  if ((0 <? afterAgent) && (afterAgent <? beforeDate))%Z
  then
    let a := JS.trim (JS.substring afterAgent beforeDate cleanText) in
    Str (JS.trim (JS.dropWhile isSpaceOrAt a))
  else Null.

Definition parseLeadFromText (text : jsval) : option RawLead :=
  if negb (JS.truthy text) then None
  else
    let cleanText := cleanRow (JS.orEmpty text) in
    let dm := dateMatch cleanText in
    let lastUpdated := match dm with Some d => Str d | None => Null end in
    let cm := contactMatch cleanText in
    let contactName := match cm with Some (n, _) => Str (JS.trim n) | None => Null end in
    let agentName := match cm with Some (_, a) => Str (JS.trim a) | None => Null end in
    let propertyAddress :=
      match cm, dm with
      | Some _, Some d => addressBetween cleanText d
      | _, _ => Null
      end in
    if negb (JS.truthy contactName) then None
    else Some {| contactName := contactName;
                 propertyAddress := propertyAddress;
                 lastUpdated := lastUpdated;
                 status := Null;
                 _agentName := agentName;
                 propertyName := Undefined;
                 vigencia := Undefined;
                 propertyId := Undefined;
                 propertyAgent := Undefined |}.

(** [getLeadKey]: the template [`${a}-${b}-${c}`] in lower case. *)
Definition getLeadKey (lead : RawLead) : string :=
  JS.toLowerCase
    (JS.orEmpty (JS.or (contactName lead) (Str "")) ++ "-" ++
     JS.orEmpty (JS.or (propertyName lead) (Str "")) ++ "-" ++
     JS.orEmpty (JS.or (vigencia lead) (Str ""))).

(** ** Dates

    A [Date] object holds a time value in milliseconds since the epoch, or
    NaN ([InvalidDate]).  Local time is UTC plus a fixed offset [LocalTZA]:
    daylight-saving changes are outside the embedding, so that moving a date
    by whole local days, hours or minutes moves its time value by as many
    milliseconds.  Day counts are exact integers; a count too large to be
    exact as a double also puts the date out of range, which [TimeClip]
    turns into [InvalidDate] either way. *)

Inductive Date : Type :=
| ValidDate (t : Z)
| InvalidDate.

Open Scope Z_scope.

Definition msPerMinute : Z := 60000.
Definition msPerHour : Z := 3600000.
Definition msPerDay : Z := 86400000.

Definition TimeClip (t : Z) : Date :=
  if Z.abs t <=? 8640000000000000 then ValidDate t else InvalidDate.

(** Day number of a civil date, month in 1..12. *)
Definition daysFromCivil (y m d : Z) : Z :=
  let y' := if m <=? 2 then y - 1 else y in
  let era := y' / 400 in
  let yoe := y' - era * 400 in
  let mp := (m + 9) mod 12 in
  let doy := (153 * mp + 2) / 5 + d - 1 in
  let doe := yoe * 365 + yoe / 4 - yoe / 100 + doy in
  era * 146097 + doe - 719468.

(** [MakeDay(year, month, date)], month counted from 0 and carried into the
    year when out of 0..11. *)
Definition MakeDay (year month date : Z) : Z :=
  let ym := year + month / 12 in
  let mn := month mod 12 in
  daysFromCivil ym (mn + 1) 1 + date - 1.

(** What the program takes from the JavaScript runtime: the
    implementation-defined [Date.parse] behind [new Date(string)], and the
    offset of local time. *)
Record Runtime : Type := mkRuntime {
  Date_parse : string -> Date;
  LocalTZA : Z
}.

(** [new Date(year, month, date)]: local midnight of that day.  A year
    from 0 to 99 counts from 1900. *)
Definition newDateYMD (rt : Runtime) (year month date : Z) : Date :=
  let yr := if (0 <=? year) && (year <=? 99) then 1900 + year else year in
  TimeClip (MakeDay yr month date * msPerDay - LocalTZA rt).

(** [a < b] and [a >= b] on a date and a time value; both are false on NaN. *)
Definition dateLt (d : Date) (t : Z) : bool :=
  match d with ValidDate x => x <? t | InvalidDate => false end.

Definition dateGe (d : Date) (t : Z) : bool :=
  match d with ValidDate x => t <=? x | InvalidDate => false end.

(** [cleanStr.match(/(\d+)\s*word/)], group 1 read by [parseInt]. *)
Definition numberBefore (word : string) (s : string) : option Z :=
  match search (digits1 >> spaces0 >> lit word) s with
  | Some (from, _) => Some (JS.parseInt from)
  | None => None
  end.

(** [cleanStr.match(/hace\s*(\d+)\s*unit/)], group 1 read by [parseInt]. *)
Definition haceNumber (unit : string) (s : string) : option Z :=
  match search (lit "hace" >> spaces0 >> digits1 >> spaces0 >> lit unit) s with
  | Some (from, _) => Some (JS.parseInt (JS.dropWhile JS.isSpace (JS.skip 4 from)))
  | None => None
  end.

(** [dateStr.match(/(\d{1,2})\/(\d{1,2})\/(\d{4})/)]: day, month, year. *)
Definition ddmmyyyyMatch (s : string) : option (Z * Z * Z) :=
  match search (digits12Slash >> digits12Slash >> digitsN 4) s with
  | Some (from, _) =>
      let afterDay := JS.skip 1 (JS.dropWhile JS.isDigit from) in
      let afterMonth := JS.skip 1 (JS.dropWhile JS.isDigit afterDay) in
      Some (JS.parseInt from, JS.parseInt afterDay, JS.parseInt (JS.take 4 afterMonth))
  | None => None
  end.

Definition orZero (o : option Z) : Z := match o with Some n => n | None => 0 end.

(** Rule (a): the days of a relative duration, when the string names a
    unit and the sum is positive. *)
Definition relativeDays (cleanStr : string) : option Z :=
  if JS.includes "año" cleanStr || JS.includes "día" cleanStr || JS.includes "mes" cleanStr
  then
    let totalDays :=
      orZero (numberBefore "año" cleanStr) * 365 +
      orZero (numberBefore "mes" cleanStr) * 30 +
      orZero (numberBefore "día" cleanStr) in
    if 0 <? totalDays then Some totalDays else None
  else None.

(** Rule (b): the milliseconds of "hace N horas" or "hace N minutos". *)
Definition haceMillis (cleanStr : string) : option Z :=
  if JS.includes "hace" cleanStr
  then
    match haceNumber "hora" cleanStr with
    | Some h => Some (h * msPerHour)
    | None =>
        match haceNumber "minuto" cleanStr with
        | Some m => Some (m * msPerMinute)
        | None => None
        end
    end
  else None.

(** [parseDate(dateStr)] at the instant [now]; [None] is [null].
    [setDate], [setHours] and [setMinutes] act on local time, which is at
    the fixed offset of the runtime: they move the time value by whole
    days, hours and minutes.  [cleanStr] is the code's for the strings
    whose characters are below U+0100 and whose white space is that of the
    ASCII range. *)
Definition parseDate (rt : Runtime) (now : Z) (dateStr : jsval) : option Date :=
  if negb (JS.truthy dateStr) then None
  else
    let str := JS.orEmpty dateStr in
    let cleanStr := JS.toLowerCase (JS.trim str) in
    match relativeDays cleanStr with
    | Some totalDays => Some (TimeClip (now - totalDays * msPerDay))
    | None =>
        match haceMillis cleanStr with
        | Some ms => Some (TimeClip (now - ms))
        | None =>
            match Date_parse rt str with
            | ValidDate t => Some (ValidDate t)
            | InvalidDate =>
                match ddmmyyyyMatch str with
                | Some (d, m, y) => Some (newDateYMD rt y (m - 1) d)
                | None => None
                end
            end
        end
    end.

(** A runtime for the examples, in the time zone of Buenos Aires, which
    keeps one offset from UTC.  Its [Date.parse] is an example and not the
    parser of Node: it reads [M/D/YYYY] and [M/D/YYYY H:MM] month first,
    with a month from 1 to 12, a day from 1 to 31, an hour up to 23 and a
    minute up to 59, and rejects every other string, also those that Node
    reads (ISO dates, an hour 24:00, names of months).  The examples apply
    it to time stamps of the table, [DD/MM/YYYY HH:MM] with a year of our
    days, and to "sin fecha". *)
Definition monthFirstParse (tza : Z) (s : string) : Date :=
  match (digits12Slash >> digits12Slash >> digitsN 4) s with
  | None => InvalidDate
  | Some rest =>
      let afterMonth := JS.skip 1 (JS.dropWhile JS.isDigit s) in
      let afterDay := JS.skip 1 (JS.dropWhile JS.isDigit afterMonth) in
      let month := JS.parseInt s in
      let day := JS.parseInt afterMonth in
      let year := JS.parseInt (JS.take 4 afterDay) in
      let time :=
        match rest with
        | EmptyString => Some 0
        | _ =>
            match (spaces1 >> digits1 >> chr ":" >> digitsN 2) rest with
            | Some EmptyString =>
                let hm := JS.dropWhile JS.isSpace rest in
                let h := JS.parseInt hm in
                let mi := JS.parseInt (JS.skip 1 (JS.dropWhile JS.isDigit hm)) in
                if (h <=? 23) && (mi <=? 59) then Some (h * msPerHour + mi * msPerMinute) else None
            | _ => None
            end
        end in
      match time with
      | Some ms =>
          if (1 <=? month) && (month <=? 12) && (1 <=? day) && (day <=? 31)
          then TimeClip (MakeDay year (month - 1) day * msPerDay + ms - tza)
          else InvalidDate
      | None => InvalidDate
      end
  end.

Definition buenosAires : Runtime :=
  {| Date_parse := monthFirstParse (-10800000); LocalTZA := -10800000 |}.

(** ** Structured leads and the deduplication store *)

Module Contact.
Record t : Type := mk { name : jsval; email : jsval; phone : jsval; cellPhone : jsval }.
End Contact.

Module Agent.
Record t : Type := mk { name : jsval }.
End Agent.

Module Property.
Record t : Type := mk { id : jsval; address : jsval }.
End Property.

(** The object stored per lead; [scrapedAt] is the instant whose ISO string
    the source stores. *)
Record StructuredLead : Type := mkStructuredLead {
  contact : Contact.t;
  agent : Agent.t;
  property : Property.t;
  leadLastUpdated : jsval;
  scrapedAt : Z
}.

(** A JavaScript [Map] from strings: entries in insertion order, [set] on a
    present key replaces the value in place. *)
Module JsMap.

Definition t (V : Type) : Type := list (string * V).

Definition empty {V} : t V := [].

Fixpoint has {V} (key : string) (m : t V) : bool :=
  match m with
  | [] => false
  | (k, _) :: rest => String.eqb k key || has key rest
  end.

Fixpoint get {V} (key : string) (m : t V) : option V :=
  match m with
  | [] => None
  | (k, v) :: rest => if String.eqb k key then Some v else get key rest
  end.

Fixpoint set {V} (key : string) (v : V) (m : t V) : t V :=
  match m with
  | [] => [(key, v)]
  | (k, v0) :: rest =>
      if String.eqb k key then (k, v) :: rest else (k, v0) :: set key v rest
  end.

Definition size {V} (m : t V) : Z := Z.of_nat (List.length m).

Definition values {V} (m : t V) : list V := List.map snd m.

Definition keys {V} (m : t V) : list string := List.map fst m.

End JsMap.

Definition Store : Type := JsMap.t StructuredLead.

(** ** Errors *)

Inductive Error : Type :=
| SessionClosedError (message : string)
| OtherError (message : string).

Definition errorMessage (e : Error) : string :=
  match e with
  | SessionClosedError m => m
  | OtherError m => m
  end.

Definition sessionClosedMessage : string :=
  "Sesión cerrada inesperadamente. Otro usuario se conectó con las mismas credenciales.".

Inductive Result (A : Type) : Type :=
| Ok (a : A)
| Throw (e : Error).

Arguments Ok {A} a.
Arguments Throw {A} e.

(** ** The browser

    Every awaited call reads or advances an abstract world [W].  A field
    whose result is a [Result] is a call, or the body of a [try] block, that
    may throw; the others cannot fail or have their failure ignored where
    they are called. *)

Record ScrollResult : Type := mkScrollResult {
  previousScroll : Z;
  newScroll : Z;
  maxScroll : Z
}.

Record ContactInfo : Type := mkContactInfo {
  ciEmail : jsval;
  ciPhone : jsval;
  ciCellPhone : jsval
}.

(** What the link of a property gives: it is not visible, or it is clicked,
    with the identifier and the agent read from the text of the modal, both
    [Null] when no modal opens or when its text has neither. *)
Inductive PropertyObs : Type :=
| LinkHidden
| Modal (propertyId propertyAgent : jsval).

Record Browser (W : Type) : Type := mkBrowser {
  clock : W -> Z;
  url : W -> string;
  waitForLoadState : W -> W;
  waitForSelector : W -> W;
  branchFilterSteps : W -> Result unit * W;
  toggleSteps : W -> Result unit * W;
  dateFilterSteps : W -> Result unit * W;
  scrollToTop : W -> Result unit * W;
  rowTexts : W -> Result (list jsval) * W;
  llmLeads : W -> Result (list RawLead) * W;
  propertyModal : string -> W -> Result PropertyObs * W;
  contactPopover : string -> W -> Result ContactInfo * W;
  scrollDown : W -> Result ScrollResult * W;
  initSelector : W -> Result unit * W;
  launch : W -> Result unit * W;
  login : W -> Result unit * W;
  gotoLeads : W -> Result unit * W;
  cookies : W -> Result unit * W;
  closeBrowser : W -> Result unit * W
}.

Arguments clock {W}.
Arguments url {W}.
Arguments waitForLoadState {W}.
Arguments waitForSelector {W}.
Arguments branchFilterSteps {W}.
Arguments toggleSteps {W}.
Arguments dateFilterSteps {W}.
Arguments scrollToTop {W}.
Arguments rowTexts {W}.
Arguments llmLeads {W}.
Arguments propertyModal {W}.
Arguments contactPopover {W}.
Arguments scrollDown {W}.
Arguments initSelector {W}.
Arguments launch {W}.
Arguments login {W}.
Arguments gotoLeads {W}.
Arguments cookies {W}.
Arguments closeBrowser {W}.

(** ** The monad of awaited code: a world in, a value or an exception and a
    world out. *)

Definition M (W A : Type) : Type := W -> Result A * W.

Definition ret {W A} (a : A) : M W A := fun w => (Ok a, w).

Definition throw {W A} (e : Error) : M W A := fun w => (Throw e, w).

Definition bind {W A B} (m : M W A) (k : A -> M W B) : M W B :=
  fun w =>
    match m w with
    | (Ok a, w') => k a w'
    | (Throw e, w') => (Throw e, w')
    end.

Notation "x <- c1 ;; c2" := (bind c1 (fun x => c2))
  (at level 61, c1 at next level, right associativity).

Notation "c1 ;;; c2" := (bind c1 (fun _ => c2))
  (at level 61, right associativity).

(** [try { body } catch (e) { handler e }] *)
Definition tryCatch {W A} (body : M W A) (handler : Error -> M W A) : M W A :=
  fun w =>
    match body w with
    | (Ok a, w') => (Ok a, w')
    | (Throw e, w') => handler e w'
    end.

(** The handler found in every [catch] of leads.js: a session error is
    thrown again, any other error is replaced by [fallback]. *)
Definition rethrowSession {W A} (fallback : M W A) (e : Error) : M W A :=
  match e with
  | SessionClosedError _ => throw e
  | OtherError _ => fallback
  end.

(** An awaited call that cannot fail. *)
Definition step {W} (f : W -> W) : M W unit := fun w => (Ok tt, f w).

(** A read of the world. *)
Definition ask {W A} (f : W -> A) : M W A := fun w => (Ok (f w), w).

(** ** The collection engine, leads.js *)

Definition LEAD_STATUS_ALL : string := "all".

(** [STATUS_SECTION_HEADERS] *)
Definition STATUS_SECTION_HEADERS : list (string * string) :=
  [ ("para_reasignacion", "Para reasignacion");
    ("sin_seguimiento", "Sin Seguimiento");
    ("pendiente_contactar", "Pendiente contactar");
    ("esperando_respuesta", "Esperando respuesta");
    ("evolucionando", "Evolucionando");
    ("tomar_accion", "Tomar Accion");
    ("congelado", "Congelado") ].

(** [/\(\d+\)/] *)
Definition countRe : matcher := chr "(" >> digits1 >> chr ")".

(** [isSectionHeader] of [scrapeVisibleLeads] *)
Definition isSectionHeader (text : string) : bool :=
  existsb (fun h => JS.includes (snd h) text && test countRe text) STATUS_SECTION_HEADERS.

(** [targetStatus ? STATUS_SECTION_HEADERS[targetStatus] : null], [None]
    when falsy. *)
Definition targetSectionHeader (targetStatus : string) : option string :=
  match JsMap.get targetStatus STATUS_SECTION_HEADERS with
  | Some h => Some h
  | None => None
  end.

(** The row loop of [scrapeVisibleLeads].  A row whose text is not a string
    makes [text.includes] throw, which the loop catches to go on with the
    next row. *)
Fixpoint classifyRows (targetStatus : string) (inTargetSection : bool)
    (rows : list jsval) : list RawLead :=
  match rows with
  | [] => []
  | Str text :: rest =>
      if isSectionHeader text then
        match targetSectionHeader targetStatus with
        | Some header =>
            if JS.includes header text then classifyRows targetStatus true rest
            else if inTargetSection && negb (String.eqb targetStatus "all") then []
            else classifyRows targetStatus inTargetSection rest
        | None => classifyRows targetStatus inTargetSection rest
        end
      else if negb inTargetSection then classifyRows targetStatus inTargetSection rest
      else
        match parseLeadFromText (Str text) with
        | Some lead =>
            if JS.truthy (contactName lead)
            then lead :: classifyRows targetStatus inTargetSection rest
            else classifyRows targetStatus inTargetSection rest
        | None => classifyRows targetStatus inTargetSection rest
        end
  | _ :: rest => classifyRows targetStatus inTargetSection rest
  end.

(** [address.replace(/\s*\+\s*$/, '')]: a plus sign that ends the text, up
    to white space, goes with the white space around it. *)
Definition dropTrailingPlus (s : string) : string :=
  match JS.dropWhile JS.isSpace (JS.reverse s) with
  | String "+" before => JS.reverse (JS.dropWhile JS.isSpace before)
  | _ => s
  end.

(** The text by which [extractPropertyDetails] looks the link up: the
    address without a trailing plus sign, trimmed; none when that is empty
    or a bare plus sign. *)
Definition linkText (lead : RawLead) : option string :=
  match propertyAddress lead with
  | Str address =>
      let text := JS.trim (dropTrailingPlus address) in
      if JS.isEmpty text || String.eqb text "+" then None else Some text
  | _ => None
  end.

(** The structured lead of the main pass. *)
Definition structureLead (lead : RawLead) (propertyId propertyAgent : jsval)
    (contactInfo : ContactInfo) (now : Z) : StructuredLead :=
  {| contact := {| Contact.name := JS.or (contactName lead) Null;
                   Contact.email := ciEmail contactInfo;
                   Contact.phone := ciPhone contactInfo;
                   Contact.cellPhone := ciCellPhone contactInfo |};
     agent := {| Agent.name := JS.or propertyAgent (JS.or (_agentName lead) Null) |};
     property := {| Property.id := propertyId;
                    Property.address := JS.or (propertyAddress lead) Null |};
     leadLastUpdated := JS.or (lastUpdated lead) Null;
     scrapedAt := now |}.

(** The structured lead of the pass at the end of the scroll. *)
Definition structureFinalLead (lead : RawLead) (now : Z) : StructuredLead :=
  {| contact := {| Contact.name := JS.or (contactName lead) Null;
                   Contact.email := Null;
                   Contact.phone := Null;
                   Contact.cellPhone := Null |};
     agent := {| Agent.name := JS.or (_agentName lead) Null |};
     property := {| Property.id := Null;
                    Property.address := JS.or (propertyAddress lead) Null |};
     leadLastUpdated := JS.or (lastUpdated lead) Null;
     scrapedAt := now |}.

Definition noContactInfo : ContactInfo :=
  {| ciEmail := Null; ciPhone := Null; ciCellPhone := Null |}.

(** [lead.vigencia || lead.lastUpdated] *)
Definition leadDateStr (lead : RawLead) : jsval := JS.or (vigencia lead) (lastUpdated lead).

(** [leadDate && leadDate < targetDate] *)
Definition olderThan (leadDate : option Date) (targetDate : Z) : bool :=
  match leadDate with
  | Some d => dateLt d targetDate
  | None => false
  end.

(** [!leadDate || leadDate >= targetDate] *)
Definition undatedOrRecent (leadDate : option Date) (targetDate : Z) : bool :=
  match leadDate with
  | Some d => dateGe d targetDate
  | None => true
  end.

Record Pending : Type := mkPending {
  pLead : RawLead;
  pKey : string;
  pLeadDate : option Date
}.

(** The first loop over [visibleLeads]: the leads to process and
    [reachedTargetDate].  The store is not written here, so that [has] sees
    the leads of earlier passes only. *)
Fixpoint filterByDate (rt : Runtime) (now targetDate : Z) (allLeads : Store)
    (visibleLeads : list RawLead) : list Pending * bool :=
  match visibleLeads with
  | [] => ([], false)
  | lead :: rest =>
      let key := getLeadKey lead in
      if JsMap.has key allLeads then filterByDate rt now targetDate allLeads rest
      else
        let leadDate := parseDate rt now (leadDateStr lead) in
        if olderThan leadDate targetDate then ([], true)
        else
          let (more, reached) := filterByDate rt now targetDate allLeads rest in
          ({| pLead := lead; pKey := key; pLeadDate := leadDate |} :: more, reached)
  end.

(** The entry that the first loop queues for [lead]. *)
Definition pendingOf (rt : Runtime) (now : Z) (lead : RawLead) : Pending :=
  {| pLead := lead;
     pKey := getLeadKey lead;
     pLeadDate := parseDate rt now (leadDateStr lead) |}.

(** The loop over [finalLeads] at the end of the scroll. *)
Fixpoint finalRescan (rt : Runtime) (now targetDate : Z) (allLeads : Store)
    (finalLeads : list RawLead) : Store :=
  match finalLeads with
  | [] => allLeads
  | lead :: rest =>
      let key := getLeadKey lead in
      if negb (JsMap.has key allLeads) &&
         undatedOrRecent (parseDate rt now (leadDateStr lead)) targetDate
      then finalRescan rt now targetDate
             (JsMap.set key (structureFinalLead lead now) allLeads) rest
      else finalRescan rt now targetDate allLeads rest
  end.

(** [scrollResult.newScroll >= scrollResult.maxScroll * 0.99], on integer
    offsets and with the exact product. *)
Definition reachedEnd (r : ScrollResult) : bool :=
  99 * maxScroll r <=? 100 * newScroll r.

(** The options of [scrapeLeadsUntilDate], defaults applied. *)
Record Options : Type := mkOptions {
  optStatus : string;
  maxScrolls : Z;
  maxLeads : Z;
  extractDetails : bool
}.

Record LoopState : Type := mkLoopState {
  allLeads : Store;
  scrollCount : Z;
  noNewLeadsCount : Z;
  reachedTargetDate : bool
}.

(** The condition of the [while]. *)
Definition loopGuard (o : Options) (st : LoopState) : bool :=
  (scrollCount st <? maxScrolls o) &&
  (JsMap.size (allLeads st) <? maxLeads o) &&
  (noNewLeadsCount st <? 5) &&
  negb (reachedTargetDate st).

(** How one run of the loop body ends. *)
Inductive Pass : Type :=
| Continue (st : LoopState)
| Break (st : LoopState).

(** The state a pass ends in. *)
Definition passState (r : Pass) : LoopState :=
  match r with Continue st => st | Break st => st end.

Section Engine.

Variable W : Type.
Variable rt : Runtime.
Variable br : Browser W.

Local Abbreviation Act := (M W).

(** [checkSessionActive] *)
Definition checkSessionActive : Act unit :=
  fun w =>
    if JS.includes "/not_connected" (url br w)
    then (Throw (SessionClosedError sessionClosedMessage), w)
    else (Ok tt, w).

(** [waitForNetworkIdle]: the wait cannot throw a session error and its
    other errors are ignored; the session is checked after it. *)
Definition waitForNetworkIdle : Act unit :=
  step (waitForLoadState br) ;;; checkSessionActive.

(** [navigateToLeads]: its [catch] throws every error again. *)
Definition navigateToLeads : Act unit :=
  tryCatch
    (gotoLeads br ;;; checkSessionActive ;;; waitForNetworkIdle ;;; checkSessionActive)
    (fun e => throw e).

(** [enableReassignmentStatesToggle] *)
Definition enableReassignmentStatesToggle : Act unit :=
  tryCatch (waitForNetworkIdle ;;; toggleSteps br) (rethrowSession (ret tt)).

(** [applyAllBranchesFilter] *)
Definition applyAllBranchesFilter : Act unit :=
  tryCatch
    (step (waitForLoadState br) ;;; waitForNetworkIdle ;;; branchFilterSteps br)
    (rethrowSession (ret tt)).

(** [applyDateFilter]: [startDate.toISOString()] is evaluated before the
    [try] and throws a RangeError on an invalid date. *)
Definition applyDateFilter (startDate : Date) : Act unit :=
  match startDate with
  | InvalidDate => throw (OtherError "Invalid time value")
  | ValidDate _ => tryCatch (dateFilterSteps br) (rethrowSession (ret tt))
  end.

(** [scrapeVisibleLeads] *)
Definition scrapeVisibleLeads (targetStatus : string) : Act (list RawLead) :=
  tryCatch
    (checkSessionActive ;;;
     step (waitForSelector br) ;;;
     checkSessionActive ;;;
     allRows <- rowTexts br ;;
     let inTargetSection :=
       String.eqb targetStatus "all" || JS.isEmpty targetStatus in
     let leads := classifyRows targetStatus inTargetSection allRows in
     match leads with
     | [] =>
         llm <- llmLeads br ;;
         match llm with
         | [] => ret leads
         | _ :: _ => ret llm
         end
     | _ :: _ => ret leads
     end)
    (rethrowSession (ret [])).

(** [extractPropertyDetails]: the link is looked up by the text of the
    address; without a usable address the page is not touched. *)
Definition extractPropertyDetails (lead : RawLead) : Act RawLead :=
  tryCatch
    (checkSessionActive ;;;
     match linkText lead with
     | None => ret lead
     | Some address =>
         obs <- propertyModal br address ;;
         match obs with
         | LinkHidden => ret lead
         | Modal pid pagent =>
             ret {| contactName := contactName lead;
                    propertyAddress := propertyAddress lead;
                    lastUpdated := lastUpdated lead;
                    status := status lead;
                    _agentName := _agentName lead;
                    propertyName := propertyName lead;
                    vigencia := vigencia lead;
                    propertyId := pid;
                    propertyAgent := JS.or pagent (_agentName lead) |}
         end
     end)
    (rethrowSession (ret lead)).

(** [extractContactDetails]: the contact is looked up by its trimmed name;
    the popover gives [null]s when the element is not visible. *)
Definition extractContactDetails (lead : RawLead) : Act ContactInfo :=
  tryCatch
    (checkSessionActive ;;;
     let name := JS.trim (JS.orEmpty (contactName lead)) in
     if JS.isEmpty name then ret noContactInfo else contactPopover br name)
    (rethrowSession (ret noContactInfo)).

(** [scrollContainer] *)
Definition scrollContainer : Act ScrollResult :=
  checkSessionActive ;;;
  scrolled <- scrollDown br ;;
  waitForNetworkIdle ;;;
  checkSessionActive ;;;
  ret scrolled.

(** The second loop of a pass: details, structure, [allLeads.set]. *)
Fixpoint processLeads (o : Options) (leadsToProcess : list Pending)
    (store : Store) : Act Store :=
  match leadsToProcess with
  | [] => ret store
  | p :: rest =>
      if maxLeads o <=? JsMap.size store then ret store
      else
        details <-
          (if extractDetails o
           then
             leadWithProperty <- extractPropertyDetails (pLead p) ;;
             contactInfo <- extractContactDetails (pLead p) ;;
             ret (propertyId leadWithProperty, propertyAgent leadWithProperty, contactInfo)
           else ret (Null, Null, noContactInfo)) ;;
        now <- ask (clock br) ;;
        let '(pid, pagent, contactInfo) := details in
        processLeads o rest
          (JsMap.set (pKey p) (structureLead (pLead p) pid pagent contactInfo now) store)
  end.

(** The first half of the body of the [while]: scan, filter by date,
    process.  It yields the store and [reachedTargetDate]. *)
Definition scanPass (o : Options) (targetDate : Z) (st : LoopState)
    : Act (Store * bool) :=
  visibleLeads <- scrapeVisibleLeads (optStatus o) ;;
  now <- ask (clock br) ;;
  let (leadsToProcess, reached) :=
    filterByDate rt now targetDate (allLeads st) visibleLeads in
  store <- processLeads o leadsToProcess (allLeads st) ;;
  ret (store, reached).

(** The second half, run when the cutoff was not reached: count the
    stall, scroll, and rescan once at the end of the scroll. *)
Definition scrollPass (o : Options) (targetDate : Z) (st : LoopState)
    (store : Store) : Act Pass :=
  let previousCount := JsMap.size (allLeads st) in
  let newLeadsFound := JsMap.size store - previousCount in
  let stalls := if newLeadsFound =? 0 then noNewLeadsCount st + 1 else 0 in
  let scrolls := scrollCount st + 1 in
  scrollResult <- scrollContainer ;;
  if reachedEnd scrollResult then
    waitForNetworkIdle ;;;
    finalLeads <- scrapeVisibleLeads (optStatus o) ;;
    now <- ask (clock br) ;;
    ret (Break {| allLeads := finalRescan rt now targetDate store finalLeads;
                  scrollCount := scrolls;
                  noNewLeadsCount := stalls;
                  reachedTargetDate := false |})
  else
    ret (Continue {| allLeads := store;
                     scrollCount := scrolls;
                     noNewLeadsCount := stalls;
                     reachedTargetDate := false |}).

(** The body of the [while]. *)
Definition pass (o : Options) (targetDate : Z) (st : LoopState) : Act Pass :=
  checkSessionActive ;;;
  scanned <- scanPass o targetDate st ;;
  let (store, reached) := scanned in
  if reached then
    ret (Break {| allLeads := store;
                  scrollCount := scrollCount st;
                  noNewLeadsCount := noNewLeadsCount st;
                  reachedTargetDate := true |})
  else scrollPass o targetDate st store.

(** The [while] loop.  [None] is returned when [fuel] passes did not end
    it. *)
Fixpoint collect (fuel : nat) (o : Options) (targetDate : Z) (st : LoopState)
    : Act (option LoopState) :=
  if loopGuard o st then
    match fuel with
    | O => ret None
    | S fuel' =>
        r <- pass o targetDate st ;;
        match r with
        | Break st' => ret (Some st')
        | Continue st' => collect fuel' o targetDate st'
        end
    end
  else ret (Some st).

Definition initialState : LoopState :=
  {| allLeads := JsMap.empty;
     scrollCount := 0;
     noNewLeadsCount := 0;
     reachedTargetDate := false |}.

(** [scrapeLeadsUntilDate].  [targetDate.toISOString()] in the first log
    call throws a RangeError on an invalid date; [filterByStatus] only
    logs.  The loop is given [maxScrolls] passes of fuel. *)
Definition scrapeLeadsUntilDate (targetDate : Date) (o : Options)
    : Act (option (list StructuredLead)) :=
  match targetDate with
  | InvalidDate => throw (OtherError "Invalid time value")
  | ValidDate target =>
      applyAllBranchesFilter ;;;
      (if String.eqb (optStatus o) "para_reasignacion" ||
          String.eqb (optStatus o) "sin_seguimiento"
       then enableReassignmentStatesToggle
       else ret tt) ;;;
      waitForNetworkIdle ;;;
      scrollToTop br ;;;
      waitForNetworkIdle ;;;
      final <- collect (Z.to_nat (maxScrolls o)) o target initialState ;;
      ret (option_map (fun st => JsMap.values (allLeads st)) final)
  end.

End Engine.

(** ** The orchestrator, scraper/index.js *)

Record ScrapeOptions : Type := mkScrapeOptions {
  soTargetDate : Date;
  soStartDate : option Date;
  soMaxLeads : Z;
  soExtractDetails : bool;
  soStatus : string
}.

Record Metadata : Type := mkMetadata {
  mdScrapedAt : Z;
  mdTargetDate : Z;
  totalLeads : Z
}.

(** The object [scrapeLeads] resolves to.  [isSessionClosed] is the property
    the route reads from it; neither [return] of [scrapeLeads] sets it, so
    that it reads as [Undefined]. *)
Record ScrapeResult : Type := mkScrapeResult {
  success : bool;
  leads : list StructuredLead;
  metadata : option Metadata;
  error : option string;
  isSessionClosed : jsval
}.

(** The [return] of the [try] block. *)
Definition successResult (found : list StructuredLead) (now target : Z) : ScrapeResult :=
  {| success := true;
     leads := found;
     metadata := Some {| mdScrapedAt := now;
                         mdTargetDate := target;
                         totalLeads := Z.of_nat (List.length found) |};
     error := None;
     isSessionClosed := Undefined |}.

(** The [return] of the [catch] block. *)
Definition failureResult (e : Error) : ScrapeResult :=
  {| success := false;
     leads := [];
     metadata := None;
     error := Some (errorMessage e);
     isSessionClosed := Undefined |}.

Section Orchestrator.

Variable W : Type.
Variable rt : Runtime.
Variable br : Browser W.

(** The part of the [try] block up to [createBrowser]: while it runs,
    [browser] is still [null]. *)
Definition startBrowser (opts : ScrapeOptions) : M W unit :=
  match soTargetDate opts with
  | InvalidDate => throw (OtherError "Invalid time value")
  | ValidDate _ => initSelector br ;;; launch br
  end.

(** The rest of the [try] block. *)
Definition scrapeSession (opts : ScrapeOptions)
    : M W (option (list StructuredLead * Z)) :=
  login br ;;;
  navigateToLeads W br ;;;
  match soStartDate opts with
  | Some startDate => applyDateFilter W br startDate
  | None => ret tt
  end ;;;
  found <- scrapeLeadsUntilDate W rt br (soTargetDate opts)
             {| optStatus := soStatus opts;
                maxScrolls := 200;
                maxLeads := soMaxLeads opts;
                extractDetails := soExtractDetails opts |} ;;
  cookies br ;;;
  now <- ask (clock br) ;;
  ret (option_map (fun l => (l, now)) found).

Definition targetTime (opts : ScrapeOptions) : Z :=
  match soTargetDate opts with ValidDate t => t | InvalidDate => 0 end.

(** What the [try] and the [catch] of [scrapeLeads] return once the
    browser exists.  [None] stands for a collection loop that ran out of
    fuel. *)
Definition sessionResult (opts : ScrapeOptions) (w : W) : option ScrapeResult * W :=
  match scrapeSession opts w with
  | (Ok (Some (found, now)), w') => (Some (successResult found now (targetTime opts)), w')
  | (Ok None, w') => (None, w')
  | (Throw e, w') => (Some (failureResult e), w')
  end.

(** [scrapeLeads]: [try], [catch], and the [finally] that closes the
    browser once it exists.  The [finally] is outside the [catch]: when
    [browser.close()] throws, its error replaces the value that was about
    to be returned and the promise rejects, [Throw].  The options are an
    object. *)
Definition scrapeLeads (opts : ScrapeOptions) : M W (option ScrapeResult) :=
  fun w =>
    match startBrowser opts w with
    | (Throw e, w1) => (Ok (Some (failureResult e)), w1)
    | (Ok _, w1) =>
        let (result, w2) := sessionResult opts w1 in
        match closeBrowser br w2 with
        | (Ok _, w3) => (Ok result, w3)
        | (Throw e, w3) => (Throw e, w3)
        end
    end.

End Orchestrator.

(** ** The route, api/routes/leads.js *)

Record Response : Type := mkResponse {
  httpStatus : Z;
  resSuccess : bool;
  resData : option (list StructuredLead * option Metadata);
  resError : option string;
  resCode : option string
}.

(** What [POST /scrape] answers once [scrapeLeads] has resolved. *)
Definition respond (result : ScrapeResult) : Response :=
  if success result then
    {| httpStatus := 200;
       resSuccess := true;
       resData := Some (leads result, metadata result);
       resError := None;
       resCode := None |}
  else if JS.truthy (isSessionClosed result) then
    {| httpStatus := 500;
       resSuccess := false;
       resData := None;
       resError := Some "Sesión cerrada inesperadamente. Otro usuario se conectó con las mismas credenciales. Por favor, intente de nuevo.";
       resCode := Some "SESSION_CLOSED" |}
  else
    {| httpStatus := 500;
       resSuccess := false;
       resData := None;
       resError := error result;
       resCode := None |}.

(** ** A scripted browser for the examples

    The world is the number of scrolls done so far.  The rows shown, the
    address bar and the clock depend on it; the modal and the popover
    depend on the lead. *)

Record Script : Type := mkScript {
  scUrl : nat -> string;
  scRows : nat -> list jsval;
  scScroll : nat -> ScrollResult;
  scModal : string -> PropertyObs;
  scPopover : string -> ContactInfo;
  scClock : nat -> Z
}.

Definition scripted (s : Script) : Browser nat :=
  {| clock := scClock s;
     url := scUrl s;
     waitForLoadState := fun n => n;
     waitForSelector := fun n => n;
     branchFilterSteps := fun n => (Ok tt, n);
     toggleSteps := fun n => (Ok tt, n);
     dateFilterSteps := fun n => (Ok tt, n);
     scrollToTop := fun n => (Ok tt, n);
     rowTexts := fun n => (Ok (scRows s n), n);
     llmLeads := fun n => (Ok [], n);
     propertyModal := fun address n => (Ok (scModal s address), n);
     contactPopover := fun name n => (Ok (scPopover s name), n);
     scrollDown := fun n => (Ok (scScroll s n), S n);
     initSelector := fun n => (Ok tt, n);
     launch := fun n => (Ok tt, n);
     login := fun n => (Ok tt, n);
     gotoLeads := fun n => (Ok tt, n);
     cookies := fun n => (Ok tt, n);
     closeBrowser := fun n => (Ok tt, n) |}.

Definition leadsUrl : string := "https://www.tokkobroker.com/leads/".

(** A scroll that moved but is not at the end, and one that is. *)
Definition midScroll : ScrollResult :=
  {| previousScroll := 0; newScroll := 500; maxScroll := 2000 |}.

Definition endScroll : ScrollResult :=
  {| previousScroll := 500; newScroll := 2000; maxScroll := 2000 |}.

(** 2025-12-01T12:00:00Z *)
Definition demoNow : Z := 1764590400000.

(** 2024-01-01T00:00:00Z *)
Definition demoTarget : Z := 1704067200000.

(** The scenario of section 8 of the specification (names in ASCII). *)
Definition scenarioRows : list jsval :=
  [ Str "Pendiente contactar (2)";
    Str "Juan Perez (Ana Gomez) Colombres 148 2 26/11/2025 08:15";
    Str "Maria Paz (Ana Gomez) Lavalle 300 01/01/2020 09:00";
    Str "Pedro Luna (Ana Gomez) Cabildo 10 01/01/2019 09:00" ].

Definition scenario : Script :=
  {| scUrl := fun _ => leadsUrl;
     scRows := fun _ => scenarioRows;
     scScroll := fun _ => midScroll;
     scModal := fun _ => LinkHidden;
     scPopover := fun _ => noContactInfo;
     scClock := fun _ => demoNow |}.

(** The leads of the scenario, as the scan of the section returns them. *)
Definition scenarioLeads : list RawLead :=
  classifyRows "pendiente_contactar" false scenarioRows.

Definition scenarioOptions : Options :=
  {| optStatus := "pendiente_contactar"; maxScrolls := 200; maxLeads := 10000;
     extractDetails := false |}.


(** The rows of a feed that exceeds [maxLeads]: two leads on screen, a
    single scroll that reaches the end. *)
Definition twoLeadRows : list jsval :=
  [ Str "Juan Perez (Ana Gomez) Colombres 148 2 26/11/2025 08:15";
    Str "Maria Paz (Ana Gomez) Lavalle 300 25/11/2025 09:00" ].

Definition shortFeed : Script :=
  {| scUrl := fun _ => leadsUrl;
     scRows := fun _ => twoLeadRows;
     scScroll := fun _ => endScroll;
     scModal := fun _ => LinkHidden;
     scPopover := fun _ => noContactInfo;
     scClock := fun _ => demoNow |}.

Definition oneLeadOptions : Options :=
  {| optStatus := "all"; maxScrolls := 200; maxLeads := 1; extractDetails := false |}.

(** A feed whose end-of-scroll rescan shows an older lead followed by a
    recent one. *)
Definition lateRows : list jsval :=
  [ Str "Juan Perez (Ana Gomez) Colombres 148 2 26/11/2025 08:15";
    Str "Maria Paz (Ana Gomez) Lavalle 300 01/01/2020 09:00";
    Str "Pedro Luna (Ana Gomez) Cabildo 10 20/11/2025 09:00" ].

Definition lateFeed : Script :=
  {| scUrl := fun _ => leadsUrl;
     scRows := fun n => match n with O => firstn 1 lateRows | S _ => lateRows end;
     scScroll := fun _ => endScroll;
     scModal := fun _ => LinkHidden;
     scPopover := fun _ => noContactInfo;
     scClock := fun _ => demoNow |}.

Definition allOptions : Options :=
  {| optStatus := "all"; maxScrolls := 200; maxLeads := 10000; extractDetails := false |}.

(** One contact asking for two properties, both rows on screen in the same
    pass; only the first property has a listing behind its link, the link
    of the second opens no modal. *)
Definition sameContactRows : list jsval :=
  [ Str "Juan Perez (Ana Gomez) Colombres 148 2 26/11/2025 08:15";
    Str "Juan Perez (Ana Gomez) Lavalle 300 25/11/2025 09:00" ].

Definition sameContactFeed : Script :=
  {| scUrl := fun _ => leadsUrl;
     scRows := fun _ => sameContactRows;
     scScroll := fun _ => midScroll;
     scModal := fun address =>
       if String.eqb address "Colombres 148 2"
       then Modal (Str "AAP7427642") (Str "Emiliano Grieve")
       else Modal Null Null;
     scPopover := fun _ =>
       {| ciEmail := Str "juan@example.com"; ciPhone := Null;
          ciCellPhone := Str "+5491112345678" |};
     scClock := fun _ => demoNow |}.

(** The same two rows, the second coming on screen after the first
    scroll. *)
Definition growingFeed : Script :=
  {| scUrl := fun _ => leadsUrl;
     scRows := fun n => firstn (S n) sameContactRows;
     scScroll := fun n => match n with O => midScroll | S _ => endScroll end;
     scModal := fun _ => LinkHidden;
     scPopover := fun _ => noContactInfo;
     scClock := fun _ => demoNow |}.

Definition detailOptions : Options :=
  {| optStatus := "all"; maxScrolls := 1; maxLeads := 10000; extractDetails := true |}.

(** A session that is closed from elsewhere after the first scroll. *)
Definition closedFeed : Script :=
  {| scUrl := fun n =>
       match n with
       | O => leadsUrl
       | S _ => "https://www.tokkobroker.com/not_connected"
       end;
     scRows := fun _ => twoLeadRows;
     scScroll := fun _ => midScroll;
     scModal := fun _ => LinkHidden;
     scPopover := fun _ => noContactInfo;
     scClock := fun _ => demoNow |}.

Definition weekOptions : ScrapeOptions :=
  {| soTargetDate := ValidDate demoTarget;
     soStartDate := None;
     soMaxLeads := 10000;
     soExtractDetails := false;
     soStatus := "all" |}.

(** ** Predicates of the statements *)

(** No character of [s] is [a]. *)
Fixpoint lacks (a : ascii) (s : string) : Prop :=
  match s with
  | EmptyString => True
  | String c r => c <> a /\ lacks a r
  end.



(** The layout of a row that [parseLeadFromText] names in its comment,
    "ContactName (AgentName) PropertyAddress DD/MM/YYYY HH:MM": the contact,
    then the agent in parentheses, the address and the time stamp, each of
    the three present or not. *)
Definition rowLayout (name : string) (agentText address stamp : option string) : string :=
  (name ++
   match agentText with Some a => " (" ++ a ++ ")" | None => "" end ++
   match address with Some a => " " ++ a | None => "" end ++
   match stamp with Some t => " " ++ t | None => "" end)%string.

(** [s] carries the contact, the address and the time stamp of [lead]. *)
Definition builtFrom (lead : RawLead) (s : StructuredLead) : Prop :=
  Contact.name (contact s) = JS.or (contactName lead) Null /\
  Property.address (property s) = JS.or (propertyAddress lead) Null /\
  leadLastUpdated s = JS.or (lastUpdated lead) Null.

(** Every lead that a scan of the page returns satisfies [Q]. *)
Definition scansYield {W : Type} (br : Browser W) (Q : RawLead -> Prop) : Prop :=
  forall targetStatus w found w',
    scrapeVisibleLeads W br targetStatus w = (Ok found, w') -> Forall Q found.

(** [s] was built from a lead that satisfies [Q] and whose date, resolved at
    a reading of the clock, was not strictly older than [targetDate]. *)
Definition withinCutoff {W : Type} (rt : Runtime) (br : Browser W)
    (Q : RawLead -> Prop) (targetDate : Z) (s : StructuredLead) : Prop :=
  exists lead w0,
    Q lead /\
    builtFrom lead s /\
    olderThan (parseDate rt (clock br w0) (leadDateStr lead)) targetDate = false.

(** The time stamp stored in [s], resolved at a reading of the clock, is not
    strictly older than [targetDate]. *)
Definition stampWithinCutoff {W : Type} (rt : Runtime) (br : Browser W)
    (targetDate : Z) (s : StructuredLead) : Prop :=
  exists w0,
    olderThan (parseDate rt (clock br w0) (leadLastUpdated s)) targetDate = false.

(** The lead has no [vigencia], as the leads of [parseLeadFromText]. *)
Definition noVigencia (lead : RawLead) : Prop := JS.truthy (vigencia lead) = false.

(** No detail was fetched for [s]. *)
Definition noDetails (s : StructuredLead) : Prop :=
  Contact.email (contact s) = Null /\
  Contact.phone (contact s) = Null /\
  Contact.cellPhone (contact s) = Null /\
  Property.id (property s) = Null.

(** The two ways an entry is built, as a condition on a property [P] of
    entries: the main pass structures a scanned lead that is not older than
    the cutoff, with details only under [extractDetails]; the rescan
    structures a scanned lead that is undated or not older, without
    details. *)
Definition holdsOfBuilt {W : Type} (rt : Runtime) (br : Browser W) (o : Options)
    (targetDate : Z) (Q : RawLead -> Prop) (P : StructuredLead -> Prop) : Prop :=
  (forall lead w0 pid pagent ci now,
      Q lead ->
      olderThan (parseDate rt (clock br w0) (leadDateStr lead)) targetDate = false ->
      (extractDetails o = false -> pid = Null /\ pagent = Null /\ ci = noContactInfo) ->
      P (structureLead lead pid pagent ci now)) /\
  (forall lead w0,
      Q lead ->
      undatedOrRecent (parseDate rt (clock br w0) (leadDateStr lead)) targetDate = true ->
      P (structureFinalLead lead (clock br w0))).

(** The two shapes of what [scrapeLeads] resolves to. *)
Definition wellFormedResult (r : ScrapeResult) : Prop :=
  (success r = true /\
   error r = None /\
   exists m, metadata r = Some m /\ totalLeads m = Z.of_nat (List.length (leads r)))
  \/
  (success r = false /\
   leads r = [] /\
   metadata r = None /\
   exists msg, error r = Some msg).

(** ** Further predicates of the statements *)

(** The leads of a row that is not a section header: the lead parsed from
    its text, if any. *)
Definition rowLead (row : jsval) : list RawLead :=
  match row with
  | Str text =>
      if isSectionHeader text then []
      else match parseLeadFromText (Str text) with
           | Some lead => [lead]
           | None => []
           end
  | _ => []
  end.

(** The leads of the data rows of a list of rows, in the order of the
    rows. *)
Definition dataLeads (rows : list jsval) : list RawLead := flat_map rowLead rows.

(** The row is a section header. *)
Definition isHeaderRow (row : jsval) : bool :=
  match row with
  | Str text => isSectionHeader text
  | _ => false
  end.

(** The row is a section header that carries the label [header]. *)
Definition isHeaderOf (header : string) (row : jsval) : bool :=
  match row with
  | Str text => isSectionHeader text && JS.includes header text
  | _ => false
  end.

(** Every character of [s] satisfies [p]. *)
Fixpoint allChars (p : ascii -> bool) (s : string) : bool :=
  match s with
  | EmptyString => true
  | String c r => p c && allChars p r
  end.

(** The characters of a time stamp: digits, white space, slash, colon. *)
Definition stampChar (c : ascii) : bool :=
  JS.isDigit c || JS.isSpace c || Ascii.eqb c "/" || Ascii.eqb c ":".

(** ** The texts within the reach of the string functions

    [JS.isSpace] is the white space of the ASCII range, and [JS.toLowerCase]
    folds the letters below U+0100.  On a text that holds none of the other
    white-space characters of JavaScript, [\s] and [trim()] are what
    [JS.isSpace] makes them; on a text whose characters are all below
    U+0100, [toLowerCase()] is [JS.toLowerCase]. *)

Definition ofBytes (codes : list nat) : string :=
  fold_right (fun n s => String (ascii_of_nat n) s) EmptyString codes.

(** The white space of JavaScript outside ASCII, in UTF-8: U+00A0, U+1680,
    U+2000 to U+200A, U+2028, U+2029, U+202F, U+205F, U+3000 and U+FEFF. *)
Definition wideSpaces : list string :=
  map ofBytes
    [[194; 160]; [225; 154; 128];
     [226; 128; 128]; [226; 128; 129]; [226; 128; 130]; [226; 128; 131];
     [226; 128; 132]; [226; 128; 133]; [226; 128; 134]; [226; 128; 135];
     [226; 128; 136]; [226; 128; 137]; [226; 128; 138];
     [226; 128; 168]; [226; 128; 169]; [226; 128; 175];
     [226; 129; 159]; [227; 128; 128]; [239; 187; 191]]%nat.

(** The only white space of [s] is that of the ASCII range. *)
Definition asciiSpaced (s : string) : bool :=
  forallb (fun w => negb (JS.includes w s)) wideSpaces.

(** Every character of [s] is below U+0100: no byte from 196 on. *)
Definition latin1 (s : string) : bool :=
  allChars (fun c => (nat_of_ascii c <? 196)%nat) s.

(** [e instanceof SessionClosedError] *)
Definition isSessionClosedError (e : Error) : bool :=
  match e with
  | SessionClosedError _ => true
  | OtherError _ => false
  end.

(** The awaited code [c] throws nothing but session errors. *)
Definition throwsOnlySession {W A} (c : M W A) : Prop :=
  forall w e w', c w = (Throw e, w') -> isSessionClosedError e = true.

(** The awaited code [c] does not throw. *)
Definition neverThrows {W A} (c : M W A) : Prop :=
  forall w e w', c w <> (Throw e, w').

(** ** The text of the contact popover, [extractContactDetails]

    What the function reads from [popoverText] once it has it: the first
    e-mail address and the first telephone number of each kind.  White
    space is the one of the ASCII range. *)

(** [\w] *)
Definition isWord (c : ascii) : bool :=
  let n := nat_of_ascii c in
  JS.isDigit c || ((65 <=? n)%nat && (n <=? 90)%nat) ||
  ((97 <=? n)%nat && (n <=? 122)%nat) || (n =? 95)%nat.

(** [[\w.-]] *)
Definition isMailChar (c : ascii) : bool :=
  isWord c || Ascii.eqb c "." || Ascii.eqb c "-".

(** [[\d\s()-]] *)
Definition isPhoneChar (c : ascii) : bool :=
  JS.isDigit c || JS.isSpace c || Ascii.eqb c "(" || Ascii.eqb c ")" || Ascii.eqb c "-".

(** [[^+\d]] is what [cleanPhone] removes: these are the characters it
    keeps. *)
Definition isPlusOrDigit (c : ascii) : bool := Ascii.eqb c "+" || JS.isDigit c.

(** A class repeated once or more and then [k]: the run is taken as long
    as possible, and shortened one character at a time while [k] fails. *)
Fixpoint plusThen (p : ascii -> bool) (k : matcher) (s : string) : option string :=
  match s with
  | String c r =>
      if p c then
        match plusThen p k r with
        | Some rest => Some rest
        | None => k r
        end
      else None
  | EmptyString => None
  end.

(** A class repeated [n] times or more, at the end of a pattern. *)
Definition atLeast (n : nat) (p : ascii -> bool) : matcher :=
  fun s =>
    if (n <=? String.length (JS.takeWhile p s))%nat
    then Some (JS.dropWhile p s) else None.

(** [/[\w.-]+@[\w.-]+\.\w+/] *)
Definition emailRe : matcher :=
  plusThen isMailChar
    (chr "@" >> plusThen isMailChar (chr "." >> plusThen isWord (fun s => Some s))).

(** [/\+?\d[\d\s()-]{8,}/]: with the plus sign first, without it when that
    fails. *)
Definition phoneRe : matcher :=
  fun s =>
    match (chr "+" >> digitsN 1 >> atLeast 8 isPhoneChar) s with
    | Some rest => Some rest
    | None => (digitsN 1 >> atLeast 8 isPhoneChar) s
    end.

(** [text.match(re)] with the flag [g], for a pattern that matches no
    empty text: the matches from left to right, each search starting where
    the match before ended.  [inside] counts the characters of [s] that
    belong to the last match. *)
Fixpoint matchAll (m : matcher) (inside : nat) (s : string) : list string :=
  match s with
  | EmptyString => []
  | String _ r =>
      match inside with
      | S k => matchAll m k r
      | O =>
          match m s with
          | Some rest =>
              consumed s rest ::
              matchAll m (String.length s - String.length rest - 1) r
          | None => matchAll m 0 r
          end
      end
  end.

Fixpoint filterChars (p : ascii -> bool) (s : string) : string :=
  match s with
  | EmptyString => EmptyString
  | String c r => if p c then String c (filterChars p r) else filterChars p r
  end.

(** [phoneMatch.replace(/[^+\d]/g, '')] *)
Definition cleanPhone (phoneMatch : string) : string :=
  filterChars isPlusOrDigit phoneMatch.

(** [/^\+?549/.test(cleanPhone)] *)
Definition isCellPhone (cleanPhone : string) : bool :=
  match (chr "+" >> lit "549") cleanPhone with
  | Some _ => true
  | None =>
      match lit "549" cleanPhone with
      | Some _ => true
      | None => false
      end
  end.

(** The loop over [phoneMatches]: the first number of each kind is kept. *)
Fixpoint classifyPhones (phoneMatches : list string) (phone cellPhone : jsval)
    : jsval * jsval :=
  match phoneMatches with
  | [] => (phone, cellPhone)
  | phoneMatch :: rest =>
      let clean := cleanPhone phoneMatch in
      if isCellPhone clean
      then classifyPhones rest phone
             (if JS.truthy cellPhone then cellPhone else Str clean)
      else classifyPhones rest
             (if JS.truthy phone then phone else Str clean) cellPhone
  end.

(** The three fields read from the text of the popover. *)
Definition contactInfoOfText (popoverText : string) : ContactInfo :=
  if JS.isEmpty popoverText then noContactInfo
  else
    let email :=
      match search emailRe popoverText with
      | Some (from, rest) => Str (JS.trim (consumed from rest))
      | None => Null
      end in
    let phones := classifyPhones (matchAll phoneRe 0 popoverText) Null Null in
    {| ciEmail := email; ciPhone := fst phones; ciCellPhone := snd phones |}.

(** A telephone number as [cleanPhone] leaves it: digits, at least one,
    after at most one plus sign. *)
Definition isNumber (s : string) : bool :=
  let digits :=
    match s with
    | String c r => if Ascii.eqb c "+" then r else s
    | EmptyString => s
    end in
  negb (JS.isEmpty digits) && allChars JS.isDigit digits.

(** A field of the contact is [null] or a number of the kind [cell]. *)
Definition numberOfKind (cell : bool) (v : jsval) : Prop :=
  match v with
  | Null => True
  | Str s => isNumber s = true /\ isCellPhone s = cell
  | Undefined => False
  end.

(** ** The route, from the request on

    The body of [POST /scrape] as the handler reads it; a property that the
    body does not have reads as [Undefined], an absent number or boolean
    as [None].  The dates are strings. *)

Record ScrapeRequest : Type := mkScrapeRequest {
  rqTargetDate : jsval;
  rqStartDate : jsval;
  rqMaxLeads : option Z;
  rqExtractDetails : option bool;
  rqStatus : jsval
}.

Definition validStatuses : list string :=
  [ "para_reasignacion"; "sin_seguimiento"; "pendiente_contactar";
    "esperando_respuesta"; "evolucionando"; "tomar_accion"; "congelado"; "all" ].

(** [status || 'pendiente_contactar'] *)
Definition selectedStatus (rq : ScrapeRequest) : string :=
  JS.orEmpty (JS.or (rqStatus rq) (Str "pendiente_contactar")).

(** [res.status(400).json({ success: false, error })] *)
Definition badRequest (message : string) : Response :=
  {| httpStatus := 400;
     resSuccess := false;
     resData := None;
     resError := Some message;
     resCode := None |}.

(** The answer of the [catch] of the handler. *)
Definition internalError : Response :=
  {| httpStatus := 500;
     resSuccess := false;
     resData := None;
     resError := Some "Internal server error";
     resCode := None |}.

(** The [options] that the handler passes to [scrapeLeads]. *)
Definition requestOptions (rt : Runtime) (rq : ScrapeRequest) (parsedTargetDate : Date)
    : ScrapeOptions :=
  {| soTargetDate := parsedTargetDate;
     soStartDate :=
       if JS.truthy (rqStartDate rq)
       then Some (Date_parse rt (JS.orEmpty (rqStartDate rq)))
       else None;
     soMaxLeads :=
       match rqMaxLeads rq with
       | Some n => if n =? 0 then 10000 else n
       | None => 10000
       end;
     soExtractDetails :=
       match rqExtractDetails rq with
       | Some b => b
       | None => false
       end;
     soStatus := selectedStatus rq |}.

Section Route.

Variable W : Type.
Variable rt : Runtime.
Variable br : Browser W.

(** The handler of [POST /scrape].  Its [catch] answers a rejection of
    [scrapeLeads].  [None] stands for a collection loop that ran out of
    fuel. *)
Definition postScrape (rq : ScrapeRequest) (w : W) : option Response * W :=
  if negb (JS.truthy (rqTargetDate rq)) then
    (Some (badRequest "targetDate is required (format: YYYY-MM-DD)"), w)
  else
    match Date_parse rt (JS.orEmpty (rqTargetDate rq)) with
    | InvalidDate =>
        (Some (badRequest "Invalid targetDate format. Use YYYY-MM-DD"), w)
    | ValidDate t =>
        if negb (existsb (String.eqb (selectedStatus rq)) validStatuses) then
          (Some (badRequest
                   ("Invalid status. Valid options: " ++ String.concat ", " validStatuses)),
           w)
        else
          match scrapeLeads W rt br (requestOptions rt rq (ValidDate t)) w with
          | (Ok (Some result), w') => (Some (respond result), w')
          | (Ok None, w') => (None, w')
          | (Throw _, w') => (Some internalError, w')
          end
    end.

End Route.

(** A request that the handler passes on to the scraper: with a target
    date that the runtime parses and, if any, a status of the list. *)
Definition acceptedRequest (rt : Runtime) (rq : ScrapeRequest) : Prop :=
  JS.truthy (rqTargetDate rq) = true /\
  Date_parse rt (JS.orEmpty (rqTargetDate rq)) <> InvalidDate /\
  In (selectedStatus rq) validStatuses.

(** Clean text, as [cleanText] of [parseLeadFromText] leaves a field: not
    empty, its only white space single blanks, none of them at either end,
    and none of the white space that JavaScript has outside ASCII (a
    no-break space is rewritten to a blank by the cleaning).  [afterBlank]
    tells that the character before was a blank, or that the text starts
    here. *)
Fixpoint tidyFrom (afterBlank : bool) (s : string) : bool :=
  match s with
  | EmptyString => negb afterBlank
  | String c r =>
      if JS.isSpace c
      then Ascii.eqb c " " && negb afterBlank && tidyFrom true r
      else tidyFrom false r
  end.

Definition tidy (s : string) : bool := tidyFrom true s && asciiSpaced s.

(** The lead has neither [propertyName] nor [vigencia]: so are the leads
    of [parseLeadFromText], and the leads that the fallback extraction is
    asked for. *)
Definition keyedByName (lead : RawLead) : Prop :=
  JS.truthy (propertyName lead) = false /\ JS.truthy (vigencia lead) = false.

(** The name of the contact of a structured lead, in lower case. *)
Definition contactLower (s : StructuredLead) : string :=
  JS.toLowerCase (JS.orEmpty (Contact.name (contact s))).

(** The store holds one entry per key, and every key is the lower-case
    name of the contact of its entry, followed by two hyphens. *)
Definition keyedStore (store : Store) : Prop :=
  NoDup (JsMap.keys store) /\
  Forall (fun kv => fst kv = (contactLower (snd kv) ++ "--")%string) store.

(** A scripted browser that cannot be closed. *)
Definition withoutClose (s : Script) : Browser nat :=
  {| clock := clock (scripted s);
     url := url (scripted s);
     waitForLoadState := waitForLoadState (scripted s);
     waitForSelector := waitForSelector (scripted s);
     branchFilterSteps := branchFilterSteps (scripted s);
     toggleSteps := toggleSteps (scripted s);
     dateFilterSteps := dateFilterSteps (scripted s);
     scrollToTop := scrollToTop (scripted s);
     rowTexts := rowTexts (scripted s);
     llmLeads := llmLeads (scripted s);
     propertyModal := propertyModal (scripted s);
     contactPopover := contactPopover (scripted s);
     scrollDown := scrollDown (scripted s);
     initSelector := initSelector (scripted s);
     launch := launch (scripted s);
     login := login (scripted s);
     gotoLeads := gotoLeads (scripted s);
     cookies := cookies (scripted s);
     closeBrowser := fun n => (Throw (OtherError "Target closed"), n) |}.

(** A scripted browser whose cookies cannot be read. *)
Definition withoutCookies (s : Script) : Browser nat :=
  {| clock := clock (scripted s);
     url := url (scripted s);
     waitForLoadState := waitForLoadState (scripted s);
     waitForSelector := waitForSelector (scripted s);
     branchFilterSteps := branchFilterSteps (scripted s);
     toggleSteps := toggleSteps (scripted s);
     dateFilterSteps := dateFilterSteps (scripted s);
     scrollToTop := scrollToTop (scripted s);
     rowTexts := rowTexts (scripted s);
     llmLeads := llmLeads (scripted s);
     propertyModal := propertyModal (scripted s);
     contactPopover := contactPopover (scripted s);
     scrollDown := scrollDown (scripted s);
     initSelector := initSelector (scripted s);
     launch := launch (scripted s);
     login := login (scripted s);
     gotoLeads := gotoLeads (scripted s);
     cookies := fun n => (Throw (OtherError "Target closed"), n);
     closeBrowser := closeBrowser (scripted s) |}.

(** An e-mail address as [emailRe] reads it: a local part and a domain of
    [[\w.-]], and after the last point of the domain an ending of [\w],
    none of them empty. *)
Definition isAddress (e : string) : Prop :=
  exists localPart domain ending,
    e = (localPart ++ String "@" (domain ++ String "." ending))%string /\
    localPart <> EmptyString /\ allChars isMailChar localPart = true /\
    domain <> EmptyString /\ allChars isMailChar domain = true /\
    ending <> EmptyString /\ allChars isWord ending = true.

(** A field of the result that is [null] or a non-empty string. *)
Definition nullOrText (v : jsval) : Prop :=
  v = Null \/ exists s, v = Str s /\ s <> EmptyString.

(** The four fields of a structured lead that come from the row, each
    [null] or a non-empty string. *)
Definition rowFieldsNormal (s : StructuredLead) : Prop :=
  nullOrText (Contact.name (contact s)) /\
  nullOrText (Agent.name (agent s)) /\
  nullOrText (Property.address (property s)) /\
  nullOrText (leadLastUpdated s).

(** The lead names its contact. *)
Definition namesContact (lead : RawLead) : Prop := JS.truthy (contactName lead) = true.

(** ** The route without the check of the status

    The handler of [POST /scrape] in src/api/routes/leads.js: it passes any
    status on, [all] when there is none, and knows no code. *)

(** Its [options]. *)
Definition requestOptionsAnyStatus (rt : Runtime) (rq : ScrapeRequest)
    (parsedTargetDate : Date) : ScrapeOptions :=
  {| soTargetDate := parsedTargetDate;
     soStartDate :=
       if JS.truthy (rqStartDate rq)
       then Some (Date_parse rt (JS.orEmpty (rqStartDate rq)))
       else None;
     soMaxLeads :=
       match rqMaxLeads rq with
       | Some n => if n =? 0 then 10000 else n
       | None => 10000
       end;
     soExtractDetails :=
       match rqExtractDetails rq with
       | Some b => b
       | None => false
       end;
     soStatus := JS.orEmpty (JS.or (rqStatus rq) (Str "all")) |}.

(** What it answers once [scrapeLeads] has resolved. *)
Definition respondAnyStatus (result : ScrapeResult) : Response :=
  if success result then
    {| httpStatus := 200;
       resSuccess := true;
       resData := Some (leads result, metadata result);
       resError := None;
       resCode := None |}
  else
    {| httpStatus := 500;
       resSuccess := false;
       resData := None;
       resError := error result;
       resCode := None |}.

Definition postScrapeAnyStatus (W : Type) (rt : Runtime) (br : Browser W)
    (rq : ScrapeRequest) (w : W) : option Response * W :=
  if negb (JS.truthy (rqTargetDate rq)) then
    (Some (badRequest "targetDate is required (format: YYYY-MM-DD)"), w)
  else
    match Date_parse rt (JS.orEmpty (rqTargetDate rq)) with
    | InvalidDate =>
        (Some (badRequest "Invalid targetDate format. Use YYYY-MM-DD"), w)
    | ValidDate t =>
        match scrapeLeads W rt br (requestOptionsAnyStatus rt rq (ValidDate t)) w with
        | (Ok (Some result), w') => (Some (respondAnyStatus result), w')
        | (Ok None, w') => (None, w')
        | (Throw _, w') => (Some internalError, w')
        end
    end.

(** * Properties *)

(** ** Strings *)

Section StringFacts.

Lemma isEmpty_true (s : string) : JS.isEmpty s = true <-> s = EmptyString.
Proof. destruct s; simpl; split; congruence. Qed.

Lemma isEmpty_false (s : string) : JS.isEmpty s = false <-> s <> EmptyString.
Proof. destruct s; simpl; split; congruence. Qed.

Lemma take_drop_while (p : ascii -> bool) (s : string) :
  (JS.takeWhile p s ++ JS.dropWhile p s)%string = s.
Proof.
  induction s as [|c r IH]; simpl; [reflexivity|].
  destruct (p c); simpl; [now rewrite IH | reflexivity].
Qed.

Lemma dropWhile_head (p : ascii -> bool) (s : string) (c : ascii) (r : string) :
  JS.dropWhile p s = String c r -> p c = false.
Proof.
  induction s as [|d t IH]; simpl; [discriminate|].
  destruct (p d) eqn:E; [exact IH|].
  intros H. injection H as -> _. exact E.
Qed.


Lemma notChar_true (a c : ascii) : JS.notChar a c = true <-> c <> a.
Proof.
  unfold JS.notChar. rewrite negb_true_iff, Ascii.eqb_neq. split; congruence.
Qed.


Lemma takeWhile_upto (a : ascii) (n r : string) :
  lacks a n -> JS.takeWhile (JS.notChar a) (n ++ String a r) = n.
Proof.
  induction n as [|c t IH]; simpl.
  - intros _. unfold JS.notChar. now rewrite Ascii.eqb_refl.
  - intros [Hc Ht]. apply notChar_true in Hc. rewrite Hc. now rewrite IH.
Qed.

Lemma dropWhile_upto (a : ascii) (n r : string) :
  lacks a n -> JS.dropWhile (JS.notChar a) (n ++ String a r) = String a r.
Proof.
  induction n as [|c t IH]; simpl.
  - intros _. unfold JS.notChar. now rewrite Ascii.eqb_refl.
  - intros [Hc Ht]. apply notChar_true in Hc. rewrite Hc. now apply IH.
Qed.

(** A trimmed string is empty or starts with a character that is not
    white space. *)
Lemma trim_head (s : string) :
  JS.trim s = EmptyString \/
  exists c r, JS.trim s = String c r /\ JS.isSpace c = false.
Proof.
  unfold JS.trim.
  destruct (JS.dropWhile JS.isSpace s) as [|c r] eqn:E; simpl; [now left|].
  apply dropWhile_head in E. rewrite E. simpl. right. eauto.
Qed.

Lemma trim_nonempty (c : ascii) (r : string) :
  JS.isSpace c = false -> JS.isEmpty (JS.trim (String c r)) = false.
Proof.
  intros H. unfold JS.trim. simpl. rewrite H. simpl. now rewrite H.
Qed.

End StringFacts.

(** ** The row parser *)

Section ParserFacts.


Lemma contactMatch_complete (n a rest : string) :
  n <> EmptyString -> lacks "(" n -> a <> EmptyString -> lacks ")" a ->
  contactMatch (n ++ String "(" (a ++ String ")" rest)) = Some (n, a).
Proof.
  intros Hn Ln Ha La. unfold contactMatch.
  rewrite (takeWhile_upto "(" n _ Ln), (dropWhile_upto "(" n _ Ln).
  apply isEmpty_false in Hn. rewrite Hn.
  rewrite (takeWhile_upto ")" a _ La), (dropWhile_upto ")" a _ La).
  apply isEmpty_false in Ha. now rewrite Ha.
Qed.

(** The name found in a cleaned row is not blank. *)
Lemma contactMatch_name (text n a : string) :
  contactMatch (cleanRow text) = Some (n, a) ->
  JS.isEmpty (JS.trim n) = false.
Proof.
  intros H. unfold cleanRow in H.
  destruct (trim_head (JS.collapseSpaces text)) as [E | (c & r & E & Hc)];
    rewrite E in H.
  - discriminate.
  - unfold contactMatch in H. simpl in H.
    destruct (JS.notChar "(" c) eqn:Ec; simpl in H; [|discriminate].
    destruct (JS.dropWhile (JS.notChar "(") r) as [|c1 r1]; [discriminate|].
    destruct (JS.isEmpty (JS.takeWhile (JS.notChar ")") r1)); [discriminate|].
    destruct (JS.dropWhile (JS.notChar ")") r1); [discriminate|].
    injection H as <- _. now apply trim_nonempty.
Qed.

Lemma parseLeadFromText_some (text : jsval) (l : RawLead) :
  parseLeadFromText text = Some l ->
  exists n a,
    contactMatch (cleanRow (JS.orEmpty text)) = Some (n, a) /\
    l = {| contactName := Str (JS.trim n);
           propertyAddress :=
             match dateMatch (cleanRow (JS.orEmpty text)) with
             | Some d => addressBetween (cleanRow (JS.orEmpty text)) d
             | None => Null
             end;
           lastUpdated :=
             match dateMatch (cleanRow (JS.orEmpty text)) with
             | Some d => Str d
             | None => Null
             end;
           status := Null;
           _agentName := Str (JS.trim a);
           propertyName := Undefined;
           vigencia := Undefined;
           propertyId := Undefined;
           propertyAgent := Undefined |}.
Proof.
  unfold parseLeadFromText.
  destruct (negb (JS.truthy text)); [discriminate|].
  destruct (contactMatch (cleanRow (JS.orEmpty text))) as [[n a]|]; simpl.
  - destruct (negb (negb (JS.isEmpty (JS.trim n)))); [discriminate|].
    intros H. injection H as <-. exists n, a. split; [reflexivity|].
    now destruct (dateMatch (cleanRow (JS.orEmpty text))).
  - discriminate.
Qed.

Lemma parseLeadFromText_found (text : jsval) (n a : string) :
  contactMatch (cleanRow (JS.orEmpty text)) = Some (n, a) ->
  exists l, parseLeadFromText text = Some l.
Proof.
  intros H. unfold parseLeadFromText.
  destruct (JS.truthy text) eqn:T; simpl.
  - rewrite H. simpl. rewrite (contactMatch_name _ _ _ H). simpl. eauto.
  - assert (E : JS.orEmpty text = EmptyString).
    { destruct text as [| |s]; try reflexivity. simpl in T.
      apply negb_false_iff, isEmpty_true in T. now subst. }
    rewrite E in H. discriminate.
Qed.

End ParserFacts.

(** ** Cleaning a row *)

Section CleaningFacts.











End CleaningFacts.

(** ** The identity key *)

(** The key of a parsed lead is its contact name alone: the parser sets
    neither [propertyName] nor [vigencia]. *)
Lemma getLeadKey_parsed (text : jsval) (l : RawLead) :
  parseLeadFromText text = Some l ->
  getLeadKey l = JS.toLowerCase (JS.orEmpty (contactName l) ++ "--").
Proof.
  intros H. destruct (parseLeadFromText_some _ _ H) as (n & a & Hm & ->).
  unfold getLeadKey, JS.or. simpl.
  rewrite (contactMatch_name _ _ _ Hm). reflexivity.
Qed.

(** C2, at the failing input: two rows of one contact that differ in the
    address and in the time stamp are parsed into leads with the same key,
    and a run that meets the second row one pass after the first returns
    the first lead alone. *)
Theorem getLeadKey_collision :
  exists l1 l2 e,
    parseLeadFromText (Str "Juan Perez (Ana Gomez) Colombres 148 2 26/11/2025 08:15") = Some l1 /\
    parseLeadFromText (Str "Juan Perez (Ana Gomez) Lavalle 300 25/11/2025 09:00") = Some l2 /\
    propertyAddress l1 <> propertyAddress l2 /\
    lastUpdated l1 <> lastUpdated l2 /\
    getLeadKey l1 = "juan perez--" /\
    getLeadKey l2 = "juan perez--" /\
    fst (scrapeLeadsUntilDate nat buenosAires (scripted growingFeed)
           (ValidDate demoTarget) allOptions 0%nat) = Ok (Some [e]) /\
    Property.address (property e) = Str "Colombres 148 2".
Proof.
  eexists. eexists. eexists.
  split; [vm_compute; reflexivity|].
  split; [vm_compute; reflexivity|].
  split; [vm_compute; discriminate|].
  split; [vm_compute; discriminate|].
  split; [vm_compute; reflexivity|].
  split; [vm_compute; reflexivity|].
  split; vm_compute; reflexivity.
Qed.

(** ** The date resolver *)

Section DateFacts.

Variable rt : Runtime.
Variable now : Z.

Lemma parseDate_falsy (v : jsval) : JS.truthy v = false -> parseDate rt now v = None.
Proof. intros H. unfold parseDate. now rewrite H. Qed.

(** The four rules, in the order in which they are tried. *)
Lemma parseDate_rules (s : string) :
  s <> EmptyString ->
  parseDate rt now (Str s) =
    match relativeDays (JS.toLowerCase (JS.trim s)) with
    | Some totalDays => Some (TimeClip (now - totalDays * msPerDay))
    | None =>
        match haceMillis (JS.toLowerCase (JS.trim s)) with
        | Some ms => Some (TimeClip (now - ms))
        | None =>
            match Date_parse rt s with
            | ValidDate t => Some (ValidDate t)
            | InvalidDate =>
                match ddmmyyyyMatch s with
                | Some (d, m, y) => Some (newDateYMD rt y (m - 1) d)
                | None => None
                end
            end
        end
    end.
Proof.
  intros H. unfold parseDate. simpl.
  apply isEmpty_false in H. now rewrite H.
Qed.

Lemma relativeDays_oracle :
  relativeDays (JS.toLowerCase (JS.trim "8 años 182 días")) = Some (8 * 365 + 182).
Proof. vm_compute. reflexivity. Qed.

Lemma relativeDays_capitals :
  relativeDays (JS.toLowerCase (JS.trim "8 AÑOS 182 DÍAS")) = Some (8 * 365 + 182).
Proof. vm_compute. reflexivity. Qed.

Lemma haceMillis_oracle :
  relativeDays (JS.toLowerCase (JS.trim "hace 3 horas")) = None /\
  haceMillis (JS.toLowerCase (JS.trim "hace 3 horas")) = Some (3 * msPerHour).
Proof. split; vm_compute; reflexivity. Qed.

Lemma slashDate_oracle :
  relativeDays (JS.toLowerCase (JS.trim "26/11/2025 08:15")) = None /\
  haceMillis (JS.toLowerCase (JS.trim "26/11/2025 08:15")) = None /\
  ddmmyyyyMatch "26/11/2025 08:15" = Some (26, 11, 2025).
Proof. repeat split; vm_compute; reflexivity. Qed.

Lemma noDate_oracle :
  relativeDays (JS.toLowerCase (JS.trim "sin fecha")) = None /\
  haceMillis (JS.toLowerCase (JS.trim "sin fecha")) = None /\
  ddmmyyyyMatch "sin fecha" = None.
Proof. repeat split; vm_compute; reflexivity. Qed.

Lemma newDate_26_11_2025 :
  newDateYMD rt 2025 (11 - 1) 26 = TimeClip (20418 * msPerDay - LocalTZA rt).
Proof. reflexivity. Qed.

End DateFacts.

(** C4, as amended.  The runtime keeps local time at one offset from UTC
    (no daylight-saving change between the instant of the call and the
    resolved date), so that [setDate], [setHours] and [setMinutes] move the
    time value by whole days, hours and minutes.  At every instant [now] and
    in every such runtime: "8 años 182 días", and "8 AÑOS 182 DÍAS" as
    well, resolve to [now] minus 8*365+182 days and "hace 3 horas" to [now]
    minus 3 hours; "26/11/2025 08:15", which the generic parser of the
    runtime rejects, resolves to local midnight of 26 November 2025, the
    hour and the minute being dropped; a string that no rule reads, and an
    absent or empty value, resolve to [None].  For every string whose
    characters are below U+0100 and whose white space is that of the ASCII
    range, the rules are tried in the order relative duration, "hace",
    generic parser, day/month/year, and the first that applies gives the
    result. *)
Theorem parseDate_resolution (rt : Runtime) (now : Z) :
  parseDate rt now (Str "8 años 182 días")
    = Some (TimeClip (now - (8 * 365 + 182) * msPerDay)) /\
  parseDate rt now (Str "8 AÑOS 182 DÍAS")
    = Some (TimeClip (now - (8 * 365 + 182) * msPerDay)) /\
  parseDate rt now (Str "hace 3 horas") = Some (TimeClip (now - 3 * msPerHour)) /\
  (Date_parse rt "26/11/2025 08:15" = InvalidDate ->
   parseDate rt now (Str "26/11/2025 08:15")
     = Some (TimeClip (20418 * msPerDay - LocalTZA rt))) /\
  (Date_parse rt "sin fecha" = InvalidDate ->
   parseDate rt now (Str "sin fecha") = None) /\
  (forall v, JS.truthy v = false -> parseDate rt now v = None) /\
  (forall s, s <> EmptyString -> latin1 s = true -> asciiSpaced s = true ->
     let cleanStr := JS.toLowerCase (JS.trim s) in
     (forall n, relativeDays cleanStr = Some n ->
        parseDate rt now (Str s) = Some (TimeClip (now - n * msPerDay))) /\
     (forall ms, relativeDays cleanStr = None -> haceMillis cleanStr = Some ms ->
        parseDate rt now (Str s) = Some (TimeClip (now - ms))) /\
     (forall t, relativeDays cleanStr = None -> haceMillis cleanStr = None ->
        Date_parse rt s = ValidDate t ->
        parseDate rt now (Str s) = Some (ValidDate t)) /\
     (forall d m y, relativeDays cleanStr = None -> haceMillis cleanStr = None ->
        Date_parse rt s = InvalidDate -> ddmmyyyyMatch s = Some (d, m, y) ->
        parseDate rt now (Str s) = Some (newDateYMD rt y (m - 1) d)) /\
     (relativeDays cleanStr = None -> haceMillis cleanStr = None ->
        Date_parse rt s = InvalidDate -> ddmmyyyyMatch s = None ->
        parseDate rt now (Str s) = None)).
Proof.
  repeat apply conj.
  - rewrite parseDate_rules by discriminate. now rewrite relativeDays_oracle.
  - rewrite parseDate_rules by discriminate. now rewrite relativeDays_capitals.
  - rewrite parseDate_rules by discriminate.
    destruct haceMillis_oracle as [-> ->]. reflexivity.
  - intros H. rewrite parseDate_rules by discriminate.
    destruct slashDate_oracle as (-> & -> & ->). rewrite H.
    now rewrite newDate_26_11_2025.
  - intros H. rewrite parseDate_rules by discriminate.
    destruct noDate_oracle as (-> & -> & ->). now rewrite H.
  - apply parseDate_falsy.
  - intros s Hs _ _ cleanStr. subst cleanStr. repeat apply conj.
    + intros n Hn. rewrite parseDate_rules by assumption. now rewrite Hn.
    + intros ms Ha Hb. rewrite parseDate_rules by assumption. now rewrite Ha, Hb.
    + intros t Ha Hb Hc. rewrite parseDate_rules by assumption. now rewrite Ha, Hb, Hc.
    + intros d m y Ha Hb Hc Hd. rewrite parseDate_rules by assumption.
      now rewrite Ha, Hb, Hc, Hd.
    + intros Ha Hb Hc Hd. rewrite parseDate_rules by assumption.
      now rewrite Ha, Hb, Hc, Hd.
Qed.

Lemma parseDate_resolution_witness :
  parseDate buenosAires demoNow (Str "26/11/2025 08:15") = Some (ValidDate 1764126000000) /\
  parseDate buenosAires demoNow (Str "sin fecha") = None /\
  parseDate buenosAires demoNow (Str "") = None /\
  parseDate buenosAires demoNow (Str "2 MESES 3 Días")
    = Some (ValidDate (demoNow - 63 * msPerDay)).
Proof.
  destruct (parseDate_resolution buenosAires demoNow) as (_ & _ & _ & H1 & H2 & H3 & H4).
  split; [|split; [|split]].
  - rewrite H1; [reflexivity | vm_compute; reflexivity].
  - apply H2. vm_compute. reflexivity.
  - apply H3. reflexivity.
  - assert (N : "2 MESES 3 Días" <> EmptyString) by discriminate.
    assert (L : latin1 "2 MESES 3 Días" = true) by (vm_compute; reflexivity).
    assert (A : asciiSpaced "2 MESES 3 Días" = true) by (vm_compute; reflexivity).
    destruct (H4 "2 MESES 3 Días" N L A) as (Ha & _).
    rewrite (Ha 63); [reflexivity | vm_compute; reflexivity].
Defined.

(** C4, the failing part: in the time zone of Buenos Aires
    "26/11/2025 08:15" resolves to 26 November 2025 at 00:00 local time,
    which is not the instant 08:15 of that day. *)
Lemma parseDate_drops_time_of_day :
  parseDate buenosAires demoNow (Str "26/11/2025 08:15")
    = Some (ValidDate (MakeDay 2025 10 26 * msPerDay - LocalTZA buenosAires)) /\
  parseDate buenosAires demoNow (Str "26/11/2025 08:15")
    <> Some (ValidDate (MakeDay 2025 10 26 * msPerDay + 8 * msPerHour + 15 * msPerMinute
                        - LocalTZA buenosAires)).
Proof. split; vm_compute; [reflexivity | discriminate]. Qed.

(** ** The monad *)

Section MonadFacts.

Context {W A B : Type}.

Lemma bind_ok (m : M W A) (k : A -> M W B) (w : W) (b : B) (w' : W) :
  bind m k w = (Ok b, w') ->
  exists a w1, m w = (Ok a, w1) /\ k a w1 = (Ok b, w').
Proof.
  unfold bind. destruct (m w) as [[a|e] w1]; [eauto | discriminate].
Qed.

Lemma bind_throw (m : M W A) (k : A -> M W B) (w : W) (e : Error) (w' : W) :
  m w = (Throw e, w') -> bind m k w = (Throw e, w').
Proof. unfold bind. now intros ->. Qed.

(** A session error thrown in a [try] block whose [catch] is
    [rethrowSession] leaves the block as it is. *)
Lemma rethrowSession_propagates (body fallback : M W A) (w : W) (msg : string) (w' : W) :
  body w = (Throw (SessionClosedError msg), w') ->
  tryCatch body (rethrowSession fallback) w = (Throw (SessionClosedError msg), w').
Proof. unfold tryCatch. now intros ->. Qed.

End MonadFacts.

(** Splits a hypothesis [bind m k w = (Ok b, w')] into the run of [m] and
    the run of [k]. *)
Ltac bind_inv H :=
  let a := fresh "a" in
  let w1 := fresh "w" in
  let E := fresh "E" in
  apply bind_ok in H; destruct H as (a & w1 & E & H).

(** ** The store *)

Section StoreFacts.

Context {V : Type}.
Implicit Types (m : JsMap.t V) (k : string) (v : V).

Lemma has_app m1 m2 k :
  JsMap.has k (m1 ++ m2)%list = JsMap.has k m1 || JsMap.has k m2.
Proof.
  induction m1 as [|[k0 v0] r IH]; simpl; [reflexivity|].
  rewrite IH. now rewrite orb_assoc.
Qed.

Lemma set_present_size m k v :
  JsMap.has k m = true -> JsMap.size (JsMap.set k v m) = JsMap.size m.
Proof.
  unfold JsMap.size. induction m as [|[k0 v0] r IH]; simpl; [discriminate|].
  destruct (String.eqb k0 k); simpl; [reflexivity|].
  intros H. apply IH in H. lia.
Qed.

Lemma set_absent m k v :
  JsMap.has k m = false -> JsMap.set k v m = (m ++ [(k, v)])%list.
Proof.
  induction m as [|[k0 v0] r IH]; simpl; [reflexivity|].
  destruct (String.eqb k0 k); simpl; [discriminate|].
  intros H. now rewrite IH.
Qed.

Lemma set_app_absent m1 m2 k v :
  JsMap.has k m1 = false -> JsMap.set k v (m1 ++ m2)%list = (m1 ++ JsMap.set k v m2)%list.
Proof.
  induction m1 as [|[k0 v0] r IH]; simpl; [reflexivity|].
  destruct (String.eqb k0 k); simpl; [discriminate|].
  intros H. now rewrite IH.
Qed.

Lemma set_size_le m k v :
  JsMap.size m <= JsMap.size (JsMap.set k v m) <= JsMap.size m + 1.
Proof.
  unfold JsMap.size. induction m as [|[k0 v0] r IH]; simpl; [lia|].
  destruct (String.eqb k0 k); simpl; lia.
Qed.

Lemma set_Forall (P : V -> Prop) m k v :
  P v -> Forall P (JsMap.values m) -> Forall P (JsMap.values (JsMap.set k v m)).
Proof.
  intros Hv. unfold JsMap.values.
  induction m as [|[k0 v0] r IH]; simpl; intros H.
  - constructor; [exact Hv | constructor].
  - inversion H as [|? ? H0 Hr]; subst.
    destruct (String.eqb k0 k); simpl; constructor; auto.
Qed.

Lemma values_app m1 m2 :
  JsMap.values (m1 ++ m2)%list = (JsMap.values m1 ++ JsMap.values m2)%list.
Proof. unfold JsMap.values. apply map_app. Qed.

Lemma size_app m1 m2 : JsMap.size (m1 ++ m2)%list = JsMap.size m1 + JsMap.size m2.
Proof. unfold JsMap.size. rewrite length_app. lia. Qed.

End StoreFacts.

(** ** The two loops of a pass *)

Section FilterFacts.

Variable rt : Runtime.
Variables now targetDate : Z.

Lemma undatedOrRecent_not_older (d : option Date) :
  undatedOrRecent d targetDate = true -> olderThan d targetDate = false.
Proof.
  destruct d as [[x|]|]; simpl; try reflexivity; try discriminate.
  intros H. apply Z.leb_le in H. apply Z.ltb_ge. exact H.
Qed.

(** Every lead that the first loop queues is new to the store and not
    strictly older than the cutoff. *)
Lemma filterByDate_pending (store : Store) (visible : list RawLead) (p : Pending) :
  In p (fst (filterByDate rt now targetDate store visible)) ->
  In (pLead p) visible /\
  pKey p = getLeadKey (pLead p) /\
  JsMap.has (pKey p) store = false /\
  olderThan (parseDate rt now (leadDateStr (pLead p))) targetDate = false.
Proof.
  induction visible as [|lead rest IH]; simpl; [contradiction|].
  destruct (JsMap.has (getLeadKey lead) store) eqn:Hhas;
    [intros H; destruct (IH H) as (? & ? & ? & ?); auto|].
  destruct (olderThan (parseDate rt now (leadDateStr lead)) targetDate) eqn:Hold;
    simpl; [contradiction|].
  destruct (filterByDate rt now targetDate store rest) as [more reached].
  simpl in *. intros [<- | Hin]; [simpl; auto|].
  destruct (IH Hin) as (? & ? & ? & ?). auto.
Qed.

(** The first loop stops at the first new lead that is strictly older than
    the cutoff: the leads after it are not looked at. *)
Lemma filterByDate_stops (store : Store) (pre post : list RawLead) (lead : RawLead) :
  snd (filterByDate rt now targetDate store pre) = false ->
  JsMap.has (getLeadKey lead) store = false ->
  olderThan (parseDate rt now (leadDateStr lead)) targetDate = true ->
  filterByDate rt now targetDate store (pre ++ lead :: post)%list
    = (fst (filterByDate rt now targetDate store pre), true).
Proof.
  intros Hpre Hnew Hold.
  induction pre as [|l rest IH]; simpl in *.
  - now rewrite Hnew, Hold.
  - destruct (JsMap.has (getLeadKey l) store); [now apply IH|].
    destruct (olderThan (parseDate rt now (leadDateStr l)) targetDate);
      [discriminate|].
    destruct (filterByDate rt now targetDate store rest) as [more reached].
    simpl in *. now rewrite (IH Hpre).
Qed.

(** A new lead without a date, met before any older lead, is queued. *)
Lemma filterByDate_keeps_undated (store : Store) (pre post : list RawLead) (lead : RawLead) :
  snd (filterByDate rt now targetDate store pre) = false ->
  JsMap.has (getLeadKey lead) store = false ->
  parseDate rt now (leadDateStr lead) = None ->
  In lead (map pLead (fst (filterByDate rt now targetDate store (pre ++ lead :: post)%list))).
Proof.
  intros Hpre Hnew Hnone.
  induction pre as [|l rest IH]; simpl in *.
  - rewrite Hnew, Hnone. simpl.
    destruct (filterByDate rt now targetDate store post). simpl. now left.
  - destruct (JsMap.has (getLeadKey l) store); [now apply IH|].
    destruct (olderThan (parseDate rt now (leadDateStr l)) targetDate);
      [discriminate|].
    destruct (filterByDate rt now targetDate store rest) as [more reached].
    simpl in *. specialize (IH Hpre).
    destruct (filterByDate rt now targetDate store (rest ++ lead :: post)%list).
    simpl in *. now right.
Qed.

(** The rescan at the end of the scroll only appends, and what it appends
    is the structured form, without details, of leads it was given that are
    undated or not older than the cutoff. *)
Lemma finalRescan_appends (store : Store) (finalLeads : list RawLead) :
  exists added,
    finalRescan rt now targetDate store finalLeads = (store ++ added)%list /\
    Forall (fun s => exists lead,
                In lead finalLeads /\
                undatedOrRecent (parseDate rt now (leadDateStr lead)) targetDate = true /\
                s = structureFinalLead lead now)
           (JsMap.values added).
Proof.
  revert store. induction finalLeads as [|lead rest IH]; intros store; simpl.
  - exists []. rewrite app_nil_r. split; [reflexivity | constructor].
  - destruct (negb (JsMap.has (getLeadKey lead) store) &&
              undatedOrRecent (parseDate rt now (leadDateStr lead)) targetDate) eqn:E.
    + apply andb_true_iff in E. destruct E as [Hnew Hrec].
      apply negb_true_iff in Hnew.
      rewrite (set_absent _ _ _ Hnew).
      destruct (IH (store ++ [(getLeadKey lead, structureFinalLead lead now)])%list)
        as (added & -> & Hadded).
      exists ((getLeadKey lead, structureFinalLead lead now) :: added).
      split; [now rewrite <- app_assoc|].
      simpl. constructor.
      * exists lead. auto.
      * eapply Forall_impl; [|exact Hadded].
        intros s (l & Hl & Hr & Hs). exists l. auto.
    + destruct (IH store) as (added & -> & Hadded).
      exists added. split; [reflexivity|].
      eapply Forall_impl; [|exact Hadded].
      intros s (l & Hl & Hr & Hs). exists l. auto.
Qed.

(** What the rescan appends carries no detail. *)
Lemma structureFinalLead_noDetails (lead : RawLead) (t : Z) :
  noDetails (structureFinalLead lead t).
Proof. repeat split. Qed.

(** The rescan keeps a new lead without a date. *)
Lemma finalRescan_keeps_undated (store : Store) (pre post : list RawLead) (lead : RawLead) :
  parseDate rt now (leadDateStr lead) = None ->
  JsMap.has (getLeadKey lead)
    (finalRescan rt now targetDate store (pre ++ lead :: post)%list) = true.
Proof.
  intros Hnone.
  assert (Hmono : forall ls st, JsMap.has (getLeadKey lead) st = true ->
            JsMap.has (getLeadKey lead) (finalRescan rt now targetDate st ls) = true).
  { intros ls st H. destruct (finalRescan_appends st ls) as (added & -> & _).
    rewrite has_app, H. reflexivity. }
  revert store. induction pre as [|l rest IH]; intros store; simpl.
  - rewrite Hnone. simpl. rewrite andb_true_r.
    destruct (JsMap.has (getLeadKey lead) store) eqn:Hhas; simpl.
    + now apply Hmono.
    + apply Hmono. rewrite (set_absent _ _ _ Hhas), has_app. simpl.
      rewrite String.eqb_refl. now rewrite orb_true_r.
  - destruct (negb (JsMap.has (getLeadKey l) store) &&
              undatedOrRecent (parseDate rt now (leadDateStr l)) targetDate); apply IH.
Qed.

End FilterFacts.

(** ** The collection loop *)

Section LoopFacts.

Variable W : Type.
Variable rt : Runtime.
Variable br : Browser W.
Variable o : Options.
Variable targetDate : Z.

(** What the second loop of a pass writes: every entry it sets is the
    structured form of a queued lead; without [extractDetails] the
    details are the [null]s the loop starts from. *)
Lemma processLeads_spec (P : StructuredLead -> Prop)
    (pend : list Pending) (store store' : Store) (w w' : W) :
  processLeads W br o pend store w = (Ok store', w') ->
  (forall p pid pagent ci now,
      In p pend ->
      (extractDetails o = false -> pid = Null /\ pagent = Null /\ ci = noContactInfo) ->
      P (structureLead (pLead p) pid pagent ci now)) ->
  Forall P (JsMap.values store) ->
  Forall P (JsMap.values store').
Proof.
  revert store w.
  induction pend as [|p rest IH]; intros store w H HP Hstore; simpl in H.
  - unfold ret in H. now injection H as <- _.
  - destruct (maxLeads o <=? JsMap.size store).
    + unfold ret in H. now injection H as <- _.
    + bind_inv H. destruct a as [[pid pagent] ci].
      bind_inv H. unfold ask in E0. injection E0 as <- <-.
      apply (IH _ _ H).
      * intros q pid' pagent' ci' now' Hq. apply HP. now right.
      * apply set_Forall; [|exact Hstore].
        apply HP; [now left|].
        intros Hno. rewrite Hno in E. unfold ret in E. injection E as <- <- <- _. auto.
Qed.

(** The second loop leaves the entries of earlier passes where and as
    they are, when the keys it sets are new to them. *)
Lemma processLeads_extends (pend : list Pending) (old extra store' : Store) (w w' : W) :
  processLeads W br o pend (old ++ extra)%list w = (Ok store', w') ->
  (forall p, In p pend -> JsMap.has (pKey p) old = false) ->
  exists extra', store' = (old ++ extra')%list.
Proof.
  revert extra w.
  induction pend as [|p rest IH]; intros extra w H Hnew; simpl in H.
  - unfold ret in H. injection H as <- _. eauto.
  - destruct (maxLeads o <=? JsMap.size (old ++ extra)%list).
    + unfold ret in H. injection H as <- _. eauto.
    + bind_inv H. destruct a as [[pid pagent] ci].
      bind_inv H. unfold ask in E0. injection E0 as <- <-.
      rewrite set_app_absent in H by (apply Hnew; now left).
      apply (IH _ _ H). intros q Hq. apply Hnew. now right.
Qed.

(** The second loop never shrinks the store. *)
Lemma processLeads_size (pend : list Pending) (store store' : Store) (w w' : W) :
  processLeads W br o pend store w = (Ok store', w') ->
  JsMap.size store <= JsMap.size store'.
Proof.
  revert store w.
  induction pend as [|p rest IH]; intros store w H; simpl in H.
  - unfold ret in H. injection H as <- _. lia.
  - destruct (maxLeads o <=? JsMap.size store).
    + unfold ret in H. injection H as <- _. lia.
    + bind_inv H. destruct a as [[pid pagent] ci].
      bind_inv H. unfold ask in E0. injection E0 as <- <-.
      apply IH in H.
      pose proof (set_size_le store (pKey p)
                    (structureLead (pLead p) pid pagent ci (clock br w0))).
      lia.
Qed.

(** The first half of a pass, taken apart. *)
Lemma scanPass_inv (st : LoopState) (w w' : W) (store : Store) (reached : bool) :
  scanPass W rt br o targetDate st w = (Ok (store, reached), w') ->
  exists visible w1,
    scrapeVisibleLeads W br (optStatus o) w = (Ok visible, w1) /\
    reached = snd (filterByDate rt (clock br w1) targetDate (allLeads st) visible) /\
    processLeads W br o
      (fst (filterByDate rt (clock br w1) targetDate (allLeads st) visible))
      (allLeads st) w1 = (Ok store, w').
Proof.
  unfold scanPass. intros H.
  bind_inv H. bind_inv H. unfold ask in E0. injection E0 as <- <-.
  exists a, w0. split; [exact E|].
  destruct (filterByDate rt (clock br w0) targetDate (allLeads st) a) as [pend r].
  bind_inv H. unfold ret in H. injection H as <- <- <-. auto.
Qed.

(** The second half of a pass, taken apart. *)
Lemma scrollPass_inv (st : LoopState) (store : Store) (w w' : W) (r : Pass) :
  scrollPass W rt br o targetDate st store w = (Ok r, w') ->
  let stalls :=
    if JsMap.size store - JsMap.size (allLeads st) =? 0
    then noNewLeadsCount st + 1 else 0 in
  exists scrollResult w1,
    scrollContainer W br w = (Ok scrollResult, w1) /\
    ((reachedEnd scrollResult = false /\
      r = Continue {| allLeads := store;
                      scrollCount := scrollCount st + 1;
                      noNewLeadsCount := stalls;
                      reachedTargetDate := false |})
     \/
     (reachedEnd scrollResult = true /\
      exists finalLeads w2,
        scrapeVisibleLeads W br (optStatus o) w2 = (Ok finalLeads, w') /\
        r = Break {| allLeads := finalRescan rt (clock br w') targetDate store finalLeads;
                     scrollCount := scrollCount st + 1;
                     noNewLeadsCount := stalls;
                     reachedTargetDate := false |})).
Proof.
  unfold scrollPass. intros H. simpl.
  bind_inv H. exists a, w0. split; [exact E|].
  destruct (reachedEnd a).
  - right. split; [reflexivity|].
    bind_inv H. bind_inv H. bind_inv H.
    unfold ask in E2. injection E2 as <- <-.
    unfold ret in H. injection H as <- <-. eauto.
  - left. split; [reflexivity|].
    unfold ret in H. now injection H as <- _.
Qed.

(** A pass, taken apart. *)
Lemma pass_inv (st : LoopState) (w w' : W) (r : Pass) :
  pass W rt br o targetDate st w = (Ok r, w') ->
  exists store reached w1 w2,
    JS.includes "/not_connected" (url br w) = false /\
    scanPass W rt br o targetDate st w1 = (Ok (store, reached), w2) /\
    ((reached = true /\
      r = Break {| allLeads := store;
                   scrollCount := scrollCount st;
                   noNewLeadsCount := noNewLeadsCount st;
                   reachedTargetDate := true |})
     \/
     (reached = false /\
      scrollPass W rt br o targetDate st store w2 = (Ok r, w'))).
Proof.
  unfold pass. intros H.
  bind_inv H. bind_inv H. destruct a0 as [store reached].
  exists store, reached, w0, w1.
  split.
  { unfold checkSessionActive in E.
    destruct (JS.includes "/not_connected" (url br w)); [discriminate | reflexivity]. }
  split; [exact E0|].
  destruct reached.
  - left. split; [reflexivity|]. unfold ret in H. now injection H as <- _.
  - right. auto.
Qed.

End LoopFacts.

Section RunFacts.

Variable W : Type.
Variable rt : Runtime.
Variable br : Browser W.
Variable o : Options.
Variable targetDate : Z.

Lemma pass_invariant (Q : RawLead -> Prop) (P : StructuredLead -> Prop)
    (st : LoopState) (w w' : W) (r : Pass) :
  scansYield br Q ->
  holdsOfBuilt rt br o targetDate Q P ->
  pass W rt br o targetDate st w = (Ok r, w') ->
  Forall P (JsMap.values (allLeads st)) ->
  Forall P (JsMap.values (allLeads (passState r))).
Proof.
  intros HQ [HP1 HP2] H Hst.
  destruct (pass_inv _ _ _ _ _ _ _ _ _ H) as (store & reached & w1 & w2 & _ & Hscan & Hr).
  destruct (scanPass_inv _ _ _ _ _ _ _ _ _ _ Hscan) as (visible & w3 & Hvis & _ & Hproc).
  pose proof (HQ _ _ _ _ Hvis) as Qvis. rewrite Forall_forall in Qvis.
  assert (Hstore : Forall P (JsMap.values store)).
  { apply (processLeads_spec _ _ _ P _ _ _ _ _ Hproc); [|exact Hst].
    intros p pid pagent ci now Hp Hno.
    destruct (filterByDate_pending _ _ _ _ _ _ Hp) as (Hin & _ & _ & Hold).
    apply (HP1 _ w3); auto. }
  destruct Hr as [[_ ->] | [_ Hscroll]]; [exact Hstore|].
  destruct (scrollPass_inv _ _ _ _ _ _ _ _ _ _ Hscroll)
    as (sr & w4 & _ & [[_ ->] | [_ (finalLeads & w5 & Hfin & ->)]]); simpl; [exact Hstore|].
  pose proof (HQ _ _ _ _ Hfin) as Qfin. rewrite Forall_forall in Qfin.
  destruct (finalRescan_appends rt (clock br w') targetDate store finalLeads)
    as (added & -> & Hadded).
  rewrite values_app. apply Forall_app. split; [exact Hstore|].
  eapply Forall_impl; [|exact Hadded].
  intros s (lead & Hin & Hrec & ->). apply HP2; auto.
Qed.

(** A pass leaves the entries it found in the store where and as they
    are, and adds after them. *)
Lemma pass_extends (st : LoopState) (w w' : W) (r : Pass) :
  pass W rt br o targetDate st w = (Ok r, w') ->
  exists extra, allLeads (passState r) = (allLeads st ++ extra)%list.
Proof.
  intros H.
  destruct (pass_inv _ _ _ _ _ _ _ _ _ H) as (store & reached & w1 & w2 & _ & Hscan & Hr).
  destruct (scanPass_inv _ _ _ _ _ _ _ _ _ _ Hscan) as (visible & w3 & Hvis & _ & Hproc).
  assert (Hstore : exists extra, store = (allLeads st ++ extra)%list).
  { rewrite <- (app_nil_r (allLeads st)) in Hproc at 2.
    apply (processLeads_extends _ _ _ _ _ _ _ _ _ Hproc).
    intros p Hp. now destruct (filterByDate_pending _ _ _ _ _ _ Hp) as (_ & _ & ? & _). }
  destruct Hstore as (extra & ->).
  destruct Hr as [[_ ->] | [_ Hscroll]]; [simpl; eauto|].
  destruct (scrollPass_inv _ _ _ _ _ _ _ _ _ _ Hscroll)
    as (sr & w4 & _ & [[_ ->] | [_ (finalLeads & w5 & Hfin & ->)]]); simpl; [eauto|].
  destruct (finalRescan_appends rt (clock br w') targetDate (allLeads st ++ extra)%list
              finalLeads) as (added & -> & _).
  exists (extra ++ added)%list. now rewrite app_assoc.
Qed.

(** The counters after a pass that goes on: one more scroll; one more
    stall when the store did not grow, none otherwise. *)
Lemma pass_counters (st st' : LoopState) (w w' : W) :
  pass W rt br o targetDate st w = (Ok (Continue st'), w') ->
  scrollCount st' = scrollCount st + 1 /\
  noNewLeadsCount st' =
    (if JsMap.size (allLeads st') =? JsMap.size (allLeads st)
     then noNewLeadsCount st + 1 else 0) /\
  reachedTargetDate st' = false.
Proof.
  intros H.
  destruct (pass_inv _ _ _ _ _ _ _ _ _ H) as (store & reached & w1 & w2 & _ & Hscan & Hr).
  destruct Hr as [[_ Hr] | [_ Hscroll]]; [discriminate|].
  destruct (scrollPass_inv _ _ _ _ _ _ _ _ _ _ Hscroll)
    as (sr & w4 & _ & [[_ Hr] | [_ (finalLeads & w5 & Hfin & Hr)]]); [|discriminate].
  injection Hr as ->. simpl. repeat split.
  destruct (JsMap.size store - JsMap.size (allLeads st) =? 0) eqn:E1;
    destruct (JsMap.size store =? JsMap.size (allLeads st)) eqn:E2;
    try reflexivity; lia.
Qed.




(** Enough fuel: with as many passes as scrolls are left, the loop ends. *)
Lemma collect_terminates (fuel : nat) (st : LoopState) (w : W) :
  maxScrolls o - scrollCount st <= Z.of_nat fuel ->
  fst (collect W rt br fuel o targetDate st w) <> Ok None.
Proof.
  revert st w. induction fuel as [|fuel IH]; intros st w Hfuel; simpl.
  - destruct (loopGuard o st) eqn:G; [|simpl; discriminate].
    unfold loopGuard in G. repeat (apply andb_true_iff in G; destruct G as [G ?]).
    apply Z.ltb_lt in G. lia.
  - destruct (loopGuard o st) eqn:G; [|simpl; discriminate].
    unfold bind.
    destruct (pass W rt br o targetDate st w) as [[[st'|st']|e] w1] eqn:Hp;
      simpl; try discriminate.
    apply IH. apply pass_counters in Hp. destruct Hp as (-> & _). lia.
Qed.

(** More fuel than needed changes nothing. *)
Lemma collect_fuel (fuel : nat) (st st' : LoopState) (w w' : W) :
  collect W rt br fuel o targetDate st w = (Ok (Some st'), w') ->
  collect W rt br (S fuel) o targetDate st w = (Ok (Some st'), w').
Proof.
  revert st w. induction fuel as [|fuel IH]; intros st w H.
  - simpl in H. simpl. destruct (loopGuard o st); [discriminate | exact H].
  - simpl in H.
    cbn [collect]. fold (collect W rt br).
    destruct (loopGuard o st); [|exact H].
    unfold bind in *.
    destruct (pass W rt br o targetDate st w) as [[[st1|st1]|e] w1]; try exact H.
    now apply IH.
Qed.

Lemma collect_invariant (Q : RawLead -> Prop) (P : StructuredLead -> Prop) (fuel : nat)
    (st st' : LoopState) (w w' : W) :
  scansYield br Q ->
  holdsOfBuilt rt br o targetDate Q P ->
  collect W rt br fuel o targetDate st w = (Ok (Some st'), w') ->
  Forall P (JsMap.values (allLeads st)) ->
  Forall P (JsMap.values (allLeads st')).
Proof.
  intros HQ HP. revert st w. induction fuel as [|fuel IH]; intros st w H Hst; simpl in H.
  - destruct (loopGuard o st); unfold ret in H; [discriminate|].
    now injection H as <- _.
  - destruct (loopGuard o st); [|unfold ret in H; now injection H as <- _].
    bind_inv H.
    pose proof (pass_invariant Q P _ _ _ _ HQ HP E Hst) as Hp.
    destruct a as [st1|st1]; simpl in Hp.
    + now apply (IH _ _ H).
    + unfold ret in H. now injection H as <- _.
Qed.

Lemma collect_extends (fuel : nat) (st st' : LoopState) (w w' : W) :
  collect W rt br fuel o targetDate st w = (Ok (Some st'), w') ->
  exists extra, allLeads st' = (allLeads st ++ extra)%list.
Proof.
  revert st w. induction fuel as [|fuel IH]; intros st w H; simpl in H.
  - destruct (loopGuard o st); unfold ret in H; [discriminate|].
    injection H as <- _. exists []. now rewrite app_nil_r.
  - destruct (loopGuard o st);
      [|unfold ret in H; injection H as <- _; exists []; now rewrite app_nil_r].
    bind_inv H.
    destruct (pass_extends _ _ _ _ E) as (extra & Hx).
    destruct a as [st1|st1]; simpl in Hx.
    + destruct (IH _ _ H) as (extra' & ->). rewrite Hx.
      exists (extra ++ extra')%list. now rewrite app_assoc.
    + unfold ret in H. injection H as <- _. eauto.
Qed.


End RunFacts.

(** ** The scan *)

(** The leads that the row loop returns are leads of the row parser. *)
Lemma classifyRows_parsed (targetStatus : string) (inTargetSection : bool)
    (rows : list jsval) :
  Forall (fun l => exists text, parseLeadFromText (Str text) = Some l)
         (classifyRows targetStatus inTargetSection rows).
Proof.
  revert inTargetSection.
  induction rows as [|row rest IH]; intros inT; simpl; [constructor|].
  destruct row as [| |text]; try apply IH.
  destruct (isSectionHeader text).
  - destruct (targetSectionHeader targetStatus) as [header|]; [|apply IH].
    destruct (JS.includes header text); [apply IH|].
    destruct (inT && negb (targetStatus =? "all")%string); [constructor | apply IH].
  - destruct (negb inT); [apply IH|].
    destruct (parseLeadFromText (Str text)) as [lead|] eqn:E; [|apply IH].
    destruct (JS.truthy (contactName lead)); [|apply IH].
    constructor; [eauto | apply IH].
Qed.

Lemma parsed_noVigencia (text : jsval) (l : RawLead) :
  parseLeadFromText text = Some l -> noVigencia l.
Proof.
  intros H. destruct (parseLeadFromText_some _ _ H) as (n & a & _ & ->). reflexivity.
Qed.

(** A scan returns leads of the row parser or, when there is none, the
    leads of the fallback. *)
Lemma scrapeVisibleLeads_yield (W : Type) (br : Browser W) (Q : RawLead -> Prop) :
  (forall text l, parseLeadFromText (Str text) = Some l -> Q l) ->
  (forall w found w', llmLeads br w = (Ok found, w') -> Forall Q found) ->
  scansYield br Q.
Proof.
  intros Hparsed Hllm targetStatus w found w' H.
  unfold scrapeVisibleLeads, tryCatch in H.
  match type of H with
  | match ?body w with _ => _ end = _ => destruct (body w) as [[r|e] w1] eqn:Hbody
  end.
  - injection H as <- <-.
    do 4 bind_inv Hbody.
    match type of Hbody with
    | match ?leads with _ => _ end _ = _ =>
        assert (Hl : Forall Q leads)
          by (eapply Forall_impl; [|apply classifyRows_parsed];
              intros l [text Ht]; eapply Hparsed; exact Ht);
        destruct leads as [|l0 ls]
    end.
    + bind_inv Hbody. destruct a3 as [|l1 ls1].
      * unfold ret in Hbody. injection Hbody as <- _. constructor.
      * unfold ret in Hbody. injection Hbody as <- _. eapply Hllm. exact E3.
    + unfold ret in Hbody. now injection Hbody as <- _.
  - destruct e as [msg|msg]; simpl in H.
    + unfold throw in H. discriminate.
    + unfold ret in H. injection H as <- _. constructor.
Qed.

Lemma parseDate_or_null (rt : Runtime) (now : Z) (v : jsval) :
  parseDate rt now (JS.or v Null) = parseDate rt now v.
Proof.
  unfold JS.or. destruct (JS.truthy v) eqn:T; [reflexivity|].
  unfold parseDate. now rewrite T.
Qed.

(** The date of a lead without [vigencia] is the date of the time stamp
    that is stored for it. *)
Lemma stamp_of_built (rt : Runtime) (now : Z) (lead : RawLead) (s : StructuredLead) :
  noVigencia lead -> builtFrom lead s ->
  parseDate rt now (leadLastUpdated s) = parseDate rt now (leadDateStr lead).
Proof.
  intros Hv (_ & _ & Hs). rewrite Hs, parseDate_or_null.
  unfold leadDateStr, JS.or. unfold noVigencia in Hv. now rewrite Hv.
Qed.

Section CollectFacts.

Variable W : Type.
Variable rt : Runtime.
Variable br : Browser W.
Variable o : Options.

(** [scrapeLeadsUntilDate], taken apart: a valid cutoff, then the loop
    from the initial state. *)
Lemma scrapeLeadsUntilDate_inv (td : Date) (w w' : W) (r : option (list StructuredLead)) :
  scrapeLeadsUntilDate W rt br td o w = (Ok r, w') ->
  exists target w1 final,
    td = ValidDate target /\
    collect W rt br (Z.to_nat (maxScrolls o)) o target initialState w1 = (Ok final, w') /\
    r = option_map (fun st => JsMap.values (allLeads st)) final.
Proof.
  unfold scrapeLeadsUntilDate. destruct td as [target|]; [|discriminate].
  intros H. do 6 bind_inv H. unfold ret in H. injection H as <- <-.
  exists target, w4, a4. auto.
Qed.

(** [scrapeLeadsUntilDate] never runs out of fuel. *)
Lemma scrapeLeadsUntilDate_returns (td : Date) (w : W) :
  fst (scrapeLeadsUntilDate W rt br td o w) <> Ok None.
Proof.
  destruct (scrapeLeadsUntilDate W rt br td o w) as [[[r|]|e] w'] eqn:H;
    simpl; try discriminate.
  exfalso.
  destruct (scrapeLeadsUntilDate_inv _ _ _ _ H) as (target & w1 & final & _ & Hc & Hr).
  destruct final; [discriminate|].
  apply (collect_terminates W rt br o target (Z.to_nat (maxScrolls o)) initialState w1).
  - simpl. lia.
  - now rewrite Hc.
Qed.

Lemma scrapeLeadsUntilDate_invariant (Q : RawLead -> Prop) (P : StructuredLead -> Prop)
    (target : Z) (w w' : W) (result : list StructuredLead) :
  scansYield br Q ->
  holdsOfBuilt rt br o target Q P ->
  scrapeLeadsUntilDate W rt br (ValidDate target) o w = (Ok (Some result), w') ->
  Forall P result.
Proof.
  intros HQ HP H.
  destruct (scrapeLeadsUntilDate_inv _ _ _ _ H) as (t & w1 & final & Ht & Hc & Hr).
  injection Ht as <-.
  destruct final as [st|]; [|discriminate]. injection Hr as ->.
  apply (collect_invariant W rt br o target Q P _ _ _ _ _ HQ HP Hc). constructor.
Qed.

(** When the scan of a pass reaches the cutoff, the pass is the last. *)
Lemma collect_reached (target : Z) (fuel : nat) (st : LoopState) (store : Store) (w w' : W) :
  loopGuard o st = true ->
  JS.includes "/not_connected" (url br w) = false ->
  scanPass W rt br o target st w = (Ok (store, true), w') ->
  collect W rt br (S fuel) o target st w
    = (Ok (Some {| allLeads := store;
                   scrollCount := scrollCount st;
                   noNewLeadsCount := noNewLeadsCount st;
                   reachedTargetDate := true |}), w').
Proof.
  intros G U H. simpl. rewrite G.
  unfold pass, bind, checkSessionActive. rewrite U, H. reflexivity.
Qed.

(** A session found closed at the start of a pass ends the loop with the
    session error. *)
Lemma collect_session_closed (target : Z) (fuel : nat) (st : LoopState) (w : W) :
  loopGuard o st = true ->
  JS.includes "/not_connected" (url br w) = true ->
  collect W rt br (S fuel) o target st w
    = (Throw (SessionClosedError sessionClosedMessage), w).
Proof.
  intros G U. simpl. rewrite G.
  unfold pass, bind, checkSessionActive. now rewrite U.
Qed.

End CollectFacts.

Lemma finalRescan_app (rt : Runtime) (now targetDate : Z) (store : Store)
    (pre post : list RawLead) :
  finalRescan rt now targetDate store (pre ++ post)%list
    = finalRescan rt now targetDate (finalRescan rt now targetDate store pre) post.
Proof.
  revert store. induction pre as [|l rest IH]; intros store; simpl; [reflexivity|].
  destruct (negb (JsMap.has (getLeadKey l) store) &&
            undatedOrRecent (parseDate rt now (leadDateStr l)) targetDate); apply IH.
Qed.

(** ** The cutoff *)

(** C3, as amended.  In the scan of a pass the first new lead whose date
    resolves strictly older than the cutoff sets [reachedTargetDate], the
    leads after it are not processed, and the pass is the last of the loop.
    The rescan at the end of the scroll has no such stop: it goes through
    all its leads and skips the older ones one by one.  Either way every
    lead of the returned array was built from a scanned lead whose date,
    resolved at the clock of its scan, was not strictly older than the
    cutoff; when no scanned lead has a [vigencia], that date is the stored
    time stamp.  A new lead without a date is kept by both. *)
Theorem cutoff_respected (W : Type) (rt : Runtime) (br : Browser W) (o : Options)
    (targetDate : Z) :
  (forall now store pre lead post,
      snd (filterByDate rt now targetDate store pre) = false ->
      JsMap.has (getLeadKey lead) store = false ->
      olderThan (parseDate rt now (leadDateStr lead)) targetDate = true ->
      filterByDate rt now targetDate store (pre ++ lead :: post)%list
        = (fst (filterByDate rt now targetDate store pre), true)) /\
  (forall fuel st store w w',
      loopGuard o st = true ->
      JS.includes "/not_connected" (url br w) = false ->
      scanPass W rt br o targetDate st w = (Ok (store, true), w') ->
      collect W rt br (S fuel) o targetDate st w
        = (Ok (Some {| allLeads := store;
                       scrollCount := scrollCount st;
                       noNewLeadsCount := noNewLeadsCount st;
                       reachedTargetDate := true |}), w')) /\
  (forall now store pre post,
      finalRescan rt now targetDate store (pre ++ post)%list
        = finalRescan rt now targetDate (finalRescan rt now targetDate store pre) post) /\
  (forall Q w w' result,
      scansYield br Q ->
      scrapeLeadsUntilDate W rt br (ValidDate targetDate) o w = (Ok (Some result), w') ->
      Forall (withinCutoff rt br Q targetDate) result) /\
  (forall w w' result,
      (forall w0 found w1, llmLeads br w0 = (Ok found, w1) -> Forall noVigencia found) ->
      scrapeLeadsUntilDate W rt br (ValidDate targetDate) o w = (Ok (Some result), w') ->
      Forall (stampWithinCutoff rt br targetDate) result) /\
  (forall now store pre lead post,
      snd (filterByDate rt now targetDate store pre) = false ->
      JsMap.has (getLeadKey lead) store = false ->
      parseDate rt now (leadDateStr lead) = None ->
      In lead (map pLead (fst (filterByDate rt now targetDate store (pre ++ lead :: post)%list)))) /\
  (forall now store pre lead post,
      parseDate rt now (leadDateStr lead) = None ->
      JsMap.has (getLeadKey lead)
        (finalRescan rt now targetDate store (pre ++ lead :: post)%list) = true).
Proof.
  assert (Hinv : forall Q w w' result,
             scansYield br Q ->
             scrapeLeadsUntilDate W rt br (ValidDate targetDate) o w = (Ok (Some result), w') ->
             Forall (withinCutoff rt br Q targetDate) result).
  { intros Q w w' result HQ H.
    apply (scrapeLeadsUntilDate_invariant W rt br o Q _ targetDate w w' result HQ); [|exact H].
    split.
    - intros lead w0 pid pagent ci now Hq Hold _.
      exists lead, w0. split; [exact Hq|]. split; [repeat split | exact Hold].
    - intros lead w0 Hq Hrec.
      exists lead, w0. split; [exact Hq|]. split; [repeat split|].
      now apply undatedOrRecent_not_older. }
  repeat apply conj.
  - intros now store pre lead post. apply filterByDate_stops.
  - intros fuel st store w w'. apply collect_reached.
  - intros now store pre post. apply finalRescan_app.
  - exact Hinv.
  - intros w w' result Hllm H.
    assert (HQ : scansYield br noVigencia).
    { apply scrapeVisibleLeads_yield; [|exact Hllm].
      intros text l. apply parsed_noVigencia. }
    pose proof (Hinv noVigencia w w' result HQ H) as Hall.
    eapply Forall_impl; [|exact Hall].
    intros s (lead & w0 & Hq & Hb & Hold).
    exists w0. now rewrite (stamp_of_built rt _ lead s Hq Hb).
  - intros now store pre lead post. apply filterByDate_keeps_undated.
  - intros now store pre lead post. apply finalRescan_keeps_undated.
Qed.

Lemma cutoff_respected_witness :
  (exists result,
      fst (scrapeLeadsUntilDate nat buenosAires (scripted scenario)
             (ValidDate demoTarget) scenarioOptions 0%nat) = Ok (Some result) /\
      List.length result = 1%nat /\
      Forall (stampWithinCutoff buenosAires (scripted scenario) demoTarget) result) /\
  filterByDate buenosAires demoNow demoTarget JsMap.empty scenarioLeads
    = (fst (filterByDate buenosAires demoNow demoTarget JsMap.empty (firstn 1 scenarioLeads)),
       true).
Proof.
  destruct (cutoff_respected nat buenosAires (scripted scenario) scenarioOptions demoTarget)
    as (Hstop & _ & _ & _ & Hinv & _).
  split.
  - destruct (scrapeLeadsUntilDate nat buenosAires (scripted scenario)
                (ValidDate demoTarget) scenarioOptions 0%nat)
      as [[[result|]|e] w'] eqn:E; try (vm_compute in E; discriminate E).
    exists result. split; [reflexivity|]. split.
    + vm_compute in E. injection E as <- _. reflexivity.
    + assert (Hllm : forall w0 found w1,
                llmLeads (scripted scenario) w0 = (Ok found, w1) -> Forall noVigencia found).
      { intros w0 found w1 H. simpl in H. injection H as <- _. constructor. }
      apply (Hinv _ _ _ Hllm E).
  - destruct scenarioLeads as [|l1 [|l2 post]] eqn:E;
      try (vm_compute in E; discriminate E).
    apply (Hstop demoNow JsMap.empty [l1] l2 post).
    + vm_compute in E. injection E as <- _ _. vm_compute. reflexivity.
    + reflexivity.
    + vm_compute in E. injection E as _ <- _. vm_compute. reflexivity.
Defined.

(** C3, the failing part.  In the rescan at the end of the scroll a new lead
    older than the cutoff is met ("Maria Paz", 2020), the flag stays unset
    and the row after it ("Pedro Luna") is processed and stored. *)
Lemma rescan_passes_older_lead :
  exists st older,
    fst (collect nat buenosAires (scripted lateFeed) 200 allOptions demoTarget
           initialState 0%nat) = Ok (Some st) /\
    nth_error (classifyRows "all" true lateRows) 1 = Some older /\
    olderThan (parseDate buenosAires demoNow (leadDateStr older)) demoTarget = true /\
    reachedTargetDate st = false /\
    JsMap.keys (allLeads st) = ["juan perez--"; "pedro luna--"].
Proof.
  eexists. eexists.
  split; [vm_compute; reflexivity|].
  split; [vm_compute; reflexivity|].
  repeat split; vm_compute; reflexivity.
Qed.

(** ** Termination *)



(** ** The ceiling on the number of leads *)


(** C7, at the failing input: with [maxLeads] 1 and two leads on screen the
    main pass stores one lead, the scroll reaches the end, and the rescan,
    which does not look at [maxLeads], stores the second: two leads are
    returned. *)
Theorem maxLeads_exceeded_by_rescan :
  exists result,
    fst (scrapeLeadsUntilDate nat buenosAires (scripted shortFeed)
           (ValidDate demoTarget) oneLeadOptions 0%nat) = Ok (Some result) /\
    map (fun s => Contact.name (contact s)) result = [Str "Juan Perez"; Str "Maria Paz"] /\
    maxLeads oneLeadOptions < Z.of_nat (List.length result).
Proof.
  eexists. split; [vm_compute; reflexivity|].
  split; [vm_compute; reflexivity | vm_compute; reflexivity].
Qed.

(** ** Duplicates *)

(** Leads whose keys are in the store are skipped by both loops: scanning
    rows that were scanned in an earlier pass changes nothing. *)
Lemma filterByDate_all_known (rt : Runtime) (now targetDate : Z) (store : Store)
    (visible : list RawLead) :
  Forall (fun l => JsMap.has (getLeadKey l) store = true) visible ->
  filterByDate rt now targetDate store visible = ([], false).
Proof.
  induction 1 as [|l rest Hl _ IH]; simpl; [reflexivity|]. now rewrite Hl.
Qed.

Lemma finalRescan_all_known (rt : Runtime) (now targetDate : Z) (store : Store)
    (visible : list RawLead) :
  Forall (fun l => JsMap.has (getLeadKey l) store = true) visible ->
  finalRescan rt now targetDate store visible = store.
Proof.
  induction 1 as [|l rest Hl _ IH]; simpl; [reflexivity|]. now rewrite Hl.
Qed.

(** C8, at the failing input.  Two rows of one contact are on screen in the
    same pass, with [extractDetails].  Both are queued, since the store is
    read before any of them is written.  The first is stored with the
    identifier and the agent read from its modal; the second, whose key is
    then in the store and whose link opens no modal, is stored over it: the
    identifier becomes [null] and the agent falls back to the one of the
    row.  The run returns that single entry. *)
Theorem same_pass_duplicate_overwrites :
  exists l1 l2 store1 store2 e1 e2,
    classifyRows "all" true sameContactRows = [l1; l2] /\
    fst (filterByDate buenosAires demoNow demoTarget JsMap.empty [l1; l2])
      = [pendingOf buenosAires demoNow l1; pendingOf buenosAires demoNow l2] /\
    fst (processLeads nat (scripted sameContactFeed) detailOptions
           [pendingOf buenosAires demoNow l1] JsMap.empty 0%nat) = Ok store1 /\
    JsMap.get (getLeadKey l2) store1 = Some e1 /\
    Property.id (property e1) = Str "AAP7427642" /\
    Agent.name (agent e1) = Str "Emiliano Grieve" /\
    fst (processLeads nat (scripted sameContactFeed) detailOptions
           [pendingOf buenosAires demoNow l2] store1 0%nat) = Ok store2 /\
    JsMap.size store2 = 1 /\
    JsMap.get (getLeadKey l2) store2 = Some e2 /\
    Property.id (property e2) = Null /\
    Agent.name (agent e2) = Str "Ana Gomez" /\
    fst (scrapeLeadsUntilDate nat buenosAires (scripted sameContactFeed)
           (ValidDate demoTarget) detailOptions 0%nat) = Ok (Some [e2]).
Proof.
  do 6 eexists.
  split; [vm_compute; reflexivity|].
  split; [vm_compute; reflexivity|].
  split; [vm_compute; reflexivity|].
  split; [vm_compute; reflexivity|].
  split; [vm_compute; reflexivity|].
  split; [vm_compute; reflexivity|].
  split; [vm_compute; reflexivity|].
  split; [vm_compute; reflexivity|].
  split; [vm_compute; reflexivity|].
  split; [vm_compute; reflexivity|].
  split; vm_compute; reflexivity.
Qed.

(** ** The shape of the leads *)

Lemma scansYield_True (W : Type) (br : Browser W) : scansYield br (fun _ => True).
Proof.
  intros targetStatus w found w' _. apply Forall_forall. intros l _. exact I.
Qed.

(** C10.  Every element of the returned array is a structured lead, built
    from a scanned row fragment.  Without [extractDetails] none of them
    carries an e-mail, a phone, a cell phone or a property identifier; and
    whatever [extractDetails] is, the pass that ends in the rescan leaves
    the store of its main scan as it is and appends entries that carry none
    of them. *)
Theorem details_absent (W : Type) (rt : Runtime) (br : Browser W) (o : Options)
    (targetDate : Z) :
  (forall Q w w' result,
      scansYield br Q ->
      scrapeLeadsUntilDate W rt br (ValidDate targetDate) o w = (Ok (Some result), w') ->
      Forall (fun s => exists lead, Q lead /\ builtFrom lead s) result) /\
  (forall w w' result,
      extractDetails o = false ->
      scrapeLeadsUntilDate W rt br (ValidDate targetDate) o w = (Ok (Some result), w') ->
      Forall noDetails result) /\
  (forall st store w w' st',
      scrollPass W rt br o targetDate st store w = (Ok (Break st'), w') ->
      exists added,
        allLeads st' = (store ++ added)%list /\
        Forall noDetails (JsMap.values added)) /\
  (forall now store finalLeads,
      exists added,
        finalRescan rt now targetDate store finalLeads = (store ++ added)%list /\
        Forall noDetails (JsMap.values added)).
Proof.
  assert (Hfinal : forall now store finalLeads,
            exists added,
              finalRescan rt now targetDate store finalLeads = (store ++ added)%list /\
              Forall noDetails (JsMap.values added)).
  { intros now store finalLeads.
    destruct (finalRescan_appends rt now targetDate store finalLeads) as (added & E & H).
    exists added. split; [exact E|].
    eapply Forall_impl; [|exact H].
    intros s (lead & _ & _ & ->). apply structureFinalLead_noDetails. }
  repeat apply conj.
  - intros Q w w' result HQ H.
    apply (scrapeLeadsUntilDate_invariant W rt br o Q _ targetDate w w' result HQ); [|exact H].
    split.
    + intros lead w0 pid pagent ci now Hq _ _. exists lead. repeat split. exact Hq.
    + intros lead w0 Hq _. exists lead. repeat split. exact Hq.
  - intros w w' result Hno H.
    apply (scrapeLeadsUntilDate_invariant W rt br o (fun _ => True) _ targetDate w w' result
             (scansYield_True W br)); [|exact H].
    split.
    + intros lead w0 pid pagent ci now _ _ Hd.
      destruct (Hd Hno) as (-> & _ & ->). repeat split.
    + intros lead w0 _ _. apply structureFinalLead_noDetails.
  - intros st store w w' st' H.
    destruct (scrollPass_inv _ _ _ _ _ _ _ _ _ _ H)
      as (sr & w1 & _ & [[_ Hr] | [_ (finalLeads & w2 & _ & Hr)]]); [discriminate|].
    injection Hr as ->. simpl. apply Hfinal.
  - exact Hfinal.
Qed.

Lemma details_absent_witness :
  exists result,
    fst (scrapeLeadsUntilDate nat buenosAires (scripted shortFeed)
           (ValidDate demoTarget) oneLeadOptions 0%nat) = Ok (Some result) /\
    List.length result = 2%nat /\
    Forall noDetails result.
Proof.
  destruct (details_absent nat buenosAires (scripted shortFeed) oneLeadOptions demoTarget)
    as (_ & H & _).
  destruct (scrapeLeadsUntilDate nat buenosAires (scripted shortFeed)
              (ValidDate demoTarget) oneLeadOptions 0%nat)
    as [[[result|]|e] w'] eqn:E; try (vm_compute in E; discriminate E).
  exists result. split; [reflexivity|]. split.
  - vm_compute in E. injection E as <- _. reflexivity.
  - apply (H _ _ _ eq_refl E).
Defined.

(** ** The orchestrator and the route *)

Section OrchestratorFacts.

Variable W : Type.
Variable rt : Runtime.
Variable br : Browser W.

(** The [try] block never ends without a value. *)
Lemma scrapeSession_returns (opts : ScrapeOptions) (w : W) :
  fst (scrapeSession W rt br opts w) <> Ok None.
Proof.
  destruct (scrapeSession W rt br opts w) as [[[r|]|e] w'] eqn:H;
    simpl; try discriminate.
  exfalso. unfold scrapeSession in H.
  do 6 bind_inv H. unfold ret in H. injection H as H _.
  destruct a2 as [found|]; [discriminate|].
  eapply (scrapeLeadsUntilDate_returns W rt br _ (soTargetDate opts) w2).
  rewrite E2. reflexivity.
Qed.

Lemma successResult_wellFormed (found : list StructuredLead) (now target : Z) :
  wellFormedResult (successResult found now target).
Proof. left. simpl. repeat split. eauto. Qed.

Lemma failureResult_wellFormed (e : Error) : wellFormedResult (failureResult e).
Proof. right. simpl. repeat split. eauto. Qed.

(** What the [try] and the [catch] return is one of the two results, and
    neither has the property [isSessionClosed]. *)
Lemma sessionResult_shape (opts : ScrapeOptions) (w : W) :
  exists r w',
    sessionResult W rt br opts w = (Some r, w') /\
    wellFormedResult r /\
    isSessionClosed r = Undefined /\
    (success r = true -> exists m, metadata r = Some m /\ mdTargetDate m = targetTime opts).
Proof.
  unfold sessionResult.
  pose proof (scrapeSession_returns opts w) as Hret.
  destruct (scrapeSession W rt br opts w) as [[[[found now]|]|e] w'].
  - eexists _, _. split; [reflexivity|]. split; [apply successResult_wellFormed|].
    split; [reflexivity|]. intros _. simpl. eauto.
  - now contradiction Hret.
  - eexists _, _. split; [reflexivity|]. split; [apply failureResult_wellFormed|].
    split; [reflexivity | discriminate].
Qed.

(** A run of [scrapeLeads], taken apart: the browser did not start and the
    failure is returned, or the session ran, its result [r] was about to be
    returned, and the browser was closed, which returned or threw. *)
Lemma scrapeLeads_inv (opts : ScrapeOptions) (w : W) :
  (exists e w1,
      startBrowser W br opts w = (Throw e, w1) /\
      scrapeLeads W rt br opts w = (Ok (Some (failureResult e)), w1))
  \/
  (exists w1 r w2,
      startBrowser W br opts w = (Ok tt, w1) /\
      sessionResult W rt br opts w1 = (Some r, w2) /\
      wellFormedResult r /\ isSessionClosed r = Undefined /\
      (success r = true ->
       exists m, metadata r = Some m /\ mdTargetDate m = targetTime opts) /\
      ((exists w3, closeBrowser br w2 = (Ok tt, w3) /\
                   scrapeLeads W rt br opts w = (Ok (Some r), w3))
       \/
       (exists e w3, closeBrowser br w2 = (Throw e, w3) /\
                     scrapeLeads W rt br opts w = (Throw e, w3)))).
Proof.
  unfold scrapeLeads.
  destruct (startBrowser W br opts w) as [[[]|e] w1]; [right | left; eauto].
  destruct (sessionResult_shape opts w1) as (r & w2 & E & Hwf & Hflag & Hmd).
  exists w1, r, w2. rewrite E.
  split; [reflexivity|]. split; [reflexivity|]. split; [exact Hwf|].
  split; [exact Hflag|]. split; [exact Hmd|].
  destruct (closeBrowser br w2) as [[[]|e] w3]; [left | right]; eauto.
Qed.

(** A value to which [scrapeLeads] resolves is one of the two results. *)
Lemma scrapeLeads_resolved (opts : ScrapeOptions) (w w' : W) (o : option ScrapeResult) :
  scrapeLeads W rt br opts w = (Ok o, w') ->
  exists r,
    o = Some r /\ wellFormedResult r /\ isSessionClosed r = Undefined /\
    (success r = true -> exists m, metadata r = Some m /\ mdTargetDate m = targetTime opts).
Proof.
  destruct (scrapeLeads_inv opts w)
    as [(e & w1 & _ & ->) | (w1 & r & w2 & _ & _ & Hwf & Hflag & Hmd & Hclose)].
  - intros H. injection H as <- _. exists (failureResult e).
    split; [reflexivity|]. split; [apply failureResult_wellFormed|].
    split; [reflexivity | discriminate].
  - destruct Hclose as [(w3 & _ & ->) | (e & w3 & _ & ->)]; [|discriminate].
    intros H. injection H as <- _. exists r. auto.
Qed.

(** Neither result of [scrapeLeads] makes the route answer with a code. *)
Lemma respond_without_code (opts : ScrapeOptions) (w w' : W) (r : ScrapeResult) :
  scrapeLeads W rt br opts w = (Ok (Some r), w') -> resCode (respond r) = None.
Proof.
  intros H. destruct (scrapeLeads_resolved _ _ _ _ H) as (r' & E & _ & Hflag & _).
  injection E as <-. unfold respond. rewrite Hflag.
  destruct (success r); reflexivity.
Qed.

End OrchestratorFacts.

(** C9, as amended.  For every options object and in every world,
    [scrapeLeads] resolves whenever closing the browser does not throw, and
    what it resolves to is a success with its metadata, [totalLeads] being
    the length of [leads], or a failure with an error message and no lead.
    It rejects only with an error that closing the browser threw, in the
    [finally] that no [catch] covers. *)
Theorem scrapeLeads_resolves (W : Type) (rt : Runtime) (br : Browser W)
    (opts : ScrapeOptions) (w : W) :
  (neverThrows (closeBrowser br) ->
   exists r w', scrapeLeads W rt br opts w = (Ok (Some r), w') /\ wellFormedResult r) /\
  (forall o w',
      scrapeLeads W rt br opts w = (Ok o, w') ->
      exists r, o = Some r /\ wellFormedResult r) /\
  (forall e w',
      scrapeLeads W rt br opts w = (Throw e, w') ->
      exists w2, closeBrowser br w2 = (Throw e, w')).
Proof.
  split; [|split].
  - intros Hclose.
    destruct (scrapeLeads_inv W rt br opts w)
      as [(e & w1 & _ & ->) | (w1 & r & w2 & _ & _ & Hwf & _ & _ & Hc)].
    + eexists _, _. split; [reflexivity | apply failureResult_wellFormed].
    + destruct Hc as [(w3 & _ & ->) | (e & w3 & Hthrow & _)].
      * eexists _, _. split; [reflexivity | exact Hwf].
      * now apply Hclose in Hthrow.
  - intros o w' H.
    destruct (scrapeLeads_resolved W rt br _ _ _ _ H) as (r & -> & Hwf & _). eauto.
  - intros e w' H.
    destruct (scrapeLeads_inv W rt br opts w)
      as [(e0 & w1 & _ & E) | (w1 & r & w2 & _ & _ & _ & _ & _ & Hc)].
    + rewrite E in H. discriminate H.
    + destruct Hc as [(w3 & _ & E) | (e0 & w3 & Hthrow & E)];
        rewrite E in H; [discriminate H|].
      injection H as <- <-. eauto.
Qed.

Lemma scrapeLeads_resolves_witness :
  exists r w',
    scrapeLeads nat buenosAires (scripted shortFeed) weekOptions 0%nat = (Ok (Some r), w') /\
    wellFormedResult r.
Proof.
  destruct (scrapeLeads_resolves nat buenosAires (scripted shortFeed) weekOptions 0%nat)
    as (H & _ & _).
  apply H. intros w0 e w1 E. discriminate E.
Defined.

(** C9, the failing part: the session runs and collects its leads, closing
    the browser throws, and the promise of [scrapeLeads] rejects with that
    error instead of resolving to one of the two results. *)
Lemma scrapeLeads_rejects_when_close_throws :
  (exists found w',
      sessionResult nat buenosAires (withoutClose shortFeed) weekOptions 0%nat
        = (Some found, w') /\ success found = true) /\
  fst (scrapeLeads nat buenosAires (withoutClose shortFeed) weekOptions 0%nat)
    = Throw (OtherError "Target closed") /\
  ~ exists r,
      fst (scrapeLeads nat buenosAires (withoutClose shortFeed) weekOptions 0%nat)
        = Ok (Some r).
Proof.
  split; [|split].
  - eexists _, _. split; vm_compute; reflexivity.
  - vm_compute. reflexivity.
  - intros [r H]. vm_compute in H. discriminate H.
Qed.

(** C1, at the failing input.  The session is closed from elsewhere after
    the first scroll, two leads being stored by then.  The session error
    leaves the loop and reaches the [catch] of [scrapeLeads], whose result
    keeps its message and no lead but has no [isSessionClosed]; the route
    therefore answers like for any other failure, without the code
    SESSION_CLOSED. *)
Theorem session_closed_without_code :
  exists r,
    fst (scrapeLeadsUntilDate nat buenosAires (scripted closedFeed)
           (ValidDate demoTarget) allOptions 0%nat)
      = Throw (SessionClosedError sessionClosedMessage) /\
    fst (scrapeLeads nat buenosAires (scripted closedFeed) weekOptions 0%nat)
      = Ok (Some r) /\
    r = failureResult (SessionClosedError sessionClosedMessage) /\
    isSessionClosed r = Undefined /\
    respond r = {| httpStatus := 500;
                   resSuccess := false;
                   resData := None;
                   resError := Some sessionClosedMessage;
                   resCode := None |} /\
    respond r = respond (failureResult (OtherError sessionClosedMessage)).
Proof.
  eexists.
  split; [vm_compute; reflexivity|].
  split; [vm_compute; reflexivity|].
  repeat split.
Qed.

(** * Further properties *)

(** ** The section classifier *)

Lemma parsed_truthy (text : jsval) (l : RawLead) :
  parseLeadFromText text = Some l -> JS.truthy (contactName l) = true.
Proof.
  intros H. destruct (parseLeadFromText_some _ _ H) as (n & a & Hm & ->).
  simpl. now rewrite (contactMatch_name _ _ _ Hm).
Qed.

Lemma targetSectionHeader_not_all (targetStatus header : string) :
  targetSectionHeader targetStatus = Some header ->
  String.eqb targetStatus "all" = false.
Proof.
  intros H. destruct (String.eqb targetStatus "all") eqn:E; [|reflexivity].
  apply String.eqb_eq in E. subst. discriminate.
Qed.

(** Inside the target section, up to the next header, the row loop returns
    the leads of the data rows. *)
Lemma classifyRows_body (targetStatus : string) (body rest : list jsval) :
  forallb (fun r => negb (isHeaderRow r)) body = true ->
  classifyRows targetStatus true (body ++ rest)%list
    = (dataLeads body ++ classifyRows targetStatus true rest)%list.
Proof.
  induction body as [|row body IH]; simpl; [reflexivity|].
  intros H. apply andb_true_iff in H. destruct H as [Hrow Hbody].
  destruct row as [| |text]; simpl; try now apply IH.
  simpl in Hrow. apply negb_true_iff in Hrow. rewrite Hrow.
  destruct (parseLeadFromText (Str text)) as [lead|] eqn:E; [|now apply IH].
  rewrite (parsed_truthy _ _ E). simpl. now rewrite IH.
Qed.

(** X1.  Section isolation.  When a section of the table is requested, the
    scan of the rows returns the leads of the data rows that stand between
    the first header of that section and the next header, and nothing else:
    the rows before the header and the rows from the next header on
    contribute no lead. *)
Theorem classifyRows_section (targetStatus header : string)
    (pre body rest : list jsval) (hdr : jsval) :
  targetSectionHeader targetStatus = Some header ->
  forallb (fun r => negb (isHeaderOf header r)) pre = true ->
  isHeaderOf header hdr = true ->
  forallb (fun r => negb (isHeaderRow r)) body = true ->
  match rest with
  | [] => True
  | next :: _ => isHeaderRow next = true /\ isHeaderOf header next = false
  end ->
  classifyRows targetStatus false (pre ++ hdr :: body ++ rest)%list = dataLeads body.
Proof.
  intros Ht Hpre Hhdr Hbody Hrest.
  pose proof (targetSectionHeader_not_all _ _ Ht) as Hall.
  induction pre as [|row pre IH]; simpl.
  - destruct hdr as [| |text]; try discriminate.
    simpl in Hhdr. apply andb_true_iff in Hhdr. destruct Hhdr as [H1 H2].
    rewrite H1, Ht, H2.
    rewrite (classifyRows_body _ _ _ Hbody).
    destruct rest as [|next post]; simpl; [now rewrite app_nil_r|].
    destruct Hrest as [Hn Hno].
    destruct next as [| |t]; try discriminate.
    simpl in Hn, Hno. rewrite Hn in *. simpl in Hno.
    rewrite Ht, Hno, Hall. simpl. now rewrite app_nil_r.
  - simpl in Hpre. apply andb_true_iff in Hpre. destruct Hpre as [Hrow Hpre].
    destruct row as [| |text]; simpl; try now apply IH.
    simpl in Hrow. apply negb_true_iff in Hrow.
    destruct (isSectionHeader text); simpl in Hrow.
    + rewrite Ht, Hrow. simpl. now apply IH.
    + simpl. now apply IH.
Qed.

Lemma classifyRows_section_witness :
  classifyRows "pendiente_contactar" false
    ([Str "Sin Seguimiento (1)"; Str "Rosa Diaz (Ana Gomez) Peru 10 26/11/2025 08:15"] ++
     Str "Pendiente contactar (1)" ::
     [Str "Juan Perez (Ana Gomez) Colombres 148 2 26/11/2025 08:15"] ++
     [Str "Evolucionando (1)"; Str "Luis Sosa (Ana Gomez) Salta 5 26/11/2025 08:15"])%list
  = dataLeads [Str "Juan Perez (Ana Gomez) Colombres 148 2 26/11/2025 08:15"].
Proof.
  apply (classifyRows_section "pendiente_contactar" "Pendiente contactar").
  - reflexivity.
  - vm_compute. reflexivity.
  - vm_compute. reflexivity.
  - vm_compute. reflexivity.
  - split; vm_compute; reflexivity.
Defined.



(** ** Matchers *)

Section MatcherFacts.

Lemma andThen_inv (m1 m2 : matcher) (s r : string) :
  (m1 >> m2) s = Some r -> exists mid, m1 s = Some mid /\ m2 mid = Some r.
Proof.
  unfold andThen. destruct (m1 s) as [mid|]; [eauto | discriminate].
Qed.

Lemma chr_inv (a : ascii) (s r : string) : chr a s = Some r -> s = String a r.
Proof.
  unfold chr. destruct s as [|c t]; [discriminate|].
  destruct (Ascii.eqb a c) eqn:E; [|discriminate].
  apply Ascii.eqb_eq in E. intros H. injection H as ->. now subst.
Qed.

Lemma digitsN_inv (n : nat) (s r : string) :
  digitsN n s = Some r ->
  exists p, s = (p ++ r)%string /\ String.length p = n /\ allChars JS.isDigit p = true.
Proof.
  revert s. induction n as [|n IH]; intros s; simpl.
  - intros H. injection H as ->. exists EmptyString. auto.
  - destruct s as [|c t]; [discriminate|].
    destruct (JS.isDigit c) eqn:E; [|discriminate].
    intros H. destruct (IH _ H) as (p & -> & Hl & Hd).
    exists (String c p). simpl. rewrite E, Hd, Hl. auto.
Qed.

Lemma digitsN_app (p r : string) :
  allChars JS.isDigit p = true -> digitsN (String.length p) (p ++ r) = Some r.
Proof.
  induction p as [|c p IH]; simpl; [reflexivity|].
  intros H. apply andb_true_iff in H. destruct H as [Hc Hp]. rewrite Hc. now apply IH.
Qed.

Lemma takeWhile_allChars (p : ascii -> bool) (s : string) :
  allChars p (JS.takeWhile p s) = true.
Proof.
  induction s as [|c t IH]; simpl; [reflexivity|].
  destruct (p c) eqn:E; simpl; [now rewrite E|reflexivity].
Qed.

Lemma spaces1_inv (s r : string) :
  spaces1 s = Some r ->
  exists p, s = (p ++ r)%string /\ allChars JS.isSpace p = true.
Proof.
  unfold spaces1. destruct s as [|c t]; [discriminate|].
  destruct (JS.isSpace c) eqn:E; [|discriminate].
  intros H. injection H as <-.
  exists (String c (JS.takeWhile JS.isSpace t)). simpl.
  rewrite take_drop_while, E, takeWhile_allChars. auto.
Qed.

Lemma search_sound (m : matcher) (s from rest : string) :
  search m s = Some (from, rest) -> m from = Some rest.
Proof.
  induction s as [|c t IH]; simpl.
  - destruct (m EmptyString) eqn:E; [|discriminate].
    intros H. injection H as <- <-. exact E.
  - destruct (m (String c t)) eqn:E.
    + intros H. injection H as <- <-. exact E.
    + exact IH.
Qed.

Lemma search_here (m : matcher) (s rest : string) :
  m s = Some rest -> search m s = Some (s, rest).
Proof. intros H. destruct s; simpl; now rewrite H. Qed.

Lemma length_append (a b : string) :
  String.length (a ++ b) = (String.length a + String.length b)%nat.
Proof. induction a as [|c a IH]; simpl; [reflexivity | now rewrite IH]. Qed.

Lemma take_app (a b : string) : JS.take (String.length a) (a ++ b) = a.
Proof. induction a as [|c a IH]; simpl; [now destruct b | now rewrite IH]. Qed.

Lemma consumed_app (a b : string) : consumed (a ++ b) b = a.
Proof.
  unfold consumed. rewrite length_append.
  replace (String.length a + String.length b - String.length b)%nat
    with (String.length a) by lia.
  apply take_app.
Qed.

Lemma allChars_app (p : ascii -> bool) (a b : string) :
  allChars p (a ++ b) = allChars p a && allChars p b.
Proof.
  induction a as [|c a IH]; simpl; [reflexivity|]. now rewrite IH, andb_assoc.
Qed.

Lemma allChars_impl (p q : ascii -> bool) (s : string) :
  (forall c, p c = true -> q c = true) -> allChars p s = true -> allChars q s = true.
Proof.
  intros Hpq. induction s as [|c t IH]; simpl; [reflexivity|].
  intros H. apply andb_true_iff in H. destruct H as [Hc Ht].
  now rewrite (Hpq _ Hc), IH.
Qed.

Lemma allChars_dropWhile (p q : ascii -> bool) (s : string) :
  allChars p s = true -> allChars p (JS.dropWhile q s) = true.
Proof.
  induction s as [|c t IH]; simpl; [reflexivity|].
  intros H. destruct (q c); [|exact H].
  apply andb_true_iff in H. now apply IH.
Qed.

Lemma allChars_trimEnd (p : ascii -> bool) (s : string) :
  allChars p s = true -> allChars p (JS.trimEnd s) = true.
Proof.
  induction s as [|c t IH]; simpl; [reflexivity|].
  intros H. apply andb_true_iff in H. destruct H as [Hc Ht].
  destruct (JS.isSpace c && JS.isEmpty (JS.trimEnd t)); simpl; [reflexivity|].
  now rewrite Hc, IH.
Qed.

Lemma allChars_trim (p : ascii -> bool) (s : string) :
  allChars p s = true -> allChars p (JS.trim s) = true.
Proof.
  intros H. unfold JS.trim. now apply allChars_trimEnd, allChars_dropWhile.
Qed.

(** A text does not include a word whose first character it lacks. *)
Lemma includes_absent (p : ascii -> bool) (c : ascii) (w s : string) :
  p c = false -> allChars p s = true -> JS.includes (String c w) s = false.
Proof.
  intros Hc. induction s as [|d t IH]; simpl; [reflexivity|].
  intros H. apply andb_true_iff in H. destruct H as [Hd Ht].
  destruct (ascii_dec c d) as [->|Hne]; [congruence|].
  rewrite (IH Ht), orb_false_r. reflexivity.
Qed.

Lemma stampChar_lower (c : ascii) :
  stampChar c = true -> JS.lowerChar c = c /\ JS.lowerLatin c = c.
Proof.
  destruct c as [[] [] [] [] [] [] [] []]; vm_compute; intros H;
    try (split; reflexivity); discriminate H.
Qed.

Lemma stamp_lowerFrom (afterLead : bool) (s : string) :
  allChars stampChar s = true -> JS.lowerFrom afterLead s = s.
Proof.
  revert afterLead. induction s as [|c t IH]; intros afterLead; simpl; [reflexivity|].
  intros H. apply andb_true_iff in H. destruct H as [Hc Ht].
  destruct (stampChar_lower _ Hc) as [-> ->]. rewrite (IH _ Ht).
  now destruct afterLead.
Qed.

Lemma stamp_toLowerCase (s : string) :
  allChars stampChar s = true -> JS.toLowerCase s = s.
Proof. apply stamp_lowerFrom. Qed.

End MatcherFacts.

(** ** Time stamps *)

Section StampFacts.

Lemma append_String (a : string) (c : ascii) (b : string) :
  (String c a ++ b)%string = String c (a ++ b).
Proof. reflexivity. Qed.

Lemma append_assoc (a b c : string) : ((a ++ b) ++ c)%string = (a ++ (b ++ c))%string.
Proof. induction a as [|x a IH]; simpl; [reflexivity | now rewrite IH]. Qed.

Lemma digits12Slash_two (p r : string) :
  String.length p = 2%nat -> allChars JS.isDigit p = true ->
  digits12Slash (p ++ String "/" r) = Some r.
Proof.
  intros Hl Hd. unfold digits12Slash, andThen.
  rewrite <- Hl, (digitsN_app p _ Hd). simpl. reflexivity.
Qed.

(** The text that the time-stamp pattern matches is made of digits, white
    space, slashes and a colon, and starts with a day, a month and a year
    that the day/month/year pattern reads. *)
Lemma dateMatch_shape (s d : string) :
  dateMatch s = Some d ->
  allChars stampChar d = true /\
  d <> EmptyString /\
  exists rest, (digits12Slash >> digits12Slash >> digitsN 4) d = Some rest.
Proof.
  unfold dateMatch.
  destruct (search dateTimeRe s) as [[from rest]|] eqn:E; [|discriminate].
  intros H. injection H as <-.
  apply search_sound in E. unfold dateTimeRe in E.
  apply andThen_inv in E. destruct E as (m1 & H1 & E).
  apply andThen_inv in E. destruct E as (m2 & H2 & E).
  apply andThen_inv in E. destruct E as (m3 & H3 & E).
  apply andThen_inv in E. destruct E as (m4 & H4 & E).
  apply andThen_inv in E. destruct E as (m5 & H5 & E).
  apply andThen_inv in E. destruct E as (m6 & H6 & E).
  apply andThen_inv in E. destruct E as (m7 & H7 & E).
  apply andThen_inv in E. destruct E as (m8 & H8 & H9).
  apply digitsN_inv in H1. destruct H1 as (p1 & -> & L1 & D1).
  apply chr_inv in H2. subst m1.
  apply digitsN_inv in H3. destruct H3 as (p2 & -> & L2 & D2).
  apply chr_inv in H4. subst m3.
  apply digitsN_inv in H5. destruct H5 as (p3 & -> & L3 & D3).
  apply spaces1_inv in H6. destruct H6 as (ws & -> & Dw).
  apply digitsN_inv in H7. destruct H7 as (p4 & -> & L4 & D4).
  apply chr_inv in H8. subst m7.
  apply digitsN_inv in H9. destruct H9 as (p5 & -> & L5 & D5).
  set (tail := (p3 ++ ws ++ p4 ++ String ":" p5)%string).
  assert (Hsplit : (p1 ++ String "/" (p2 ++ String "/" (p3 ++ ws ++ p4 ++ String ":" (p5 ++ rest))))%string
                   = ((p1 ++ String "/" (p2 ++ String "/" tail)) ++ rest)%string).
  { unfold tail.
    now rewrite !append_assoc, !append_String, !append_assoc, !append_String, !append_assoc. }
  rewrite Hsplit, consumed_app.
  assert (digit_stamp : forall c, JS.isDigit c = true -> stampChar c = true).
  { intros c Hc. unfold stampChar. now rewrite Hc. }
  assert (space_stamp : forall c, JS.isSpace c = true -> stampChar c = true).
  { intros c Hc. unfold stampChar. rewrite Hc. now rewrite orb_true_r. }
  split; [|split].
  - unfold tail.
    repeat (rewrite allChars_app || simpl).
    rewrite (allChars_impl _ _ _ digit_stamp D1), (allChars_impl _ _ _ digit_stamp D2),
      (allChars_impl _ _ _ digit_stamp D3), (allChars_impl _ _ _ space_stamp Dw),
      (allChars_impl _ _ _ digit_stamp D4), (allChars_impl _ _ _ digit_stamp D5).
    reflexivity.
  - destruct p1; [discriminate L1 | discriminate].
  - unfold andThen.
    rewrite (digits12Slash_two p1 _ L1 D1), (digits12Slash_two p2 _ L2 D2).
    unfold tail. rewrite <- L3, (digitsN_app p3 _ D3). eauto.
Qed.

(** The date of a time stamp of the table is the one of the generic parser
    of the runtime or, when that rejects it, the one of the day/month/year
    rule: the relative rules do not apply, and the instant plays no role. *)
Lemma parseDate_stamp (rt : Runtime) (now : Z) (s d : string) :
  dateMatch s = Some d ->
  exists day month year,
    ddmmyyyyMatch d = Some (day, month, year) /\
    parseDate rt now (Str d) =
      match Date_parse rt d with
      | ValidDate t => Some (ValidDate t)
      | InvalidDate => Some (newDateYMD rt year (month - 1) day)
      end.
Proof.
  intros H. destruct (dateMatch_shape _ _ H) as (Hc & Hne & rest & Hm).
  unfold ddmmyyyyMatch. rewrite (search_here _ _ _ Hm).
  do 3 eexists. split; [reflexivity|].
  rewrite parseDate_rules by exact Hne.
  pose proof (allChars_trim _ _ Hc) as Ht.
  rewrite (stamp_toLowerCase _ Ht).
  unfold relativeDays, haceMillis.
  rewrite (includes_absent stampChar "a" _ _ eq_refl Ht).
  rewrite (includes_absent stampChar "d" _ _ eq_refl Ht).
  rewrite (includes_absent stampChar "m" _ _ eq_refl Ht).
  rewrite (includes_absent stampChar "h" _ _ eq_refl Ht).
  simpl. unfold ddmmyyyyMatch. rewrite (search_here _ _ _ Hm). reflexivity.
Qed.

End StampFacts.

(** X3.  A lead that the row parser gives a time stamp is never undated:
    the stamp bears a day, a month and a year, and the date of the lead is
    the one of the generic parser of the runtime or, when that rejects the
    stamp, local midnight of that day; the relative rules never apply, so
    the date is the same at whatever instant it is resolved. *)
Theorem parsed_stamp_resolves (rt : Runtime) (text : jsval) (l : RawLead) :
  parseLeadFromText text = Some l ->
  lastUpdated l <> Null ->
  exists stamp day month year,
    lastUpdated l = Str stamp /\
    ddmmyyyyMatch stamp = Some (day, month, year) /\
    forall now,
      parseDate rt now (leadDateStr l) =
        match Date_parse rt stamp with
        | ValidDate t => Some (ValidDate t)
        | InvalidDate => Some (newDateYMD rt year (month - 1) day)
        end.
Proof.
  intros H Hstamp.
  destruct (parseLeadFromText_some _ _ H) as (n & a & _ & ->).
  simpl in Hstamp. unfold leadDateStr, JS.or. simpl.
  destruct (dateMatch (cleanRow (JS.orEmpty text))) as [d|] eqn:E; [|congruence].
  destruct (parseDate_stamp rt 0 _ _ E) as (day & month & year & Hm & _).
  exists d, day, month, year. split; [reflexivity|]. split; [exact Hm|].
  intros now.
  destruct (parseDate_stamp rt now _ _ E) as (d2 & m2 & y2 & Hm2 & Hp).
  rewrite Hm in Hm2. injection Hm2 as <- <- <-.
  destruct (dateMatch_shape _ _ E) as (_ & Hne & _).
  destruct d; [congruence|]. exact Hp.
Qed.

Lemma parsed_stamp_resolves_witness :
  exists l,
    parseLeadFromText (Str "Juan Perez (Ana Gomez) Colombres 148 2 26/11/2025 08:15") = Some l /\
    parseDate buenosAires demoNow (leadDateStr l) = parseDate buenosAires 0 (leadDateStr l) /\
    parseDate buenosAires demoNow (leadDateStr l) <> None.
Proof.
  destruct (parseLeadFromText (Str "Juan Perez (Ana Gomez) Colombres 148 2 26/11/2025 08:15"))
    as [l|] eqn:E; [|vm_compute in E; discriminate E].
  assert (Hs : lastUpdated l <> Null).
  { vm_compute in E. injection E as <-. discriminate. }
  destruct (parsed_stamp_resolves buenosAires _ l E Hs)
    as (stamp & day & month & year & _ & _ & Hd).
  exists l. split; [reflexivity|]. rewrite !Hd. split; [reflexivity|].
  destruct (Date_parse buenosAires stamp); discriminate.
Defined.

(** ** Errors of the page *)

Section ErrorFacts.

Variable W : Type.
Variable rt : Runtime.
Variable br : Browser W.

Lemma neverThrows_only {A} (c : M W A) : neverThrows c -> throwsOnlySession c.
Proof. intros H w e w' E. now apply H in E. Qed.

Lemma only_ret {A} (a : A) : throwsOnlySession (@ret W A a).
Proof. intros w e w' E. discriminate E. Qed.

Lemma only_step (f : W -> W) : throwsOnlySession (step f).
Proof. intros w e w' E. discriminate E. Qed.

Lemma only_ask {A} (f : W -> A) : throwsOnlySession (ask f).
Proof. intros w e w' E. discriminate E. Qed.

Lemma only_bind {A B} (c : M W A) (k : A -> M W B) :
  throwsOnlySession c -> (forall a, throwsOnlySession (k a)) ->
  throwsOnlySession (bind c k).
Proof.
  intros Hc Hk w e w' E. unfold bind in E.
  destruct (c w) as [[a|e0] w1] eqn:Ec.
  - exact (Hk a _ _ _ E).
  - injection E as <- <-. exact (Hc _ _ _ Ec).
Qed.

(** A [catch] that throws session errors again and replaces the others lets
    nothing but session errors out, whatever the [try] block throws. *)
Lemma only_tryCatch {A} (body fallback : M W A) :
  throwsOnlySession fallback ->
  throwsOnlySession (tryCatch body (rethrowSession fallback)).
Proof.
  intros Hf w e w' E. unfold tryCatch in E.
  destruct (body w) as [[a|e0] w1]; [discriminate|].
  destruct e0 as [m|m]; simpl in E.
  - unfold throw in E. now injection E as <- _.
  - exact (Hf _ _ _ E).
Qed.

Lemma only_checkSessionActive : throwsOnlySession (checkSessionActive W br).
Proof.
  intros w e w' E. unfold checkSessionActive in E.
  destruct (JS.includes "/not_connected" (url br w)); [|discriminate].
  now injection E as <- _.
Qed.

Lemma only_waitForNetworkIdle : throwsOnlySession (waitForNetworkIdle W br).
Proof.
  apply only_bind; [apply only_step | intros _; apply only_checkSessionActive].
Qed.

Lemma only_scrapeVisibleLeads (targetStatus : string) :
  throwsOnlySession (scrapeVisibleLeads W br targetStatus).
Proof. apply only_tryCatch, only_ret. Qed.

Lemma only_extractPropertyDetails (lead : RawLead) :
  throwsOnlySession (extractPropertyDetails W br lead).
Proof. apply only_tryCatch, only_ret. Qed.

Lemma only_extractContactDetails (lead : RawLead) :
  throwsOnlySession (extractContactDetails W br lead).
Proof. apply only_tryCatch, only_ret. Qed.

Lemma only_processLeads (o : Options) (pend : list Pending) (store : Store) :
  throwsOnlySession (processLeads W br o pend store).
Proof.
  revert store. induction pend as [|p rest IH]; intros store; simpl.
  - apply only_ret.
  - destruct (maxLeads o <=? JsMap.size store); [apply only_ret|].
    apply only_bind.
    + destruct (extractDetails o); [|apply only_ret].
      apply only_bind; [apply only_extractPropertyDetails|]. intros l.
      apply only_bind; [apply only_extractContactDetails|]. intros c.
      apply only_ret.
    + intros [[pid pagent] ci].
      apply only_bind; [apply only_ask|]. intros now. apply IH.
Qed.

Lemma only_scanPass (o : Options) (target : Z) (st : LoopState) :
  throwsOnlySession (scanPass W rt br o target st).
Proof.
  unfold scanPass.
  apply only_bind; [apply only_scrapeVisibleLeads|]. intros visible.
  apply only_bind; [apply only_ask|]. intros now.
  destruct (filterByDate rt now target (allLeads st) visible) as [pend reached].
  apply only_bind; [apply only_processLeads|]. intros store. apply only_ret.
Qed.

Hypothesis scrollDown_only : throwsOnlySession (scrollDown br).

Lemma only_scrollContainer : throwsOnlySession (scrollContainer W br).
Proof.
  unfold scrollContainer.
  apply only_bind; [apply only_checkSessionActive|]. intros _.
  apply only_bind; [exact scrollDown_only|]. intros r.
  apply only_bind; [apply only_waitForNetworkIdle|]. intros _.
  apply only_bind; [apply only_checkSessionActive|]. intros _.
  apply only_ret.
Qed.

Lemma only_scrollPass (o : Options) (target : Z) (st : LoopState) (store : Store) :
  throwsOnlySession (scrollPass W rt br o target st store).
Proof.
  unfold scrollPass.
  apply only_bind; [apply only_scrollContainer|]. intros r.
  destruct (reachedEnd r); [|apply only_ret].
  apply only_bind; [apply only_waitForNetworkIdle|]. intros _.
  apply only_bind; [apply only_scrapeVisibleLeads|]. intros l.
  apply only_bind; [apply only_ask|]. intros now. apply only_ret.
Qed.

Lemma only_pass (o : Options) (target : Z) (st : LoopState) :
  throwsOnlySession (pass W rt br o target st).
Proof.
  unfold pass.
  apply only_bind; [apply only_checkSessionActive|]. intros _.
  apply only_bind; [apply only_scanPass|]. intros [store reached].
  destruct reached; [apply only_ret | apply only_scrollPass].
Qed.

Lemma only_collect (fuel : nat) (o : Options) (target : Z) (st : LoopState) :
  throwsOnlySession (collect W rt br fuel o target st).
Proof.
  revert st. induction fuel as [|fuel IH]; intros st; simpl;
    destruct (loopGuard o st); try apply only_ret.
  apply only_bind; [apply only_pass|]. intros [st'|st']; [apply IH | apply only_ret].
Qed.

End ErrorFacts.

(** X4.  Once the date of the cutoff is valid, a run fails with nothing but
    a closed session, provided that the two scroll evaluations of the page
    do not throw: whatever the filters, the toggle, the wait for the
    table, the reading of the rows, the fallback extraction, the modals
    and the popovers throw is caught on the way, and the run goes on. *)
Theorem page_errors_contained (W : Type) (rt : Runtime) (br : Browser W)
    (target : Z) (o : Options) (w w' : W) (e : Error) :
  neverThrows (scrollToTop br) ->
  neverThrows (scrollDown br) ->
  scrapeLeadsUntilDate W rt br (ValidDate target) o w = (Throw e, w') ->
  isSessionClosedError e = true.
Proof.
  intros Htop Hdown. revert w e w'.
  change (throwsOnlySession (scrapeLeadsUntilDate W rt br (ValidDate target) o)).
  unfold scrapeLeadsUntilDate.
  apply only_bind; [apply only_tryCatch, only_ret|]. intros _.
  apply only_bind.
  { destruct (_ || _); [apply only_tryCatch, only_ret | apply only_ret]. }
  intros _.
  apply only_bind; [apply only_waitForNetworkIdle|]. intros _.
  apply only_bind; [apply neverThrows_only, Htop|]. intros _.
  apply only_bind; [apply only_waitForNetworkIdle|]. intros _.
  apply only_bind; [apply only_collect, neverThrows_only, Hdown|]. intros final.
  apply only_ret.
Qed.

Lemma page_errors_contained_witness :
  exists e w',
    scrapeLeadsUntilDate nat buenosAires (scripted closedFeed) (ValidDate demoTarget)
      allOptions 0%nat = (Throw e, w') /\
    isSessionClosedError e = true.
Proof.
  destruct (scrapeLeadsUntilDate nat buenosAires (scripted closedFeed) (ValidDate demoTarget)
              allOptions 0%nat) as [[r|e] w'] eqn:E; [vm_compute in E; discriminate E|].
  exists e, w'. split; [reflexivity|].
  apply (page_errors_contained nat buenosAires (scripted closedFeed) demoTarget allOptions
           0%nat w' e); [intros w0 e0 w1 H; discriminate H | intros w0 e0 w1 H; discriminate H | exact E].
Defined.

(** ** The ceiling on the number of leads, away from the end of the scroll *)

Section CeilingFacts.

Variable W : Type.
Variable rt : Runtime.
Variable br : Browser W.
Variable o : Options.
Variable target : Z.

Hypothesis scroll_short :
  forall w r w', scrollDown br w = (Ok r, w') -> reachedEnd r = false.




End CeilingFacts.



(** ** Limits that leave no room *)

(** X6.  With [maxLeads] or [maxScrolls] zero or negative the loop does not
    run a single pass: once the filters are set, the run returns the empty
    array, whatever the page shows. *)
Theorem exhausted_limits_collect_nothing (W : Type) (rt : Runtime) (br : Browser W)
    (o : Options) (targetDate : Date) (w w' : W) (r : option (list StructuredLead)) :
  maxLeads o <= 0 \/ maxScrolls o <= 0 ->
  scrapeLeadsUntilDate W rt br targetDate o w = (Ok r, w') ->
  r = Some [].
Proof.
  intros Hlim H.
  destruct (scrapeLeadsUntilDate_inv _ _ _ _ _ _ _ _ H) as (t & w1 & final & _ & Hc & ->).
  assert (G : loopGuard o initialState = false).
  { unfold loopGuard, initialState, JsMap.size. simpl.
    destruct Hlim as [Hl | Hs].
    - assert (E : (0 <? maxLeads o) = false) by (apply Z.ltb_ge; lia).
      rewrite E. now rewrite andb_false_r.
    - assert (E : (0 <? maxScrolls o) = false) by (apply Z.ltb_ge; lia).
      now rewrite E. }
  destruct (Z.to_nat (maxScrolls o)); simpl in Hc; rewrite G in Hc;
    unfold ret in Hc; now injection Hc as <- _.
Qed.

Lemma exhausted_limits_collect_nothing_witness :
  exists w',
    scrapeLeadsUntilDate nat buenosAires (scripted scenario) (ValidDate demoTarget)
      {| optStatus := "all"; maxScrolls := 200; maxLeads := 0; extractDetails := false |}
      0%nat = (Ok (Some []), w').
Proof.
  set (o := {| optStatus := "all"; maxScrolls := 200; maxLeads := 0;
               extractDetails := false |}).
  destruct (scrapeLeadsUntilDate nat buenosAires (scripted scenario) (ValidDate demoTarget)
              o 0%nat) as [[r|e] w'] eqn:E; [|vm_compute in E; discriminate E].
  exists w'.
  assert (Hlim : maxLeads o <= 0 \/ maxScrolls o <= 0) by (left; simpl; lia).
  rewrite (exhausted_limits_collect_nothing nat buenosAires (scripted scenario) o
             (ValidDate demoTarget) 0%nat w' r Hlim E).
  reflexivity.
Defined.

(** ** The text of the contact popover *)

Section PhoneFacts.

Lemma atLeast_inv (n : nat) (p : ascii -> bool) (s rest : string) :
  atLeast n p s = Some rest ->
  exists run, s = (run ++ rest)%string /\ allChars p run = true.
Proof.
  unfold atLeast. destruct (_ <=? _)%nat; [|discriminate].
  intros H. injection H as <-.
  exists (JS.takeWhile p s). split.
  - symmetry. apply take_drop_while.
  - apply takeWhile_allChars.
Qed.

Lemma digit_then_inv (s rest : string) :
  (digitsN 1 >> atLeast 8 isPhoneChar) s = Some rest ->
  exists d run,
    s = String d (run ++ rest) /\ JS.isDigit d = true /\ allChars isPhoneChar run = true.
Proof.
  intros H. apply andThen_inv in H. destruct H as (m & Hd & Ha).
  destruct s as [|d r]; [discriminate|]. simpl in Hd.
  destruct (JS.isDigit d) eqn:D; [|discriminate]. injection Hd as <-.
  apply atLeast_inv in Ha. destruct Ha as (run & -> & Hrun).
  now exists d, run.
Qed.

Lemma phoneRe_inv (s rest : string) :
  phoneRe s = Some rest ->
  exists d run,
    JS.isDigit d = true /\ allChars isPhoneChar run = true /\
    (consumed s rest = String "+" (String d run) \/ consumed s rest = String d run).
Proof.
  unfold phoneRe.
  destruct ((chr "+" >> digitsN 1 >> atLeast 8 isPhoneChar) s) as [r|] eqn:E.
  - intros H. injection H as <-.
    apply andThen_inv in E. destruct E as (m & Hp & E).
    apply chr_inv in Hp. subst s.
    apply digit_then_inv in E. destruct E as (d & run & -> & D & R).
    exists d, run. split; [exact D|]. split; [exact R|]. left.
    change (String "+" (String d (run ++ r)))
      with ((String "+" (String d run)) ++ r)%string.
    apply consumed_app.
  - intros H. apply digit_then_inv in H. destruct H as (d & run & -> & D & R).
    exists d, run. split; [exact D|]. split; [exact R|]. right.
    change (String d (run ++ rest)) with ((String d run) ++ rest)%string.
    apply consumed_app.
Qed.

Lemma phoneChar_kept (c : ascii) :
  isPhoneChar c = true -> isPlusOrDigit c = true -> JS.isDigit c = true.
Proof.
  unfold isPlusOrDigit. destruct (Ascii.eqb_spec c "+") as [->|_]; simpl.
  - intros H. vm_compute in H. discriminate H.
  - auto.
Qed.

Lemma filterChars_phone (run : string) :
  allChars isPhoneChar run = true ->
  allChars JS.isDigit (filterChars isPlusOrDigit run) = true.
Proof.
  induction run as [|c r IH]; simpl; [reflexivity|].
  intros H. apply andb_true_iff in H. destruct H as [Hc Hr].
  destruct (isPlusOrDigit c) eqn:K; simpl; [|auto].
  now rewrite (phoneChar_kept c Hc K), IH.
Qed.

Lemma digit_not_plus (d : ascii) : JS.isDigit d = true -> Ascii.eqb d "+" = false.
Proof.
  intros D. destruct (Ascii.eqb_spec d "+") as [->|_]; [|reflexivity].
  vm_compute in D. discriminate D.
Qed.

(** What [cleanPhone] makes of a match is a number. *)
Lemma cleanPhone_number (s rest : string) :
  phoneRe s = Some rest -> isNumber (cleanPhone (consumed s rest)) = true.
Proof.
  intros H. destruct (phoneRe_inv _ _ H) as (d & run & D & R & [-> | ->]);
    unfold cleanPhone; simpl.
  - unfold isPlusOrDigit at 1. rewrite D, orb_true_r.
    unfold isNumber. simpl. now rewrite D, (filterChars_phone _ R).
  - unfold isPlusOrDigit at 1. rewrite D, orb_true_r.
    unfold isNumber. rewrite (digit_not_plus _ D). simpl.
    now rewrite D, (filterChars_phone _ R).
Qed.

Lemma matchAll_In (m : matcher) (inside : nat) (s x : string) :
  In x (matchAll m inside s) ->
  exists from rest, m from = Some rest /\ x = consumed from rest.
Proof.
  revert inside. induction s as [|c r IH]; intros inside H; simpl in H; [contradiction|].
  destruct inside as [|k]; [|exact (IH _ H)].
  destruct (m (String c r)) as [rest|] eqn:E.
  - destruct H as [<- | H]; [eauto | exact (IH _ H)].
  - exact (IH _ H).
Qed.

Lemma isNumber_truthy (s : string) : isNumber s = true -> JS.truthy (Str s) = true.
Proof.
  unfold isNumber. destruct s as [|c r]; simpl; [discriminate | reflexivity].
Qed.

(** The loop keeps a number it has, and gives each field numbers of its
    kind only. *)
Lemma classifyPhones_kinds (l : list string) (phone cellPhone : jsval) :
  Forall (fun x => isNumber (cleanPhone x) = true) l ->
  numberOfKind false phone -> numberOfKind true cellPhone ->
  numberOfKind false (fst (classifyPhones l phone cellPhone)) /\
  numberOfKind true (snd (classifyPhones l phone cellPhone)).
Proof.
  intros Hl. revert phone cellPhone.
  induction Hl as [|x rest Hx _ IH]; intros phone cellPhone Hp Hc; simpl; [auto|].
  destruct (isCellPhone (cleanPhone x)) eqn:K.
  - apply IH; [exact Hp|].
    destruct (JS.truthy cellPhone); [exact Hc | simpl; auto].
  - apply IH; [|exact Hc].
    destruct (JS.truthy phone); [exact Hp | simpl; auto].
Qed.

Lemma classifyPhones_keeps_phone (l : list string) (phone cellPhone : jsval) :
  JS.truthy phone = true -> fst (classifyPhones l phone cellPhone) = phone.
Proof.
  revert cellPhone. induction l as [|x rest IH]; intros cellPhone H; simpl; [reflexivity|].
  destruct (isCellPhone (cleanPhone x)); [apply IH, H|].
  rewrite H. apply IH, H.
Qed.

Lemma classifyPhones_keeps_cell (l : list string) (phone cellPhone : jsval) :
  JS.truthy cellPhone = true -> snd (classifyPhones l phone cellPhone) = cellPhone.
Proof.
  revert phone. induction l as [|x rest IH]; intros phone H; simpl; [reflexivity|].
  destruct (isCellPhone (cleanPhone x)); [|apply IH, H].
  rewrite H. apply IH, H.
Qed.

End PhoneFacts.

(** X7.  Of the text of a contact popover, the field [phone] is [null] or
    a number that does not start with 549 or +549, and [cellPhone] is
    [null] or a number that does; a number is made of digits, at least
    one, after at most one plus sign.  The first number found in the text
    is always reported, in the field of its kind. *)
Theorem contact_phones_classified (popoverText : string) :
  numberOfKind false (ciPhone (contactInfoOfText popoverText)) /\
  numberOfKind true (ciCellPhone (contactInfoOfText popoverText)) /\
  forall first others,
    matchAll phoneRe 0 popoverText = first :: others ->
    if isCellPhone (cleanPhone first)
    then ciCellPhone (contactInfoOfText popoverText) = Str (cleanPhone first)
    else ciPhone (contactInfoOfText popoverText) = Str (cleanPhone first).
Proof.
  assert (Hall : Forall (fun x => isNumber (cleanPhone x) = true)
                   (matchAll phoneRe 0 popoverText)).
  { apply Forall_forall. intros x Hx.
    destruct (matchAll_In _ _ _ _ Hx) as (from & rest & Hm & ->).
    now apply cleanPhone_number. }
  unfold contactInfoOfText.
  destruct popoverText as [|c r]; [simpl; intuition discriminate|].
  cbn [JS.isEmpty ciPhone ciCellPhone].
  destruct (classifyPhones_kinds _ Null Null Hall I I) as [Hp Hc].
  split; [exact Hp|]. split; [exact Hc|].
  intros first others E. rewrite E in Hall |- *.
  apply Forall_inv in Hall. apply isNumber_truthy in Hall.
  cbn [classifyPhones JS.truthy].
  destruct (isCellPhone (cleanPhone first)).
  - now apply classifyPhones_keeps_cell.
  - now apply classifyPhones_keeps_phone.
Qed.

(** ** The route *)

Section RouteFacts.

Variable W : Type.
Variable rt : Runtime.
Variable br : Browser W.

Lemma validStatuses_In (s : string) :
  existsb (String.eqb s) validStatuses = true <-> In s validStatuses.
Proof.
  rewrite existsb_exists. split.
  - intros (x & Hx & E). apply String.eqb_eq in E. now subst.
  - intros H. exists s. split; [exact H | apply String.eqb_refl].
Qed.

End RouteFacts.

(** X8.  [POST /scrape] always answers, with 200, 400 or 500 and never with
    a code.  400 is the answer to the requests that are not accepted, and
    for them the browser is not touched.  An accepted request is answered
    200 with the leads and the metadata, whose [totalLeads] is the number
    of leads and whose [targetDate] is the date of the request, or 500
    with an error message and no data. *)
Theorem postScrape_contract (W : Type) (rt : Runtime) (br : Browser W)
    (rq : ScrapeRequest) (w : W) :
  exists resp w',
    postScrape W rt br rq w = (Some resp, w') /\
    resCode resp = None /\
    ((~ acceptedRequest rt rq /\
      httpStatus resp = 400 /\ resSuccess resp = false /\ resData resp = None /\
      (exists message, resError resp = Some message) /\ w' = w)
     \/
     (acceptedRequest rt rq /\
      httpStatus resp = 200 /\ resSuccess resp = true /\ resError resp = None /\
      exists found m,
        resData resp = Some (found, Some m) /\
        totalLeads m = Z.of_nat (List.length found) /\
        Date_parse rt (JS.orEmpty (rqTargetDate rq)) = ValidDate (mdTargetDate m))
     \/
     (acceptedRequest rt rq /\
      httpStatus resp = 500 /\ resSuccess resp = false /\ resData resp = None /\
      exists message, resError resp = Some message)).
Proof.
  unfold postScrape.
  destruct (JS.truthy (rqTargetDate rq)) eqn:T; cbn [negb].
  2:{ eexists _, _. split; [reflexivity|]. split; [reflexivity|]. left.
      split; [intros (H & _); congruence|]. simpl. repeat split; eauto. }
  destruct (Date_parse rt (JS.orEmpty (rqTargetDate rq))) as [t|] eqn:P.
  2:{ eexists _, _. split; [reflexivity|]. split; [reflexivity|]. left.
      split; [intros (_ & H & _); now apply H|]. simpl. repeat split; eauto. }
  destruct (existsb (String.eqb (selectedStatus rq)) validStatuses) eqn:S; cbn [negb].
  2:{ eexists _, _. split; [reflexivity|]. split; [reflexivity|]. left.
      split.
      - intros (_ & _ & H). apply validStatuses_In in H. congruence.
      - simpl. repeat split; eauto. }
  assert (Hacc : acceptedRequest rt rq).
  { split; [exact T|]. split; [rewrite P; discriminate|].
    now apply validStatuses_In. }
  destruct (scrapeLeads W rt br (requestOptions rt rq (ValidDate t)) w)
    as [[o|e] w'] eqn:E.
  2:{ exists internalError, w'. split; [reflexivity|]. split; [reflexivity|].
      right. right. split; [exact Hacc|]. simpl. repeat split. eauto. }
  destruct (scrapeLeads_resolved W rt br _ _ _ _ E) as (r & -> & Hwf & Hflag & Hmd).
  exists (respond r), w'. split; [reflexivity|].
  destruct Hwf as [(Hs & He & m & Hm & Hn) | (Hs & Hl & Hm & msg & He)].
  - destruct (Hmd Hs) as (m' & Hm' & Ht). rewrite Hm in Hm'. injection Hm' as <-.
    unfold respond. rewrite Hs. split; [reflexivity|]. right. left.
    split; [exact Hacc|]. simpl. repeat split.
    exists (leads r), m. rewrite Hm, Ht. auto.
  - unfold respond. rewrite Hs.
    rewrite Hflag. simpl.
    split; [reflexivity|]. right. right.
    split; [exact Hacc|]. repeat split. eauto.
Qed.

Section StartDateFacts.

Variable W : Type.
Variable rt : Runtime.
Variable br : Browser W.

(** With a start date that is an invalid date, the [try] block of
    [scrapeLeads] always throws: at the latest when the date filter is
    about to be applied. *)
Lemma scrapeSession_invalid_start (opts : ScrapeOptions) (w : W) :
  soStartDate opts = Some InvalidDate ->
  exists e w',
    scrapeSession W rt br opts w = (Throw e, w') /\
    forall w1 w2,
      login br w = (Ok tt, w1) -> navigateToLeads W br w1 = (Ok tt, w2) ->
      e = OtherError "Invalid time value" /\ w' = w2.
Proof.
  intros Hs. unfold scrapeSession, bind. rewrite Hs.
  destruct (login br w) as [[[]|e] w1] eqn:L.
  - destruct (navigateToLeads W br w1) as [[[]|e] w2] eqn:N.
    + simpl. eexists _, _. split; [reflexivity|].
      intros w3 w4 H1 H2. injection H1 as <-. rewrite N in H2. injection H2 as <-. auto.
    + eexists _, _. split; [reflexivity|]. intros w3 w4 H1 H2.
      injection H1 as <-. rewrite N in H2. discriminate H2.
  - eexists _, _. split; [reflexivity|]. intros w3 w4 H1. discriminate H1.
Qed.

End StartDateFacts.

(** X9.  The start date of a request is not validated.  An accepted request
    whose [startDate] is a non-empty string that the runtime does not parse
    is always answered 500: the browser is launched, the login and the
    navigation run, and when they succeed the run fails with the message
    of the RangeError, [Invalid time value], and the browser is closed;
    that message is the answer when closing the browser returns. *)
Theorem startDate_not_validated (W : Type) (rt : Runtime) (br : Browser W)
    (rq : ScrapeRequest) (w : W) :
  acceptedRequest rt rq ->
  JS.truthy (rqStartDate rq) = true ->
  Date_parse rt (JS.orEmpty (rqStartDate rq)) = InvalidDate ->
  exists resp w',
    postScrape W rt br rq w = (Some resp, w') /\
    httpStatus resp = 500 /\ resSuccess resp = false /\ resData resp = None /\
    forall w1 w2 w3 w4 w5,
      initSelector br w = (Ok tt, w1) -> launch br w1 = (Ok tt, w2) ->
      login br w2 = (Ok tt, w3) -> navigateToLeads W br w3 = (Ok tt, w4) ->
      closeBrowser br w4 = (Ok tt, w5) ->
      resError resp = Some "Invalid time value" /\ w' = w5.
Proof.
  intros (T & P & S) Hs Hp.
  unfold postScrape. rewrite T. cbn [negb].
  destruct (Date_parse rt (JS.orEmpty (rqTargetDate rq))) as [t|]; [|congruence].
  apply validStatuses_In in S. rewrite S. cbn [negb].
  set (opts := requestOptions rt rq (ValidDate t)).
  assert (Hstart : soStartDate opts = Some InvalidDate).
  { unfold opts, requestOptions. simpl. now rewrite Hs, Hp. }
  assert (Hb : startBrowser W br opts = (initSelector br ;;; launch br)) by reflexivity.
  destruct (scrapeLeads_inv W rt br opts w)
    as [(e & v1 & Hsb & ->) | (v1 & r & v2 & Hsb & Hsr & _ & _ & _ & Hc)].
  - eexists _, _. split; [reflexivity|]. simpl.
    split; [reflexivity|]. split; [reflexivity|]. split; [reflexivity|].
    intros w1 w2 w3 w4 w5 H1 H2 _ _ _. exfalso.
    rewrite Hb in Hsb. unfold bind in Hsb. rewrite H1, H2 in Hsb. discriminate Hsb.
  - destruct (scrapeSession_invalid_start W rt br opts v1 Hstart) as (e & v3 & Hss & He).
    unfold sessionResult in Hsr. rewrite Hss in Hsr. injection Hsr as <- <-.
    destruct Hc as [(v4 & Hclose & ->) | (e' & v4 & Hclose & ->)].
    + eexists _, _. split; [reflexivity|]. simpl.
      split; [reflexivity|]. split; [reflexivity|]. split; [reflexivity|].
      intros w1 w2 w3 w4 w5 H1 H2 H3 H4 H5.
      rewrite Hb in Hsb. unfold bind in Hsb. rewrite H1, H2 in Hsb. injection Hsb as <-.
      destruct (He _ _ H3 H4) as (-> & ->).
      rewrite Hclose in H5. injection H5 as <-. auto.
    + eexists _, _. split; [reflexivity|]. simpl.
      split; [reflexivity|]. split; [reflexivity|]. split; [reflexivity|].
      intros w1 w2 w3 w4 w5 H1 H2 H3 H4 H5. exfalso.
      rewrite Hb in Hsb. unfold bind in Hsb. rewrite H1, H2 in Hsb. injection Hsb as <-.
      destruct (He _ _ H3 H4) as (_ & ->).
      rewrite Hclose in H5. discriminate H5.
Qed.

Lemma startDate_not_validated_witness :
  exists resp w',
    postScrape nat buenosAires (scripted scenario)
      {| rqTargetDate := Str "01/01/2024"; rqStartDate := Str "ayer";
         rqMaxLeads := None; rqExtractDetails := None; rqStatus := Undefined |}
      0%nat = (Some resp, w') /\
    httpStatus resp = 500 /\
    resError resp = Some "Invalid time value".
Proof.
  set (rq := {| rqTargetDate := Str "01/01/2024"; rqStartDate := Str "ayer";
                rqMaxLeads := None; rqExtractDetails := None; rqStatus := Undefined |}).
  assert (Hacc : acceptedRequest buenosAires rq).
  { split; [reflexivity|]. split; [vm_compute; discriminate|].
    vm_compute. auto. }
  destruct (startDate_not_validated nat buenosAires (scripted scenario) rq 0%nat Hacc
              eq_refl eq_refl) as (resp & w' & Hr & H500 & _ & _ & Hmsg).
  exists resp, w'. split; [exact Hr|]. split; [exact H500|].
  apply (Hmsg 0%nat 0%nat 0%nat 0%nat 0%nat); reflexivity.
Defined.

(** ** Rows in the documented layout *)

Section LayoutFacts.

Lemma append_nil (s : string) : (s ++ "")%string = s.
Proof. induction s as [|c r IH]; simpl; [reflexivity | now rewrite IH]. Qed.

Lemma tidyFrom_app (b : bool) (s x : string) :
  tidyFrom b s = true -> tidyFrom b (s ++ x) = tidyFrom false x.
Proof.
  revert b. induction s as [|c r IH]; intros b; simpl.
  - now destruct b.
  - destruct (JS.isSpace c).
    + intros H. apply andb_true_iff in H. destruct H as [H Hr].
      rewrite H. simpl. now apply IH.
    + apply IH.
Qed.

Lemma tidyFrom_weaken (s : string) : tidyFrom true s = true -> tidyFrom false s = true.
Proof.
  destruct s as [|c r]; simpl; [discriminate|].
  destruct (JS.isSpace c); [|auto].
  rewrite andb_false_r. discriminate.
Qed.

Lemma tidy_head (s : string) :
  tidyFrom true s = true -> exists c r, s = String c r /\ JS.isSpace c = false.
Proof.
  destruct s as [|c r]; simpl; [discriminate|].
  destruct (JS.isSpace c) eqn:E; [rewrite andb_false_r; discriminate|].
  eauto.
Qed.

Lemma tidy_collapse (b inRun : bool) (s x : string) :
  tidyFrom b s = true -> (b = false -> inRun = false) ->
  JS.collapseFrom inRun (s ++ x) = (s ++ JS.collapseFrom false x)%string.
Proof.
  revert b inRun. induction s as [|c r IH]; intros b inRun; simpl.
  - destruct b; [discriminate|]. intros _ H. now rewrite H.
  - destruct (JS.isSpace c) eqn:E.
    + intros H Hb. apply andb_true_iff in H. destruct H as [H Hr].
      apply andb_true_iff in H. destruct H as [Hc Hn].
      apply Ascii.eqb_eq in Hc. subst c.
      destruct b; [discriminate|]. rewrite (Hb eq_refl).
      now rewrite (IH true true Hr) by discriminate.
    + intros H _. now rewrite (IH false false H).
Qed.

Lemma tidyFrom_trimEnd (b : bool) (s : string) :
  tidyFrom b s = true -> JS.trimEnd s = s.
Proof.
  revert b. induction s as [|c r IH]; intros b; simpl; [reflexivity|].
  destruct (JS.isSpace c) eqn:E.
  - intros H. apply andb_true_iff in H. destruct H as [_ Hr].
    rewrite (IH _ Hr). destruct r; [discriminate|reflexivity].
  - intros H. now rewrite (IH _ H).
Qed.

Lemma tidy_trim (s : string) : tidyFrom true s = true -> JS.trim s = s.
Proof.
  intros H. unfold JS.trim.
  destruct (tidy_head _ H) as (c & r & -> & Hc). simpl. rewrite Hc.
  change (JS.trimEnd (String c r) = String c r).
  exact (tidyFrom_trimEnd _ _ H).
Qed.

(** Cleaning leaves clean text as it is. *)
Lemma tidy_cleanRow (s : string) : tidyFrom true s = true -> cleanRow s = s.
Proof.
  intros H. unfold cleanRow, JS.collapseSpaces.
  assert (E : JS.collapseFrom false s = s).
  { pose proof (tidy_collapse true false s EmptyString H) as K.
    rewrite !append_nil in K. apply K. discriminate. }
  rewrite E. now apply tidy_trim.
Qed.


Lemma allSpaces_trimEnd (w : string) : allChars JS.isSpace w = true -> JS.trimEnd w = EmptyString.
Proof.
  induction w as [|c r IH]; simpl; [reflexivity|].
  intros H. apply andb_true_iff in H. destruct H as [Hc Hr].
  now rewrite (IH Hr), Hc.
Qed.

Lemma trimEnd_app_spaces (x w : string) :
  allChars JS.isSpace w = true -> JS.trimEnd (x ++ w) = JS.trimEnd x.
Proof.
  intros H. induction x as [|c r IH]; simpl.
  - now apply allSpaces_trimEnd.
  - now rewrite IH.
Qed.

(** A clean field with a blank on either side trims to the field. *)
Lemma trim_padded (s : string) :
  tidyFrom true s = true ->
  JS.trim (s ++ " ") = s /\ JS.trim (String " " (s ++ " ")) = s.
Proof.
  intros H. destruct (tidy_head _ H) as (c & r & E & Hc).
  assert (K : JS.trim (s ++ " ") = s).
  { unfold JS.trim. rewrite E. simpl. rewrite Hc. rewrite <- E.
    change (String c (r ++ " ")) with ((String c r) ++ " ")%string. rewrite <- E.
    rewrite trimEnd_app_spaces by reflexivity.
    exact (tidyFrom_trimEnd _ _ H). }
  split; [exact K|]. exact K.
Qed.

Lemma digit_not_slash (d : ascii) : JS.isDigit d = true -> d <> "/"%char.
Proof. intros H ->. vm_compute in H. discriminate H. Qed.

(** The time-stamp pattern needs a slash in the third place. *)
Lemma dateTimeRe_slash (s rest : string) :
  dateTimeRe s = Some rest ->
  exists a b t,
    s = String a (String b (String "/" t)) /\ JS.isDigit a = true /\ JS.isDigit b = true.
Proof.
  unfold dateTimeRe. intros H.
  apply andThen_inv in H. destruct H as (m1 & H1 & H).
  apply andThen_inv in H. destruct H as (m2 & H2 & _).
  apply chr_inv in H2. subst m1.
  destruct s as [|a [|b t]]; simpl in H1; try discriminate.
  - destruct (JS.isDigit a); discriminate.
  - destruct (JS.isDigit a) eqn:A; [|discriminate].
    destruct (JS.isDigit b) eqn:B; [|discriminate].
    injection H1 as ->. exists a, b, m2. auto.
Qed.

Lemma dateTimeRe_no_slash (a b c : ascii) (t : string) :
  c <> "/"%char -> dateTimeRe (String a (String b (String c t))) = None.
Proof.
  intros Hc. unfold dateTimeRe, andThen. simpl.
  destruct (JS.isDigit a); [|reflexivity].
  destruct (JS.isDigit b); [|reflexivity].
  unfold chr at 1.
  destruct (Ascii.eqb_spec "/" c) as [E|_]; [now subst | reflexivity].
Qed.

(** In a text without slashes followed by a time stamp, the third
    character of every suffix that starts before the stamp is no slash. *)
Lemma third_no_slash (c : ascii) (p stamp : string) (a b : ascii) (t : string) :
  lacks "/" (String c p) ->
  stamp = String a (String b (String "/" t)) ->
  JS.isDigit a = true -> JS.isDigit b = true ->
  exists x y z u,
    (String c p ++ stamp)%string = String x (String y (String z u)) /\ z <> "/"%char.
Proof.
  intros [_ Lp] -> A B.
  destruct p as [|c2 [|c3 p]]; simpl.
  - exists c, a, b. eexists. split; [reflexivity | now apply digit_not_slash].
  - exists c, c2, a. eexists. split; [reflexivity | now apply digit_not_slash].
  - exists c, c2, c3. eexists. split; [reflexivity|]. simpl in Lp. tauto.
Qed.

Lemma search_step (m : matcher) (c : ascii) (r : string) :
  m (String c r) = None -> search m (String c r) = search m r.
Proof. intros H. simpl. now rewrite H. Qed.

Lemma search_after_prefix (p stamp : string) :
  lacks "/" p -> dateTimeRe stamp = Some EmptyString ->
  search dateTimeRe (p ++ stamp) = Some (stamp, EmptyString).
Proof.
  intros Lp Hs. destruct (dateTimeRe_slash _ _ Hs) as (a & b & t & E & A & B).
  induction p as [|c p IH]; cbn [append].
  - now apply search_here.
  - destruct (third_no_slash c p stamp a b t Lp E A B) as (x & y & z & u & Ex & Hz).
    rewrite search_step; [apply IH; exact (proj2 Lp)|].
    change (String c (p ++ stamp)) with (String c p ++ stamp)%string.
    rewrite Ex. now apply dateTimeRe_no_slash.
Qed.

Lemma take_length (s : string) : JS.take (String.length s) s = s.
Proof. induction s as [|c r IH]; simpl; [reflexivity | now rewrite IH]. Qed.

Lemma dateMatch_after_prefix (p stamp : string) :
  lacks "/" p -> dateTimeRe stamp = Some EmptyString ->
  dateMatch (p ++ stamp) = Some stamp.
Proof.
  intros Lp Hs. unfold dateMatch. rewrite (search_after_prefix _ _ Lp Hs).
  unfold consumed. simpl. rewrite Nat.sub_0_r. now rewrite take_length.
Qed.

Lemma prefix_app (s t : string) : String.prefix s (s ++ t) = true.
Proof.
  induction s as [|c r IH]; simpl; [now destruct t|].
  destruct (ascii_dec c c); [exact IH | congruence].
Qed.

Lemma prefix_third (a b s : ascii) (t : string) (x y z : ascii) (u : string) :
  z <> s ->
  String.prefix (String a (String b (String s t))) (String x (String y (String z u))) = false.
Proof.
  intros Hz. cbn [String.prefix].
  destruct (ascii_dec a x); [|reflexivity].
  destruct (ascii_dec b y); [|reflexivity].
  destruct (ascii_dec s z) as [E|_]; [now subst | reflexivity].
Qed.

Lemma prefix_refl (s : string) : String.prefix s s = true.
Proof. rewrite <- (append_nil s) at 2. apply prefix_app. Qed.

Lemma indexFrom_here (needle s : string) (i : Z) :
  String.prefix needle s = true -> JS.indexFrom needle s i = i.
Proof. intros H. destruct s; cbn [JS.indexFrom]; now rewrite H. Qed.

Lemma indexFrom_step (needle : string) (c : ascii) (r : string) (i : Z) :
  String.prefix needle (String c r) = false ->
  JS.indexFrom needle (String c r) i = JS.indexFrom needle r (i + 1).
Proof. intros H. cbn [JS.indexFrom]. now rewrite H. Qed.

Lemma indexFrom_stamp (p stamp : string) (i : Z) :
  lacks "/" p -> dateTimeRe stamp = Some EmptyString ->
  JS.indexFrom stamp (p ++ stamp) i = i + Z.of_nat (String.length p).
Proof.
  intros Lp Hs. destruct (dateTimeRe_slash _ _ Hs) as (a & b & t & E & A & B).
  revert i. induction p as [|c p IH]; intros i; cbn [append].
  - rewrite indexFrom_here by apply prefix_refl. simpl. lia.
  - destruct (third_no_slash c p stamp a b t Lp E A B) as (x & y & z & u & Ex & Hz).
    rewrite indexFrom_step.
    + rewrite IH by exact (proj2 Lp). cbn [String.length]. lia.
    + change (String c (p ++ stamp)) with (String c p ++ stamp)%string.
      rewrite Ex. rewrite E. now apply prefix_third.
Qed.

Lemma indexFrom_char (a : ascii) (p r : string) (i : Z) :
  lacks a p ->
  JS.indexFrom (String a EmptyString) (p ++ String a r) i = i + Z.of_nat (String.length p).
Proof.
  revert i. induction p as [|c p IH]; intros i Lp; cbn [append].
  - rewrite indexFrom_here; [simpl; lia|].
    cbn [String.prefix]. destruct (ascii_dec a a); [now destruct r | congruence].
  - destruct Lp as [Hc Lp]. rewrite indexFrom_step.
    + rewrite IH by exact Lp. cbn [String.length]. lia.
    + cbn [String.prefix]. destruct (ascii_dec a c) as [E|_]; [now subst | reflexivity].
Qed.

Lemma skip_app (a x : string) : JS.skip (String.length a) (a ++ x) = x.
Proof. induction a as [|c r IH]; simpl; [reflexivity | exact IH]. Qed.

Lemma substring_middle (a b c : string) :
  JS.substring (Z.of_nat (String.length a))
    (Z.of_nat (String.length a) + Z.of_nat (String.length b)) (a ++ b ++ c) = b.
Proof.
  unfold JS.substring. rewrite !length_append.
  set (la := String.length a). set (lb := String.length b). set (lc := String.length c).
  replace (Z.max 0 (Z.min (Z.of_nat la) (Z.of_nat (la + (lb + lc))))) with (Z.of_nat la) by lia.
  replace (Z.max 0 (Z.min (Z.of_nat la + Z.of_nat lb) (Z.of_nat (la + (lb + lc)))))
    with (Z.of_nat la + Z.of_nat lb) by lia.
  replace (Z.min (Z.of_nat la) (Z.of_nat la + Z.of_nat lb)) with (Z.of_nat la) by lia.
  replace (Z.max (Z.of_nat la) (Z.of_nat la + Z.of_nat lb)) with (Z.of_nat la + Z.of_nat lb) by lia.
  replace (Z.to_nat (Z.of_nat la + Z.of_nat lb - Z.of_nat la)) with lb by lia.
  rewrite Nat2Z.id. unfold la. rewrite skip_app. unfold lb. apply take_app.
Qed.

Lemma lacks_app (a : ascii) (x y : string) :
  lacks a x -> lacks a y -> lacks a (x ++ y).
Proof. induction x as [|c r IH]; simpl; [auto | intros [Hc Hr] Hy; auto]. Qed.

Lemma isEmpty_app (x y : string) : JS.isEmpty y = false -> JS.isEmpty (x ++ y) = false.
Proof. destruct x; simpl; auto. Qed.

(** The row of the documented layout, with its four fields. *)
Lemma rowLayout_full (name agentText address stamp : string) :
  rowLayout name (Some agentText) (Some address) (Some stamp)
    = (name ++ String " " (String "(" (agentText ++
         String ")" (String " " (address ++ String " " stamp)))))%string.
Proof. unfold rowLayout. simpl. now rewrite append_assoc. Qed.

End LayoutFacts.

(** Brings nested appends to one right-nested form. *)
Ltac norm_app :=
  repeat (rewrite append_assoc || rewrite append_String); cbn [append].

(** X10.  A row in the layout that [parseLeadFromText] documents, "Name
    (Agent) Address DD/MM/YYYY HH:MM", is read back field by field: when
    the four fields are clean text (single blanks between the words, none
    at the ends, and no white space other than that of the ASCII range),
    the name has no parenthesis, the agent no closing parenthesis, none of
    the three has a slash, and the address does not start with an at sign,
    the lead carries exactly the name, the agent, the address and the time
    stamp. *)
Theorem layout_round_trip (name agentText address stamp : string) :
  tidy name = true -> lacks "(" name -> lacks ")" name -> lacks "/" name ->
  tidy agentText = true -> lacks ")" agentText -> lacks "/" agentText ->
  tidy address = true -> lacks "/" address -> String.prefix "@" address = false ->
  tidy stamp = true -> dateTimeRe stamp = Some EmptyString ->
  parseLeadFromText (Str (rowLayout name (Some agentText) (Some address) (Some stamp)))
    = Some {| contactName := Str name;
              propertyAddress := Str address;
              lastUpdated := Str stamp;
              status := Null;
              _agentName := Str agentText;
              propertyName := Undefined;
              vigencia := Undefined;
              propertyId := Undefined;
              propertyAgent := Undefined |}.
Proof.
  intros Tn Ln1 Ln2 Ln3 Ta La1 La2 Td Ld1 Ld2 Ts Hs.
  apply andb_true_iff in Tn, Ta, Td, Ts.
  destruct Tn as [Tn _], Ta as [Ta _], Td as [Td _], Ts as [Ts _].
  rewrite rowLayout_full.
  set (row := (name ++ String " " (String "(" (agentText ++
                 String ")" (String " " (address ++ String " " stamp)))))%string).
  (* the row is clean *)
  assert (Hrow : cleanRow row = row).
  { apply tidy_cleanRow. unfold row.
    rewrite (tidyFrom_app _ _ _ Tn).
    change (tidyFrom false (agentText ++
              String ")" (String " " (address ++ String " " stamp))) = true).
    rewrite (tidyFrom_app _ _ _ (tidyFrom_weaken _ Ta)).
    change (tidyFrom true (address ++ String " " stamp) = true).
    rewrite (tidyFrom_app _ _ _ Td). exact Ts. }
  (* the time stamp *)
  assert (Hdate : dateMatch row = Some stamp).
  { set (p := (name ++ String " " (String "(" (agentText ++
                 String ")" (String " " (address ++ " ")))))%string).
    assert (E : row = (p ++ stamp)%string).
    { unfold row, p. norm_app. reflexivity. }
    rewrite E. apply dateMatch_after_prefix; [|exact Hs].
    unfold p. apply lacks_app; [exact Ln3|].
    split; [discriminate|]. split; [discriminate|].
    apply lacks_app; [exact La2|].
    split; [discriminate|]. split; [discriminate|].
    apply lacks_app; [exact Ld1|]. simpl. split; [discriminate | exact I]. }
  (* the contact and the agent *)
  assert (Hcontact : contactMatch row = Some ((name ++ " ")%string, agentText)).
  { assert (E : row = ((name ++ " ") ++ String "(" (agentText ++
                         String ")" (String " " (address ++ String " " stamp))))%string).
    { unfold row. norm_app. reflexivity. }
    rewrite E. apply contactMatch_complete.
    - destruct name; discriminate.
    - apply lacks_app; [exact Ln1|]. simpl. split; [discriminate | exact I].
    - destruct (tidy_head _ Ta) as (c & r & -> & _). discriminate.
    - exact La1. }
  (* the address *)
  assert (Haddr : addressBetween row stamp = Str address).
  { set (q := (name ++ String " " (String "(" agentText))%string).
    set (a := (q ++ ")")%string).
    set (b := String " " (address ++ " ")%string).
    assert (E1 : row = (q ++ String ")" (String " " (address ++ String " " stamp)))%string).
    { unfold row, q. norm_app. reflexivity. }
    assert (E2 : row = (a ++ b ++ stamp)%string).
    { unfold row, a, b, q. norm_app. reflexivity. }
    assert (E3 : row = ((a ++ b) ++ stamp)%string) by now rewrite E2, append_assoc.
    assert (Lq : lacks ")" q).
    { unfold q. apply lacks_app; [exact Ln2|].
      split; [discriminate|]. split; [discriminate|]. exact La1. }
    assert (Lp : lacks "/" (a ++ b)).
    { unfold a, b, q. repeat apply lacks_app; try assumption; simpl;
        repeat split; try discriminate; try assumption.
      apply lacks_app; [assumption|]. simpl. split; [discriminate | exact I]. }
    assert (Ka : JS.indexOf ")" row + 1 = Z.of_nat (String.length a)).
    { unfold JS.indexOf. rewrite E1, (indexFrom_char ")" q _ 0 Lq).
      unfold a. rewrite length_append. simpl. lia. }
    assert (Kb : JS.indexOf stamp row
                 = Z.of_nat (String.length a) + Z.of_nat (String.length b)).
    { unfold JS.indexOf. rewrite E3, (indexFrom_stamp _ _ 0 Lp Hs).
      rewrite length_append. lia. }
    unfold addressBetween. cbv zeta. rewrite Ka, Kb.
    assert (G : ((0 <? Z.of_nat (String.length a)) &&
                 (Z.of_nat (String.length a)
                  <? Z.of_nat (String.length a) + Z.of_nat (String.length b)))%Z = true).
    { apply andb_true_iff. split; apply Z.ltb_lt.
      - unfold a. rewrite length_append. simpl. lia.
      - unfold b. cbn [String.length]. lia. }
    rewrite G. rewrite E2, substring_middle.
    unfold b. rewrite (proj2 (trim_padded _ Td)).
    destruct (tidy_head _ Td) as (c & r & Ed & Hc).
    assert (Hat : isSpaceOrAt c = false).
    { unfold isSpaceOrAt. rewrite Hc. simpl.
      rewrite Ed in Ld2. cbn [String.prefix] in Ld2.
      destruct (Ascii.eqb_spec c "@") as [->|_]; [|reflexivity].
      destruct (ascii_dec "@" "@"); [now destruct r | congruence]. }
    assert (Hd : JS.dropWhile isSpaceOrAt address = address).
    { rewrite Ed. simpl. now rewrite Hat. }
    rewrite Hd. now rewrite (tidy_trim _ Td). }
  (* the lead *)
  destruct (parseLeadFromText_found (Str row) _ _
              ltac:(simpl; rewrite Hrow; exact Hcontact)) as [l Hl].
  rewrite Hl. f_equal.
  destruct (parseLeadFromText_some _ _ Hl) as (n & ag & Hm & ->).
  simpl in Hm. rewrite Hrow, Hcontact in Hm. injection Hm as <- <-.
  simpl JS.orEmpty. rewrite Hrow, Hdate, Haddr.
  rewrite (proj1 (trim_padded _ Tn)), (tidy_trim _ Ta). reflexivity.
Qed.

Lemma layout_round_trip_witness :
  parseLeadFromText (Str "Juan Perez (Ana Gomez) Colombres 148 2 26/11/2025 08:15")
    = Some {| contactName := Str "Juan Perez";
              propertyAddress := Str "Colombres 148 2";
              lastUpdated := Str "26/11/2025 08:15";
              status := Null;
              _agentName := Str "Ana Gomez";
              propertyName := Undefined;
              vigencia := Undefined;
              propertyId := Undefined;
              propertyAgent := Undefined |}.
Proof.
  apply (layout_round_trip "Juan Perez" "Ana Gomez" "Colombres 148 2" "26/11/2025 08:15");
    try reflexivity; simpl; repeat split; discriminate.
Defined.

(** ** The address of a row *)

Section AddressFacts.

















End AddressFacts.




(** The address next to a time stamp, on four rows: between the agent and
    the stamp; blank; the stamp right after the parenthesis; the stamp
    first. *)
Lemma address_by_layout :
  option_map propertyAddress
    (parseLeadFromText (Str "Juan Perez (Ana Gomez) @ Colombres 148 2 26/11/2025 08:15"))
  = Some (Str "Colombres 148 2") /\
  option_map propertyAddress
    (parseLeadFromText (Str "Juan Perez (Ana Gomez) 26/11/2025 08:15"))
  = Some (Str "") /\
  option_map propertyAddress
    (parseLeadFromText (Str "Juan Perez (Ana Gomez)26/11/2025 08:15"))
  = Some Null /\
  option_map propertyAddress
    (parseLeadFromText (Str "26/11/2025 08:15 Juan Perez (Ana Gomez)"))
  = Some Null.
Proof. repeat split; vm_compute; reflexivity. Qed.

(** A no-break space is white space for JavaScript and not for
    [JS.isSpace]: a text that holds one is none of the texts that the
    theorems on rows speak of. *)
Lemma no_break_space_excluded :
  asciiSpaced ("Juan" ++ ofBytes [194; 160]%nat ++ "Perez") = false /\
  tidy ("Juan" ++ ofBytes [194; 160]%nat ++ "Perez") = false /\
  asciiSpaced "Juan Pérez (Ana Gómez) Av. Ñandú 12 26/11/2025 08:15" = true.
Proof. repeat split; vm_compute; reflexivity. Qed.

(** ** One entry per key *)

Section KeyFacts.

Lemma lowerFrom_hyphens (afterLead : bool) (a : string) :
  JS.lowerFrom afterLead (a ++ "--") = (JS.lowerFrom afterLead a ++ "--")%string.
Proof.
  revert afterLead. induction a as [|c r IH]; intros afterLead; simpl.
  - now destruct afterLead.
  - now rewrite IH.
Qed.

Lemma append_inj_l (a b s : string) : (a ++ s)%string = (b ++ s)%string -> a = b.
Proof.
  revert b. induction a as [|c r IH]; intros b H.
  - destruct b as [|d b]; [reflexivity|]. exfalso.
    apply (f_equal String.length) in H. simpl in H. rewrite length_append in H. lia.
  - destruct b as [|d b].
    + exfalso. apply (f_equal String.length) in H. simpl in H.
      rewrite length_append in H. lia.
    + simpl in H. injection H as -> H. f_equal. now apply IH.
Qed.

(** The key of a lead without [propertyName] and [vigencia] is the name of
    its contact in lower case, followed by two hyphens. *)
Lemma getLeadKey_keyedByName (lead : RawLead) :
  keyedByName lead ->
  getLeadKey lead
    = (JS.toLowerCase (JS.orEmpty (JS.or (contactName lead) Null)) ++ "--")%string.
Proof.
  intros [Hp Hv]. unfold getLeadKey, JS.or. rewrite Hp, Hv. simpl JS.orEmpty.
  unfold JS.toLowerCase.
  destruct (JS.truthy (contactName lead)); simpl JS.orEmpty;
    [apply lowerFrom_hyphens | reflexivity].
Qed.

Context {V : Type}.

Lemma has_In (m : JsMap.t V) (k : string) :
  JsMap.has k m = false -> ~ In k (JsMap.keys m).
Proof.
  induction m as [|[k0 v0] r IH]; simpl; [tauto|].
  intros H. apply orb_false_iff in H. destruct H as [H0 Hr].
  intros [E | Hin]; [|now apply IH].
  subst. now rewrite String.eqb_refl in H0.
Qed.

Lemma set_keys (m : JsMap.t V) (k : string) (v : V) :
  JsMap.keys (JsMap.set k v m)
    = if JsMap.has k m then JsMap.keys m else (JsMap.keys m ++ [k])%list.
Proof.
  induction m as [|[k0 v0] r IH]; simpl; [reflexivity|].
  destruct (String.eqb k0 k) eqn:E; simpl; [reflexivity|].
  rewrite IH. now destruct (JsMap.has k r).
Qed.

(** [set] keeps the keys of a map distinct. *)
Lemma set_NoDup (m : JsMap.t V) (k : string) (v : V) :
  NoDup (JsMap.keys m) -> NoDup (JsMap.keys (JsMap.set k v m)).
Proof.
  intros H. rewrite set_keys. destruct (JsMap.has k m) eqn:E; [exact H|].
  apply NoDup_app; [exact H | repeat constructor; tauto |].
  intros x Hx [<- | []]. now apply (has_In _ _ E).
Qed.

Lemma set_entries (K : string -> V -> Prop) (m : JsMap.t V) (k : string) (v : V) :
  K k v -> Forall (fun kv => K (fst kv) (snd kv)) m ->
  Forall (fun kv => K (fst kv) (snd kv)) (JsMap.set k v m).
Proof.
  intros Hv. induction m as [|[k0 v0] r IH]; simpl; intros H.
  - constructor; [exact Hv | constructor].
  - inversion H as [|? ? H0 Hr]; subst.
    destruct (String.eqb_spec k0 k) as [->|_]; constructor; auto.
Qed.

End KeyFacts.

Section ContactFacts.

Variable W : Type.
Variable rt : Runtime.
Variable br : Browser W.
Variable o : Options.
Variable targetDate : Z.

Lemma processLeads_keyed (pend : list Pending) (store store' : Store) (w w' : W) :
  processLeads W br o pend store w = (Ok store', w') ->
  (forall p, In p pend -> keyedByName (pLead p) /\ pKey p = getLeadKey (pLead p)) ->
  keyedStore store -> keyedStore store'.
Proof.
  revert store w.
  induction pend as [|p rest IH]; intros store w H Hp Hst; simpl in H.
  - unfold ret in H. now injection H as <- _.
  - destruct (maxLeads o <=? JsMap.size store).
    + unfold ret in H. now injection H as <- _.
    + bind_inv H. destruct a as [[pid pagent] ci].
      bind_inv H. unfold ask in E0. injection E0 as <- <-.
      apply (IH _ _ H); [intros q Hq; apply Hp; now right|].
      destruct Hst as [Hn Hk]. split; [now apply set_NoDup|].
      apply (set_entries (fun k v => k = (contactLower v ++ "--")%string)); [|exact Hk].
      destruct (Hp p (or_introl eq_refl)) as [Hq ->].
      now rewrite getLeadKey_keyedByName.
Qed.

Lemma finalRescan_keyed (now : Z) (store : Store) (finalLeads : list RawLead) :
  Forall keyedByName finalLeads -> keyedStore store ->
  keyedStore (finalRescan rt now targetDate store finalLeads).
Proof.
  intros Hl. revert store. induction Hl as [|lead rest Hq _ IH]; intros store Hst; simpl.
  - exact Hst.
  - destruct (negb (JsMap.has (getLeadKey lead) store) &&
              undatedOrRecent (parseDate rt now (leadDateStr lead)) targetDate);
      [|now apply IH].
    apply IH. destruct Hst as [Hn Hk]. split; [now apply set_NoDup|].
    apply (set_entries (fun k v => k = (contactLower v ++ "--")%string)); [|exact Hk].
    now rewrite getLeadKey_keyedByName.
Qed.

Hypothesis scans : scansYield br keyedByName.

Lemma pass_keyed (st : LoopState) (w w' : W) (r : Pass) :
  pass W rt br o targetDate st w = (Ok r, w') ->
  keyedStore (allLeads st) -> keyedStore (allLeads (passState r)).
Proof.
  intros H Hst.
  destruct (pass_inv _ _ _ _ _ _ _ _ _ H) as (store & reached & w1 & w2 & _ & Hscan & Hr).
  destruct (scanPass_inv _ _ _ _ _ _ _ _ _ _ Hscan) as (visible & w3 & Hvis & _ & Hproc).
  pose proof (scans _ _ _ _ Hvis) as Qvis. rewrite Forall_forall in Qvis.
  assert (Hstore : keyedStore store).
  { apply (processLeads_keyed _ _ _ _ _ Hproc); [|exact Hst].
    intros p Hp.
    destruct (filterByDate_pending _ _ _ _ _ _ Hp) as (Hin & Hkey & _ & _).
    split; [now apply Qvis | exact Hkey]. }
  destruct Hr as [[_ ->] | [_ Hscroll]]; [exact Hstore|].
  destruct (scrollPass_inv _ _ _ _ _ _ _ _ _ _ Hscroll)
    as (sr & w4 & _ & [[_ ->] | [_ (finalLeads & w5 & Hfin & ->)]]); simpl; [exact Hstore|].
  apply finalRescan_keyed; [|exact Hstore].
  exact (scans _ _ _ _ Hfin).
Qed.

Lemma collect_keyed (fuel : nat) (st st' : LoopState) (w w' : W) :
  collect W rt br fuel o targetDate st w = (Ok (Some st'), w') ->
  keyedStore (allLeads st) -> keyedStore (allLeads st').
Proof.
  revert st w. induction fuel as [|fuel IH]; intros st w H Hst; simpl in H.
  - destruct (loopGuard o st); unfold ret in H; [discriminate|].
    now injection H as <- _.
  - destruct (loopGuard o st); [|unfold ret in H; now injection H as <- _].
    bind_inv H. pose proof (pass_keyed _ _ _ _ E Hst) as Hp.
    destruct a as [st1|st1]; simpl in Hp.
    + exact (IH _ _ H Hp).
    + unfold ret in H. now injection H as <- _.
Qed.

Lemma keyed_contacts (store : Store) :
  keyedStore store -> NoDup (map contactLower (JsMap.values store)).
Proof.
  intros [Hn Hk]. unfold JsMap.keys, JsMap.values in *.
  induction store as [|[k v] r IH]; simpl in *; [constructor|].
  inversion Hn as [|? ? Hk0 Hr]; subst.
  inversion Hk as [|? ? Hv Hkr]; subst. simpl in Hv.
  constructor; [|now apply IH].
  intros Hin. apply Hk0. rewrite in_map_iff in Hin.
  destruct Hin as (s & Hs & Hin). rewrite in_map_iff in Hin.
  destruct Hin as ([k1 v1] & <- & Hin1).
  rewrite Forall_forall in Hkr. pose proof (Hkr _ Hin1) as Hk1. simpl in Hk1, Hs.
  rewrite in_map_iff. exists (k1, v1). split; [|exact Hin1].
  simpl. now rewrite Hk1, Hv, Hs.
Qed.

Lemma run_contacts (w w' : W) (result : list StructuredLead) :
  scrapeLeadsUntilDate W rt br (ValidDate targetDate) o w = (Ok (Some result), w') ->
  NoDup (map contactLower result).
Proof.
  intros H.
  destruct (scrapeLeadsUntilDate_inv _ _ _ _ _ _ _ _ H) as (t & w1 & final & Ht & Hc & Hr).
  injection Ht as <-.
  destruct final as [st|]; [|discriminate]. injection Hr as ->.
  apply keyed_contacts. apply (collect_keyed _ _ _ _ _ Hc).
  split; constructor.
Qed.

End ContactFacts.

(** X11.  When the leads of the fallback extraction, like those of the row
    parser, carry neither [propertyName] nor [vigencia], a run returns at
    most one lead per contact: no two leads of the result have the same
    contact name up to the case of the letters, whatever their addresses
    and time stamps. *)
Theorem one_lead_per_contact (W : Type) (rt : Runtime) (br : Browser W) (o : Options)
    (target : Z) (w w' : W) (result : list StructuredLead) :
  (forall w0 found w1, llmLeads br w0 = (Ok found, w1) -> Forall keyedByName found) ->
  scrapeLeadsUntilDate W rt br (ValidDate target) o w = (Ok (Some result), w') ->
  NoDup (map contactLower result).
Proof.
  intros Hllm H.
  apply (run_contacts W rt br o target) with (w := w) (w' := w'); [|exact H].
  apply scrapeVisibleLeads_yield; [|exact Hllm].
  intros text l Hl.
  destruct (parseLeadFromText_some _ _ Hl) as (n & a & _ & ->). split; reflexivity.
Qed.

Lemma one_lead_per_contact_witness :
  exists result w',
    scrapeLeadsUntilDate nat buenosAires (scripted growingFeed) (ValidDate demoTarget)
      allOptions 0%nat = (Ok (Some result), w') /\
    NoDup (map contactLower result).
Proof.
  destruct (scrapeLeadsUntilDate nat buenosAires (scripted growingFeed) (ValidDate demoTarget)
              allOptions 0%nat) as [[[result|]|e] w'] eqn:E;
    [|vm_compute in E; discriminate E|vm_compute in E; discriminate E].
  exists result, w'. split; [reflexivity|].
  apply (one_lead_per_contact nat buenosAires (scripted growingFeed) allOptions demoTarget
           0%nat w' result); [|exact E].
  intros w0 found w1 H. simpl in H. injection H as <- _. constructor.
Defined.

(** ** Relative dates *)

Section RelativeFacts.

Lemma parseDigits_nonneg (s : string) (acc : Z) : 0 <= acc -> 0 <= JS.parseDigits acc s.
Proof.
  revert acc. induction s as [|c r IH]; intros acc H; cbn [JS.parseDigits]; [exact H|].
  destruct (JS.isDigit c) eqn:D; [|exact H].
  apply IH. lia.
Qed.

Lemma parseInt_nonneg (s : string) : 0 <= JS.parseInt s.
Proof. unfold JS.parseInt. apply parseDigits_nonneg. lia. Qed.

Lemma relativeDays_positive (s : string) (n : Z) : relativeDays s = Some n -> 0 < n.
Proof.
  unfold relativeDays. destruct (_ || _); [|discriminate].
  match goal with |- context [0 <? ?x] => destruct (0 <? x) eqn:E end; [|discriminate].
  intros H. injection H as <-. now apply Z.ltb_lt.
Qed.

Lemma haceMillis_nonneg (s : string) (ms : Z) : haceMillis s = Some ms -> 0 <= ms.
Proof.
  unfold haceMillis, haceNumber. destruct (JS.includes "hace" s); [|discriminate].
  destruct (search (lit "hace" >> spaces0 >> digits1 >> spaces0 >> lit "hora") s)
    as [[from rest]|].
  - intros H. injection H as <-.
    unfold msPerHour.
    match goal with |- 0 <= JS.parseInt ?x * _ => pose proof (parseInt_nonneg x) end. lia.
  - destruct (search _ s) as [[from rest]|]; [|discriminate].
    intros H. injection H as <-.
    unfold msPerMinute.
    match goal with |- 0 <= JS.parseInt ?x * _ => pose proof (parseInt_nonneg x) end. lia.
Qed.

End RelativeFacts.

(** X12.  A relative age never resolves to a date in the future.  When the
    string gives a duration in years, months or days, its date lies a
    positive whole number of days before the instant of the resolution;
    when it gives "hace N horas" or "hace N minutos", its date is not after
    that instant. *)
Theorem relative_dates_in_the_past (rt : Runtime) (now : Z) (s : string) (t : Z) :
  s <> EmptyString ->
  relativeDays (JS.toLowerCase (JS.trim s)) <> None \/
  haceMillis (JS.toLowerCase (JS.trim s)) <> None ->
  parseDate rt now (Str s) = Some (ValidDate t) ->
  t <= now /\
  (forall days, relativeDays (JS.toLowerCase (JS.trim s)) = Some days ->
     0 < days /\ t = now - days * msPerDay).
Proof.
  intros Hs Hrel. rewrite parseDate_rules by exact Hs.
  destruct (relativeDays (JS.toLowerCase (JS.trim s))) as [days|] eqn:R.
  - pose proof (relativeDays_positive _ _ R) as Hd.
    unfold TimeClip. destruct (_ <=? _); [|discriminate].
    intros H. injection H as <-. unfold msPerDay. split; [lia|].
    intros d H. injection H as <-. split; [exact Hd | reflexivity].
  - destruct (haceMillis (JS.toLowerCase (JS.trim s))) as [ms|] eqn:M.
    + pose proof (haceMillis_nonneg _ _ M) as Hm.
      unfold TimeClip. destruct (_ <=? _); [|discriminate].
      intros H. injection H as <-. split; [lia | discriminate].
    + destruct Hrel as [H | H]; congruence.
Qed.

Lemma relative_dates_in_the_past_witness :
  exists t,
    parseDate buenosAires demoNow (Str "hace 3 horas") = Some (ValidDate t) /\ t <= demoNow.
Proof.
  destruct (parseDate buenosAires demoNow (Str "hace 3 horas")) as [[t|]|] eqn:E;
    [|vm_compute in E; discriminate E|vm_compute in E; discriminate E].
  exists t. split; [reflexivity|].
  apply (relative_dates_in_the_past buenosAires demoNow "hace 3 horas" t);
    [discriminate | right; vm_compute; discriminate | exact E].
Defined.

(** ** The session cookies *)

(** X13.  [scrapeLeads] reads the cookies of the session after the leads
    are collected, inside the same [try], and does not use them.  When
    that reading throws, the run is a failure that carries no lead,
    however many were collected: with cookies that cannot be read, no run
    succeeds.  The run resolves when closing the browser returns. *)
Theorem unread_cookies_discard_leads (W : Type) (rt : Runtime) (br : Browser W)
    (opts : ScrapeOptions) (w : W) :
  (forall w0, exists e w1, cookies br w0 = (Throw e, w1)) ->
  neverThrows (closeBrowser br) ->
  exists r w',
    scrapeLeads W rt br opts w = (Ok (Some r), w') /\
    success r = false /\ leads r = [] /\ exists message, error r = Some message.
Proof.
  intros Hc Hclose.
  destruct (scrapeLeads_inv W rt br opts w)
    as [(e & w1 & _ & ->) | (w1 & r & w2 & _ & Hsr & _ & _ & _ & Hcl)].
  - eexists _, _. split; [reflexivity|]. simpl. eauto.
  - destruct Hcl as [(w3 & _ & ->) | (e & w3 & Hthrow & _)];
      [|now apply Hclose in Hthrow].
    exists r, w3. split; [reflexivity|].
    unfold sessionResult in Hsr.
    destruct (scrapeSession W rt br opts w1) as [[[[found now]|]|e] w4] eqn:E.
    + exfalso. unfold scrapeSession in E.
      do 4 bind_inv E. bind_inv E.
      destruct (Hc w7) as (e & w9 & Hthrow). rewrite Hthrow in E4. discriminate E4.
    + discriminate Hsr.
    + injection Hsr as <- _. simpl. eauto.
Qed.

Lemma unread_cookies_discard_leads_witness :
  exists r w',
    scrapeLeads nat buenosAires (withoutCookies shortFeed) weekOptions 0%nat
      = (Ok (Some r), w') /\
    success r = false /\ leads r = [].
Proof.
  destruct (unread_cookies_discard_leads nat buenosAires (withoutCookies shortFeed)
              weekOptions 0%nat) as (r & w' & H & Hs & Hl & _).
  - intros w0. exists (OtherError "Target closed"), w0. reflexivity.
  - intros w0 e w1 E. discriminate E.
  - exists r, w'. auto.
Defined.

(** ** The e-mail address of the popover *)

Section EmailFacts.

Lemma plusThen_inv (p : ascii -> bool) (k : matcher) (s rest : string) :
  plusThen p k s = Some rest ->
  exists run mid,
    s = (run ++ mid)%string /\ run <> EmptyString /\ allChars p run = true /\
    k mid = Some rest.
Proof.
  revert rest. induction s as [|c r IH]; intros rest; simpl; [discriminate|].
  destruct (p c) eqn:Hc; [|discriminate].
  destruct (plusThen p k r) as [rest'|] eqn:E.
  - intros H. injection H as <-.
    destruct (IH _ eq_refl) as (run & mid & -> & _ & Hrun & Hk).
    exists (String c run), mid. simpl. rewrite Hc, Hrun. repeat split; auto. discriminate.
  - intros H. exists (String c EmptyString), r. simpl. rewrite Hc.
    repeat split; auto. discriminate.
Qed.

Lemma emailRe_inv (s rest : string) :
  emailRe s = Some rest -> isAddress (consumed s rest).
Proof.
  unfold emailRe. intros H.
  apply plusThen_inv in H. destruct H as (l & m1 & -> & Hl & Al & H).
  apply andThen_inv in H. destruct H as (m2 & Hat & H). apply chr_inv in Hat. subst m1.
  apply plusThen_inv in H. destruct H as (d & m3 & -> & Hd & Ad & H).
  apply andThen_inv in H. destruct H as (m4 & Hdot & H). apply chr_inv in Hdot. subst m3.
  apply plusThen_inv in H. destruct H as (t & m5 & -> & Ht & At & H).
  injection H as ->.
  assert (E : (l ++ String "@" (d ++ String "." (t ++ rest)))%string
              = ((l ++ String "@" (d ++ String "." t)) ++ rest)%string).
  { norm_app. reflexivity. }
  rewrite E, consumed_app. exists l, d, t. auto 10.
Qed.

Lemma word_not_space (c : ascii) : isMailChar c = true -> JS.isSpace c = false.
Proof.
  destruct c as [b0 b1 b2 b3 b4 b5 b6 b7].
  destruct b0, b1, b2, b3, b4, b5, b6, b7; vm_compute; congruence.
Qed.

Lemma allChars_no_space_trimEnd (p : ascii -> bool) (s : string) :
  (forall c, p c = true -> JS.isSpace c = false) ->
  allChars p s = true -> JS.trimEnd s = s.
Proof.
  intros Hp. induction s as [|c r IH]; simpl; [reflexivity|].
  intros H. apply andb_true_iff in H. destruct H as [Hc Hr].
  now rewrite (IH Hr), (Hp c Hc).
Qed.

Lemma address_trim (e : string) : isAddress e -> JS.trim e = e.
Proof.
  intros (l & d & t & -> & Hl & Al & Hd & Ad & Ht & At).
  set (q := fun c => isMailChar c || Ascii.eqb c "@").
  assert (Hq : forall c, q c = true -> JS.isSpace c = false).
  { intros c H. unfold q in H. apply orb_true_iff in H. destruct H as [H | H].
    - now apply word_not_space.
    - apply Ascii.eqb_eq in H. now subst. }
  assert (Hall : allChars q (l ++ String "@" (d ++ String "." t)) = true).
  { assert (Hm : forall c, isMailChar c = true -> q c = true)
      by (intros c H; unfold q; now rewrite H).
    assert (Hw : forall c, isWord c = true -> q c = true)
      by (intros c H; unfold q, isMailChar; now rewrite H).
    rewrite allChars_app. rewrite (allChars_impl _ _ _ Hm Al). simpl.
    rewrite allChars_app. rewrite (allChars_impl _ _ _ Hm Ad). simpl.
    now rewrite (allChars_impl _ _ _ Hw At). }
  unfold JS.trim.
  destruct l as [|c l]; [congruence|]. simpl in Al.
  apply andb_true_iff in Al. destruct Al as [Hc _].
  simpl JS.dropWhile. rewrite (word_not_space c Hc).
  exact (allChars_no_space_trimEnd q _ Hq Hall).
Qed.

End EmailFacts.

(** X14.  The field [email] read from the text of a contact popover is
    [null] or an address: a non-empty local part and a non-empty domain of
    letters, digits, underscores, points and hyphens around one at sign,
    the domain ending in a point and one or more letters, digits or
    underscores.  It has no white space: the [trim] applied to it changes
    nothing. *)
Theorem contact_email_is_address (popoverText : string) :
  ciEmail (contactInfoOfText popoverText) = Null \/
  exists e,
    ciEmail (contactInfoOfText popoverText) = Str e /\ isAddress e /\
    exists from rest,
      search emailRe popoverText = Some (from, rest) /\ e = consumed from rest.
Proof.
  unfold contactInfoOfText.
  destruct (JS.isEmpty popoverText); [now left|]. simpl.
  destruct (search emailRe popoverText) as [[from rest]|] eqn:E; [|now left].
  right. pose proof (emailRe_inv _ _ (search_sound _ _ _ _ E)) as Ha.
  exists (consumed from rest). rewrite (address_trim _ Ha). eauto 6.
Qed.

(** ** How far the rescan goes beyond the ceiling *)

Section OvershootFacts.

Variable W : Type.
Variable rt : Runtime.
Variable br : Browser W.
Variable o : Options.
Variable target : Z.
Variable screen : Z.

Hypothesis scans_short :
  forall targetStatus w found w',
    scrapeVisibleLeads W br targetStatus w = (Ok found, w') ->
    Z.of_nat (List.length found) <= screen.




End OvershootFacts.





(** ** The fields of the result that come from the row *)

Lemma or_null_normal (v : jsval) : nullOrText (JS.or v Null).
Proof.
  unfold JS.or. destruct (JS.truthy v) eqn:T; [|now left].
  destruct v as [| |s]; try discriminate. right. exists s. split; [reflexivity|].
  simpl in T. now destruct s.
Qed.

Lemma or_or_null_normal (a b : jsval) : nullOrText (JS.or a (JS.or b Null)).
Proof.
  unfold JS.or at 1. destruct (JS.truthy a) eqn:T; [|apply or_null_normal].
  destruct a as [| |s]; try discriminate. right. exists s. split; [reflexivity|].
  simpl in T. now destruct s.
Qed.

(** X16.  In every lead that a run returns, the name of the contact, the
    name of the agent, the address and the time stamp are each [null] or a
    non-empty string: a field that the row gave as the empty string, or
    did not give, is returned as [null], whatever the page shows. *)
Theorem row_fields_normalised (W : Type) (rt : Runtime) (br : Browser W) (o : Options)
    (targetDate : Date) (w w' : W) (result : list StructuredLead) :
  scrapeLeadsUntilDate W rt br targetDate o w = (Ok (Some result), w') ->
  Forall rowFieldsNormal result.
Proof.
  intros H.
  destruct targetDate as [target|]; [|discriminate H].
  apply (scrapeLeadsUntilDate_invariant W rt br o (fun _ => True) rowFieldsNormal
           target w w' result (scansYield_True W br)); [|exact H].
  split.
  - intros lead w0 pid pagent ci now _ _ _. unfold rowFieldsNormal, structureLead. simpl.
    repeat split; try apply or_null_normal. apply or_or_null_normal.
  - intros lead w0 _ _. unfold rowFieldsNormal, structureFinalLead. simpl.
    repeat split; apply or_null_normal.
Qed.

Lemma row_fields_normalised_witness :
  exists result w',
    scrapeLeadsUntilDate nat buenosAires (scripted shortFeed) (ValidDate demoTarget)
      allOptions 0%nat = (Ok (Some result), w') /\
    Forall rowFieldsNormal result.
Proof.
  destruct (scrapeLeadsUntilDate nat buenosAires (scripted shortFeed) (ValidDate demoTarget)
              allOptions 0%nat) as [[[result|]|e] w'] eqn:E;
    [|vm_compute in E; discriminate E|vm_compute in E; discriminate E].
  exists result, w'. split; [reflexivity|].
  exact (row_fields_normalised nat buenosAires (scripted shortFeed) allOptions
           (ValidDate demoTarget) 0%nat w' result E).
Defined.

(** X17.  Every lead that a run returns names its contact, provided that
    the leads of the fallback extraction do: the row parser yields no lead
    without a name, and the name of the lead is the one of the row. *)
Theorem contacts_named (W : Type) (rt : Runtime) (br : Browser W) (o : Options)
    (targetDate : Date) (w w' : W) (result : list StructuredLead) :
  (forall w0 found w1, llmLeads br w0 = (Ok found, w1) -> Forall namesContact found) ->
  scrapeLeadsUntilDate W rt br targetDate o w = (Ok (Some result), w') ->
  Forall (fun s => exists name, Contact.name (contact s) = Str name /\ name <> EmptyString)
         result.
Proof.
  intros Hllm H.
  destruct targetDate as [target|]; [|discriminate H].
  assert (Hscan : scansYield br namesContact).
  { apply scrapeVisibleLeads_yield; [|exact Hllm].
    intros text l Hl. exact (parsed_truthy _ _ Hl). }
  assert (Hname : forall lead, namesContact lead ->
            exists name, JS.or (contactName lead) Null = Str name /\ name <> EmptyString).
  { intros lead Hn. unfold namesContact in Hn. unfold JS.or. rewrite Hn.
    destruct (contactName lead) as [| |s]; try discriminate.
    exists s. split; [reflexivity|]. simpl in Hn. now destruct s. }
  apply (scrapeLeadsUntilDate_invariant W rt br o namesContact _ target w w' result Hscan);
    [|exact H].
  split.
  - intros lead w0 pid pagent ci now Hn _ _. exact (Hname lead Hn).
  - intros lead w0 Hn _. exact (Hname lead Hn).
Qed.

Lemma contacts_named_witness :
  exists result w',
    scrapeLeadsUntilDate nat buenosAires (scripted shortFeed) (ValidDate demoTarget)
      allOptions 0%nat = (Ok (Some result), w') /\
    Forall (fun s => exists name, Contact.name (contact s) = Str name /\ name <> EmptyString)
           result.
Proof.
  destruct (scrapeLeadsUntilDate nat buenosAires (scripted shortFeed) (ValidDate demoTarget)
              allOptions 0%nat) as [[[result|]|e] w'] eqn:E;
    [|vm_compute in E; discriminate E|vm_compute in E; discriminate E].
  exists result, w'. split; [reflexivity|].
  apply (contacts_named nat buenosAires (scripted shortFeed) allOptions
           (ValidDate demoTarget) 0%nat w' result); [|exact E].
  intros w0 found w1 H. simpl in H. injection H as <- _. constructor.
Defined.

(** ** Examples of the popover and of the route *)

Lemma contact_phones_classified_witness :
  ciPhone (contactInfoOfText "Tel +54 11 4444-5555 / Cel +549 11 5555-6666")
    = Str "+541144445555".
Proof.
  destruct (contact_phones_classified "Tel +54 11 4444-5555 / Cel +549 11 5555-6666")
    as (_ & _ & H).
  exact (H "+54 11 4444-5555 " ["+549 11 5555-6666"] eq_refl).
Defined.

Lemma postScrape_contract_witness :
  exists resp,
    postScrape nat buenosAires (scripted scenario)
      {| rqTargetDate := Str "01/01/2024"; rqStartDate := Undefined;
         rqMaxLeads := None; rqExtractDetails := None; rqStatus := Str "todos" |}
      0%nat = (Some resp, 0%nat) /\
    httpStatus resp = 400.
Proof.
  set (rq := {| rqTargetDate := Str "01/01/2024"; rqStartDate := Undefined;
                rqMaxLeads := None; rqExtractDetails := None; rqStatus := Str "todos" |}).
  destruct (postScrape_contract nat buenosAires (scripted scenario) rq 0%nat)
    as (resp & w' & Hr & _ & [(_ & H400 & _ & _ & _ & Hw) | [(Hacc & _) | (Hacc & _)]]).
  - exists resp. rewrite Hr, Hw. auto.
  - exfalso. destruct Hacc as (_ & _ & Hin). vm_compute in Hin.
    repeat (destruct Hin as [Hin | Hin]; [discriminate Hin|]). exact Hin.
  - exfalso. destruct Hacc as (_ & _ & Hin). vm_compute in Hin.
    repeat (destruct Hin as [Hin | Hin]; [discriminate Hin|]). exact Hin.
Defined.

(** When closing the browser throws, the promise of [scrapeLeads] rejects
    and the [catch] of the handler answers the request. *)
Lemma close_failure_answered :
  fst (postScrape nat buenosAires (withoutClose shortFeed)
         {| rqTargetDate := Str "11/01/2025"; rqStartDate := Undefined;
            rqMaxLeads := None; rqExtractDetails := None; rqStatus := Str "all" |}
         0%nat)
  = Some internalError.
Proof. vm_compute. reflexivity. Qed.

(** ** The ceiling of a request *)

Section RequestCeiling.

Variable W : Type.
Variable rt : Runtime.
Variable br : Browser W.

Lemma collect_exhausted (fuel : nat) (o : Options) (target : Z) (w w' : W)
    (final : option LoopState) :
  maxLeads o <= 0 ->
  collect W rt br fuel o target initialState w = (Ok final, w') ->
  final = Some initialState.
Proof.
  intros Hl.
  assert (G : loopGuard o initialState = false).
  { unfold loopGuard, initialState, JsMap.size. simpl.
    assert (E : (0 <? maxLeads o) = false) by (apply Z.ltb_ge; lia).
    rewrite E. now rewrite andb_false_r. }
  destruct fuel; simpl; rewrite G; unfold ret; intros H; now injection H as <- _.
Qed.

Lemma scrapeLeads_exhausted (opts : ScrapeOptions) (w w' : W) (r : ScrapeResult) :
  soMaxLeads opts <= 0 ->
  scrapeLeads W rt br opts w = (Ok (Some r), w') -> leads r = [].
Proof.
  intros Hl H.
  destruct (scrapeLeads_inv W rt br opts w)
    as [(e & w1 & _ & E) | (w1 & r' & w2 & _ & Hsr & _ & _ & _ & Hc)].
  - rewrite E in H. now injection H as <- _.
  - destruct Hc as [(w3 & _ & E) | (e & w3 & _ & E)]; rewrite E in H; [|discriminate H].
    injection H as <- _.
    unfold sessionResult in Hsr.
    destruct (scrapeSession W rt br opts w1) as [[[[found now]|]|e] w4] eqn:Es;
      try discriminate; injection Hsr as <- _; [|reflexivity].
    simpl. unfold scrapeSession in Es.
    do 4 bind_inv Es. bind_inv Es. bind_inv Es.
    unfold ret in Es. injection Es as Es _.
    destruct (scrapeLeadsUntilDate_inv _ _ _ _ _ _ _ _ E3) as (t & w11 & final & _ & Hcol & ->).
    apply collect_exhausted in Hcol; [|exact Hl]. subst final.
    simpl in Es. now injection Es as <- _.
Qed.

End RequestCeiling.

(** X18.  The ceiling of a request, at its two edges.  A [maxLeads] of zero
    is taken for a missing one: the request is served as if it had none,
    with the ceiling of 10000.  A negative [maxLeads] is passed on as it
    is, and then no lead is collected: the request is never answered with
    leads, and an answer 200 carries the empty array. *)
Theorem request_ceiling_edges (W : Type) (rt : Runtime) (br : Browser W)
    (rq : ScrapeRequest) (w : W) :
  postScrape W rt br
    {| rqTargetDate := rqTargetDate rq; rqStartDate := rqStartDate rq;
       rqMaxLeads := Some 0; rqExtractDetails := rqExtractDetails rq;
       rqStatus := rqStatus rq |} w
  = postScrape W rt br
      {| rqTargetDate := rqTargetDate rq; rqStartDate := rqStartDate rq;
         rqMaxLeads := None; rqExtractDetails := rqExtractDetails rq;
         rqStatus := rqStatus rq |} w
  /\
  forall n resp w' found m,
    rqMaxLeads rq = Some n -> n < 0 ->
    postScrape W rt br rq w = (Some resp, w') ->
    resData resp = Some (found, m) -> found = [].
Proof.
  split; [reflexivity|].
  intros n resp w' found m Hn Hneg. unfold postScrape.
  destruct (negb (JS.truthy (rqTargetDate rq))); [intros H; now injection H as <- _|].
  destruct (Date_parse rt (JS.orEmpty (rqTargetDate rq))) as [t|];
    [|intros H; now injection H as <- _].
  destruct (negb (existsb (String.eqb (selectedStatus rq)) validStatuses));
    [intros H; now injection H as <- _|].
  destruct (scrapeLeads W rt br (requestOptions rt rq (ValidDate t)) w)
    as [[[r|]|e] w1] eqn:E; [|discriminate|intros H; now injection H as <- _].
  intros H. injection H as <- _.
  assert (Hl : leads r = []).
  { apply (scrapeLeads_exhausted W rt br (requestOptions rt rq (ValidDate t)) w w1 r);
      [|exact E].
    unfold requestOptions. simpl. rewrite Hn.
    destruct (n =? 0) eqn:Z0; [apply Z.eqb_eq in Z0; lia | lia]. }
  unfold respond. destruct (success r); simpl.
  - intros H. injection H as <- _. exact Hl.
  - destruct (JS.truthy (isSessionClosed r)); discriminate.
Qed.

Lemma request_ceiling_edges_witness :
  exists resp w',
    postScrape nat buenosAires (scripted shortFeed)
      {| rqTargetDate := Str "01/01/2024"; rqStartDate := Undefined;
         rqMaxLeads := Some (-1); rqExtractDetails := None; rqStatus := Str "all" |}
      0%nat = (Some resp, w') /\
    httpStatus resp = 200 /\
    exists m, resData resp = Some ([], m).
Proof.
  set (rq := {| rqTargetDate := Str "01/01/2024"; rqStartDate := Undefined;
                rqMaxLeads := Some (-1); rqExtractDetails := None; rqStatus := Str "all" |}).
  destruct (postScrape nat buenosAires (scripted shortFeed) rq 0%nat)
    as [[resp|] w'] eqn:E; [|vm_compute in E; discriminate E].
  exists resp, w'. split; [reflexivity|].
  destruct (resData resp) as [[found m]|] eqn:D;
    [|vm_compute in E; injection E as <- _; discriminate D].
  split; [vm_compute in E; injection E as <- _; reflexivity|].
  exists m.
  destruct (request_ceiling_edges nat buenosAires (scripted shortFeed) rq 0%nat) as [_ H].
  now rewrite (H (-1) resp w' found m eq_refl ltac:(lia) E D).
Defined.

(** ** The two handlers of the route *)

(** X19.  The two handlers of [POST /scrape] that the repository holds, the
    one that checks the status and the one that does not, give the same
    answer and leave the same world on every request that names one of the
    eight statuses, and on every request whose target date is missing or
    not parsed.  They part on a request without a status, which one serves
    with [pendiente_contactar] and the other with [all], and on a status
    out of the list, which one answers 400 and the other passes on. *)
Theorem handlers_agree (W : Type) (rt : Runtime) (br : Browser W)
    (rq : ScrapeRequest) (w : W) :
  (JS.truthy (rqStatus rq) = true /\ In (selectedStatus rq) validStatuses) \/
  JS.truthy (rqTargetDate rq) = false \/
  Date_parse rt (JS.orEmpty (rqTargetDate rq)) = InvalidDate ->
  postScrapeAnyStatus W rt br rq w = postScrape W rt br rq w.
Proof.
  intros H. unfold postScrapeAnyStatus, postScrape.
  destruct (JS.truthy (rqTargetDate rq)) eqn:T; cbn [negb]; [|reflexivity].
  destruct (Date_parse rt (JS.orEmpty (rqTargetDate rq))) as [t|] eqn:P; [|reflexivity].
  destruct H as [[Hs Hin] | [H | H]]; try discriminate.
  apply validStatuses_In in Hin. rewrite Hin. cbn [negb].
  assert (E : requestOptionsAnyStatus rt rq (ValidDate t) = requestOptions rt rq (ValidDate t)).
  { unfold requestOptionsAnyStatus, requestOptions, selectedStatus, JS.or.
    now rewrite Hs. }
  rewrite E.
  destruct (scrapeLeads W rt br (requestOptions rt rq (ValidDate t)) w)
    as [[o|e] w'] eqn:Er; [|reflexivity].
  destruct (scrapeLeads_resolved W rt br _ _ _ _ Er) as (r & -> & _ & Hflag & _).
  unfold respond, respondAnyStatus. rewrite Hflag. reflexivity.
Qed.

Lemma handlers_agree_witness :
  postScrapeAnyStatus nat buenosAires (scripted shortFeed)
    {| rqTargetDate := Str "01/01/2024"; rqStartDate := Undefined;
       rqMaxLeads := None; rqExtractDetails := None; rqStatus := Str "all" |} 0%nat
  = postScrape nat buenosAires (scripted shortFeed)
      {| rqTargetDate := Str "01/01/2024"; rqStartDate := Undefined;
         rqMaxLeads := None; rqExtractDetails := None; rqStatus := Str "all" |} 0%nat.
Proof.
  apply handlers_agree. left. split; [reflexivity|].
  vm_compute. tauto.
Defined.

(** Where the two handlers part: a request without a status, on a page
    whose rows stand under no section header, is answered with the two
    leads by the one and with none by the other; a status out of the list
    is answered 200 by the one and 400 by the other. *)
Lemma handlers_part :
  (exists a b,
     fst (postScrapeAnyStatus nat buenosAires (scripted shortFeed)
            {| rqTargetDate := Str "01/01/2024"; rqStartDate := Undefined;
               rqMaxLeads := None; rqExtractDetails := None; rqStatus := Undefined |} 0%nat)
       = Some a /\
     fst (postScrape nat buenosAires (scripted shortFeed)
            {| rqTargetDate := Str "01/01/2024"; rqStartDate := Undefined;
               rqMaxLeads := None; rqExtractDetails := None; rqStatus := Undefined |} 0%nat)
       = Some b /\
     option_map (fun d => List.length (fst d)) (resData a) = Some 2%nat /\
     option_map (fun d => List.length (fst d)) (resData b) = Some 0%nat) /\
  (exists a b,
     fst (postScrapeAnyStatus nat buenosAires (scripted shortFeed)
            {| rqTargetDate := Str "01/01/2024"; rqStartDate := Undefined;
               rqMaxLeads := None; rqExtractDetails := None; rqStatus := Str "todos" |} 0%nat)
       = Some a /\
     fst (postScrape nat buenosAires (scripted shortFeed)
            {| rqTargetDate := Str "01/01/2024"; rqStartDate := Undefined;
               rqMaxLeads := None; rqExtractDetails := None; rqStatus := Str "todos" |} 0%nat)
       = Some b /\
     httpStatus a = 200 /\ httpStatus b = 400).
Proof.
  split; eexists _, _; (split; [vm_compute; reflexivity|]);
    (split; [vm_compute; reflexivity|]); split; vm_compute; reflexivity.
Qed.
